(** * MatrixMarket: a shallow embedding of [matrixmarket.hpp]

    The header-only library reads a MatrixMarket coordinate file and
    returns it in compressed-sparse-row or compressed-sparse-column form.
    This development embeds the reader ([Tokens], [parse_value_fmt],
    [parse_symmetry], [parse_int], [read_header], [read_csr], [read_csc])
    and the demonstration program of [demo.cpp], and proves the
    properties of the format decoder about them.

    Modelling choices.
    - [CoordType] is a C++ integral type whose stream extractor reads a
      number ([short], [int], [long], [long long] and their unsigned
      versions): a fixed number of bits, signed or not.  Its values are
      [Z] numbers in the range of the type and every conversion to it
      ([static_cast], the negation performed by the stream extractor) has
      its wrap-around written out.
    - [ValueType] is kept abstract (it is usually a floating-point type):
      only the extractor [parse_num] and the converted literal [1] are used
      by the code.
    - [std::ifstream] / [std::istringstream] are a buffer of unread
      characters with the [eofbit] and [failbit] flags; [std::getline] is
      executed on that state.
    - [std::sort] is known by its contract (a permutation of the input,
      ordered by the comparator; nothing about equivalent elements); the
      implementation of the GNU library is embedded as one instance of
      it.
    - a C++ exception is the [Throw] outcome; the [do ... while] of
      [read_header] can spin forever on some inputs, which is the [Hang]
      outcome.

    Layout: the embedding of the source; the vocabulary in which the
    properties are stated; facts about each stage of the decoder; the
    properties of the decoded format; further properties of the reader and
    of the program; all of them at work on concrete files. *)

From Stdlib Require Import ZArith List Bool Ascii String Lia Permutation Sorted.
Import ListNotations.
Local Open Scope string_scope.
Local Open Scope list_scope.
Local Open Scope Z_scope.

(* ================================================================== *)
(** * Integral types *)

Record int_type : Type := { is_signed : bool; bits : positive }.

Definition modulus (t : int_type) : Z := 2 ^ Zpos (bits t).

Definition min_value (t : int_type) : Z :=
  if is_signed t then - 2 ^ (Zpos (bits t) - 1) else 0.

Definition max_value (t : int_type) : Z := min_value t + modulus t - 1.

(** [static_cast<T>(z)]: reduction modulo [2^bits] into the range of [T]. *)
Definition static_cast (t : int_type) (z : Z) : Z :=
  (z - min_value t) mod modulus t + min_value t.

Definition in_range (t : int_type) (z : Z) : Prop :=
  min_value t <= z <= max_value t.

Definition short : int_type := {| is_signed := true; bits := 16 |}.
Definition unsigned_short : int_type := {| is_signed := false; bits := 16 |}.
Definition int : int_type := {| is_signed := true; bits := 32 |}.
Definition unsigned_int : int_type := {| is_signed := false; bits := 32 |}.

(* ================================================================== *)
(** * Outcomes of a call *)

Inductive exception : Type :=
| invalid_argument (what : string)       (* throw std::invalid_argument(..) *)
| new_invalid_argument (what : string).  (* throw new std::invalid_argument(..) *)

Inductive outcome (A : Type) : Type :=
| Ok (a : A)
| Throw (e : exception)
| Hang.

Arguments Ok {A} a.
Arguments Throw {A} e.
Arguments Hang {A}.

Definition bind {A B : Type} (m : outcome A) (k : A -> outcome B) : outcome B :=
  match m with
  | Ok a => k a
  | Throw e => Throw e
  | Hang => Hang
  end.

Notation "x <- m ;; k" := (bind m (fun x => k))
  (at level 61, m at next level, right associativity).
Notation "' p <- m ;; k" := (bind m (fun x => match x with p => k end))
  (at level 61, p pattern, m at next level, right associativity).

Definition is_format_error {A : Type} (o : outcome A) : Prop :=
  exists what, o = Throw (invalid_argument what).

Definition succeeds {A : Type} (o : outcome A) : Prop := exists a, o = Ok a.

(* ================================================================== *)
(** * Input streams and [std::getline] *)

Record istream : Type := { buf : string; eofbit : bool; failbit : bool }.

(** A freshly opened stream on the given contents. *)
Definition open (contents : string) : istream :=
  {| buf := contents; eofbit := false; failbit := false |}.

Definition good (f : istream) : bool := negb (eofbit f || failbit f).

Definition newline : ascii := "010"%char.
Definition space : ascii := " "%char.

(** Characters up to the delimiter.  [(l, Some rest)]: the delimiter was
    found, [l] precedes it and [rest] follows it.  [(l, None)]: the end of
    the input was reached first. *)
Fixpoint extract_until (delim : ascii) (s : string) : string * option string :=
  match s with
  | EmptyString => (EmptyString, None)
  | String c s' =>
      if Ascii.eqb c delim then (EmptyString, Some s')
      else let '(l, r) := extract_until delim s' in (String c l, r)
  end.

(** [std::getline(f, str, delim)].  When the stream is not good the sentry
    fails: [failbit] is set and [str] keeps its old contents.  Otherwise
    [str] is erased and filled up to the delimiter, which is consumed and
    not stored; reaching the end of the input sets [eofbit], and extracting
    nothing at all sets [failbit] as well. *)
Definition getline (f : istream) (str : string) (delim : ascii) : istream * string :=
  if good f then
    match extract_until delim (buf f) with
    | (l, Some rest) => ({| buf := rest; eofbit := false; failbit := false |}, l)
    | (l, None) =>
        ({| buf := EmptyString; eofbit := true;
            failbit := match l with EmptyString => true | _ => false end |}, l)
    end
  else ({| buf := buf f; eofbit := eofbit f; failbit := true |}, str).

(* ================================================================== *)
(** * The [Tokens] class *)

(** The constructor's loop
    [while (std::getline(iss, token, sep)) tokens.push_back(token);]
    Every iteration on a good stream consumes a character or fails, so
    [S (length str)] iterations are enough (lemma [Tokens_loop_fuel]). *)
Fixpoint Tokens_loop (fuel : nat) (iss : istream) (token : string) (sep : ascii)
    (tokens : list string) : list string :=
  match fuel with
  | O => tokens
  | S fuel' =>
      let '(iss', token') := getline iss token sep in
      if failbit iss' then tokens
      else Tokens_loop fuel' iss' token' sep (tokens ++ [token'])
  end.

Definition Tokens (str : string) (sep : ascii) : list string :=
  Tokens_loop (S (String.length str)) (open str) EmptyString sep [].

(** [pop]: the front token and the remaining ones.  The source asserts that
    the deque is not empty; every call site checks [size] first. *)
Definition pop (tokens : list string) : string * list string :=
  match tokens with
  | [] => (EmptyString, [])
  | t :: rest => (t, rest)
  end.

Definition peek (tokens : list string) : string :=
  match tokens with
  | [] => EmptyString
  | t :: _ => t
  end.

Definition size (tokens : list string) : Z := Z.of_nat (List.length tokens).

(* ================================================================== *)
(** * Utility functions *)

Inductive SymmetryType : Type := GENERAL | SYMMETRIC.
Inductive ValueFormat : Type := REAL | INTEGER | PATTERN.

Definition SymmetryType_eqb (a b : SymmetryType) : bool :=
  match a, b with
  | GENERAL, GENERAL | SYMMETRIC, SYMMETRIC => true
  | _, _ => false
  end.

Definition ValueFormat_eqb (a b : ValueFormat) : bool :=
  match a, b with
  | REAL, REAL | INTEGER, INTEGER | PATTERN, PATTERN => true
  | _, _ => false
  end.

Definition parse_value_fmt (value_fmt_string : string) : outcome ValueFormat :=
  if String.eqb value_fmt_string "real" then Ok REAL
  else if String.eqb value_fmt_string "integer" then Ok INTEGER
  else if String.eqb value_fmt_string "pattern" then Ok PATTERN
  else Throw (invalid_argument "Bad Header: unknown value format").

Definition parse_symmetry (symmetry_string : string) : outcome SymmetryType :=
  if String.eqb symmetry_string "general" then Ok GENERAL
  else if String.eqb symmetry_string "symmetric" then Ok SYMMETRIC
  else Throw (invalid_argument "Bad Header: unknown symmetry").

(** ** Formatted extraction of an integer, [iss >> int_val]

    The extractor of the GNU C++ library, the one the repository's
    Makefile builds with, in its default state (decimal base, [skipws],
    classic locale):
    - the sentry skips leading white space; if the input ends there the
      extraction fails and the destination is left untouched;
    - an optional sign, then the longest run of decimal digits;
    - no digit at all: the value 0 is stored;
    - a magnitude that does not fit: the largest value of the type is
      stored (the smallest one for a negative number of a signed type);
    - otherwise the number is stored, negated in the type when a minus
      sign was read (so an unsigned destination wraps around). *)

Definition isspace (c : ascii) : bool :=
  let n := Z.of_N (N_of_ascii c) in
  (n =? 32) || ((9 <=? n) && (n <=? 13)).

Definition digit_of (c : ascii) : option Z :=
  let n := Z.of_N (N_of_ascii c) in
  if (48 <=? n) && (n <=? 57) then Some (n - 48) else None.

Fixpoint skipws (s : string) : string :=
  match s with
  | EmptyString => EmptyString
  | String c s' => if isspace c then skipws s' else s
  end.

Fixpoint accumulate_digits (s : string) (acc : Z) : Z :=
  match s with
  | EmptyString => acc
  | String c s' =>
      match digit_of c with
      | Some d => accumulate_digits s' (10 * acc + d)
      | None => acc
      end
  end.

(** The magnitude written by the leading digits, if there is a digit. *)
Definition digit_prefix (s : string) : option Z :=
  match s with
  | EmptyString => None
  | String c _ =>
      match digit_of c with
      | Some _ => Some (accumulate_digits s 0)
      | None => None
      end
  end.

(** [old] is the contents of the destination before the extraction. *)
Definition extract_int (t : int_type) (s : string) (old : Z) : Z :=
  match skipws s with
  | EmptyString => old
  | String c rest =>
      let negative := Ascii.eqb c "-"%char in
      let body := if negative || Ascii.eqb c "+"%char then rest else String c rest in
      match digit_prefix body with
      | None => 0
      | Some magnitude =>
          let limit := if negative && is_signed t then - min_value t else max_value t in
          if limit <? magnitude
          then (if negative && is_signed t then min_value t else max_value t)
          else static_cast t (if negative then - magnitude else magnitude)
      end
  end.

(** The coordinate type of an instantiation.  [indeterminate] stands for
    the contents of the uninitialised local [int_val] of [parse_int], which
    is what [parse_int] returns when the extraction does not store
    anything. *)
Class CoordType : Type := { coord_type : int_type; indeterminate : Z }.

(** The value type of an instantiation: its extractor and the literal [1]
    converted to it. *)
Class ValueType : Type := {
  value_t : Type;
  parse_num : string -> value_t;
  value_one : value_t
}.

Definition parse_int `{CoordType} (int_string : string) : Z :=
  extract_int coord_type int_string (static_cast coord_type indeterminate).

(** [static_cast<CoordType>(..)] *)
Definition to_coord `{CoordType} (z : Z) : Z := static_cast coord_type z.

(** An integral value type: [ValueType = T] for one of the integer types. *)
Definition integral_value (t : int_type) (uninit : Z) : ValueType :=
  {| value_t := Z;
     parse_num := fun s => extract_int t s (static_cast t uninit);
     value_one := static_cast t 1 |}.

(* ================================================================== *)
(** * The header *)

Module Header.
Record t : Type := mk {
  symmetry : SymmetryType;
  value_type : ValueFormat;
  num_rows : Z;
  num_cols : Z;
  num_nonzeros : Z
}.
End Header.

(** [line[0] == '%'] ([line[0]] of an empty string is the null character). *)
Definition starts_with_percent (line : string) : bool :=
  match line with
  | EmptyString => false
  | String c _ => Ascii.eqb c "%"%char
  end.

(** [do { std::getline(f, line); } while (line[0] == '%');]
    [None]: the loop is still running after [fuel] iterations. *)
Fixpoint skip_comments (fuel : nat) (f : istream) (line : string)
    : option (istream * string) :=
  match fuel with
  | O => None
  | S fuel' =>
      let '(f', line') := getline f line newline in
      if starts_with_percent line' then skip_comments fuel' f' line'
      else Some (f', line')
  end.

(** Enough iterations to decide whether the loop ends: once the stream is
    no longer good the loop repeats itself (lemma [skip_comments_hangs]). *)
Definition skip_comments_fuel (f : istream) : nat := S (S (String.length (buf f))).

Section Reader.
Context {CT : CoordType}.

Definition read_header (f : istream) : outcome (Header.t * istream) :=
  let '(f, line) := getline f EmptyString newline in
  let format_tokens := Tokens line space in
  if negb (size format_tokens =? 5) then
    Throw (invalid_argument "Bad Header: ill-shaped format line")
  else
  let '(tok, format_tokens) := pop format_tokens in
  if negb (String.eqb tok "%%MatrixMarket") then
    Throw (invalid_argument "Bad Header: missing %%%%MatrixMarket")
  else
  let '(tok, format_tokens) := pop format_tokens in
  if negb (String.eqb tok "matrix") then
    Throw (invalid_argument "Bad Header: only matrix supported")
  else
  let '(tok, format_tokens) := pop format_tokens in
  if negb (String.eqb tok "coordinate") then
    Throw (invalid_argument "Bad Header: only coordinate supported")
  else
  let '(tok, format_tokens) := pop format_tokens in
  value_fmt <- parse_value_fmt tok ;;
  let '(tok, format_tokens) := pop format_tokens in
  symmetry <- parse_symmetry tok ;;
  match skip_comments (skip_comments_fuel f) f line with
  | None => Hang
  | Some (f, line) =>
      let mtx_size_tokens := Tokens line space in
      if negb (size mtx_size_tokens =? 3) then
        Throw (invalid_argument "Bad Header: missing matrix size")
      else
      let '(tok, mtx_size_tokens) := pop mtx_size_tokens in
      let num_rows := parse_int tok in
      let '(tok, mtx_size_tokens) := pop mtx_size_tokens in
      let num_cols := parse_int tok in
      let '(tok, mtx_size_tokens) := pop mtx_size_tokens in
      let num_nonzeros := parse_int tok in
      Ok (Header.mk symmetry value_fmt num_rows num_cols num_nonzeros, f)
  end.

End Reader.

(* ================================================================== *)
(** * Coordinate entries and the compressed matrices *)

Module Nonzero.
Record t (V : Type) : Type := mk { row : Z; col : Z; value : V }.
Arguments mk {V} row col value.
Arguments row {V} _.
Arguments col {V} _.
Arguments value {V} _.
End Nonzero.

Module CSRMatrix.
Record t (V : Type) : Type := mk {
  num_rows : Z;
  num_cols : Z;
  num_nonzeros : Z;
  row_offsets : list Z;
  col_indices : list Z;
  values : list V
}.
Arguments mk {V} _ _ _ _ _ _.
Arguments num_rows {V} _.
Arguments num_cols {V} _.
Arguments num_nonzeros {V} _.
Arguments row_offsets {V} _.
Arguments col_indices {V} _.
Arguments values {V} _.
End CSRMatrix.

Module CSCMatrix.
Record t (V : Type) : Type := mk {
  num_rows : Z;
  num_cols : Z;
  num_nonzeros : Z;
  col_offsets : list Z;
  row_indices : list Z;
  values : list V
}.
Arguments mk {V} _ _ _ _ _ _.
Arguments num_rows {V} _.
Arguments num_cols {V} _.
Arguments num_nonzeros {V} _.
Arguments col_offsets {V} _.
Arguments row_indices {V} _.
Arguments values {V} _.
End CSCMatrix.

(** ** [std::sort]

    The comparator must be a strict weak ordering; the result is then a
    permutation of the input in which no element is less than an earlier
    one.  The relative order of equivalent elements is not part of the
    contract. *)

Record strict_weak_order {A : Type} (comp : A -> A -> bool) : Prop := {
  swo_irrefl : forall a, comp a a = false;
  swo_trans : forall a b c, comp a b = true -> comp b c = true -> comp a c = true;
  swo_negtrans : forall a b c, comp a b = false -> comp b c = false -> comp a c = false
}.

Definition sorted_by {A : Type} (comp : A -> A -> bool) (l : list A) : Prop :=
  StronglySorted (fun a b => comp b a = false) l.

Class StdSort (A : Type) : Type := {
  std_sort : (A -> A -> bool) -> list A -> list A;
  std_sort_perm : forall comp l, Permutation l (std_sort comp l);
  std_sort_sorted : forall comp l, strict_weak_order comp -> sorted_by comp (std_sort comp l)
}.

Section Decoder.
Context {CT : CoordType} {VT : ValueType}.

Abbreviation Nonzero := (Nonzero.t value_t).
Abbreviation CSR := (CSRMatrix.t value_t).
Abbreviation CSC := (CSCMatrix.t value_t).

Context {sorter : StdSort Nonzero}.

(** ** Reading the coordinate list *)

(** The body of the reading loop once the line is in [line] (the
    statements from the construction of [tokens] to the last
    [push_back]); it returns the vector [nonzeros] after the iteration. *)
Definition read_data_line (header : Header.t) (line : string) (nonzeros : list Nonzero)
    : outcome (list Nonzero) :=
  let tokens := Tokens line space in
  if ValueFormat_eqb (Header.value_type header) PATTERN && negb (size tokens =? 2) then
    Throw (invalid_argument "Bad Matrix: ill-shaped pattern line")
  else if negb (ValueFormat_eqb (Header.value_type header) PATTERN)
          && negb (size tokens =? 3) then
    Throw (invalid_argument "Bad Matrix: ill-shaped value line")
  else
  let '(tok, tokens) := pop tokens in
  let row := parse_int tok in
  let '(tok, tokens) := pop tokens in
  let col := parse_int tok in
  let value :=
    if ValueFormat_eqb (Header.value_type header) PATTERN then value_one
    else parse_num (fst (pop tokens)) in
  if (row <? 1) || (row >? Header.num_rows header) then
    Throw (invalid_argument "Bad Matrix: row out of bounds")
  else if (col <? 1) || (col >? Header.num_cols header) then
    Throw (invalid_argument "Bad Matrix: col out of bounds")
  else
  (* Fix the 1-indexing *)
  let row := to_coord (row - 1) in
  let col := to_coord (col - 1) in
  let nonzeros := nonzeros ++ [Nonzero.mk row col value] in
  if SymmetryType_eqb (Header.symmetry header) SYMMETRIC && negb (row =? col) then
    Ok (nonzeros ++ [Nonzero.mk col row value])
  else Ok nonzeros.

(** [for (CoordType i = 0; i < header.num_nonzeros; i++)]: [n] is the
    number of iterations left.  The counter stays below [num_nonzeros], so
    it never overflows, and the loop runs [num_nonzeros] times (not at
    all when that number is not positive).  [line] is a fresh empty string
    in every iteration. *)
Fixpoint read_nonzeros (n : nat) (header : Header.t) (infile : istream)
    (nonzeros : list Nonzero) : outcome (list Nonzero * istream) :=
  match n with
  | O => Ok (nonzeros, infile)
  | S n' =>
      let '(infile, line) := getline infile EmptyString newline in
      nonzeros <- read_data_line header line nonzeros ;;
      read_nonzeros n' header infile nonzeros
  end.

(** The common first part of [read_csr] and [read_csc] (the two bodies are
    the same text up to the call of [std::sort]): open the file, read the
    header, read the entries.  [file] is what opening [filename] gives:
    [None] when the file cannot be opened, its contents otherwise.  The
    stream is returned as the last iteration leaves it. *)
Definition read_coo (file : option string)
    : outcome (Header.t * list Nonzero * istream) :=
  match file with
  | None => Throw (new_invalid_argument "Could not open file for reading")
  | Some contents =>
      '(header, infile) <- read_header (open contents) ;;
      '(nonzeros, infile) <-
         read_nonzeros (Z.to_nat (Header.num_nonzeros header)) header infile [] ;;
      Ok (header, nonzeros, infile)
  end.

(** ** The comparators given to [std::sort] *)

(** [std::tie(a.row, a.col) < std::tie(b.row, b.col)] *)
Definition row_major_less (a b : Nonzero) : bool :=
  (Nonzero.row a <? Nonzero.row b)
  || (negb (Nonzero.row b <? Nonzero.row a) && (Nonzero.col a <? Nonzero.col b)).

(** [std::tie(a.col, a.row) < std::tie(b.col, b.row)] *)
Definition col_major_less (a b : Nonzero) : bool :=
  (Nonzero.col a <? Nonzero.col b)
  || (negb (Nonzero.col b <? Nonzero.col a) && (Nonzero.row a <? Nonzero.row b)).

(** ** Compression *)

(** [while (current < bound) { offsets.push_back(size); ++current; }]
    where [size] is [static_cast<CoordType>(indices.size())], which does
    not change while the loop runs. *)
Fixpoint push_offsets (fuel : nat) (current bound : Z) (offsets : list Z) (size : Z)
    : Z * list Z :=
  match fuel with
  | O => (current, offsets)
  | S fuel' =>
      if current <? bound
      then push_offsets fuel' (to_coord (current + 1)) bound (offsets ++ [size]) size
      else (current, offsets)
  end.

(** The loop leaves when [bound - current] iterations are done (lemma
    [advance_exit]). *)
Definition advance (current bound : Z) (offsets : list Z) (size : Z) : Z * list Z :=
  push_offsets (Z.to_nat (bound - current)) current bound offsets size.

Section Compress.
(** [read_csr] and [read_csc] have the same compression code with the
    roles of [row] and [col] exchanged: [major] is [row] in [read_csr] and
    [col] in [read_csc]. *)
Variables major minor : Nonzero -> Z.

(** [for (const auto& nz : nonzeros) { ... }] *)
Fixpoint compress_loop (nonzeros : list Nonzero) (current : Z)
    (offsets indices : list Z) (values : list value_t)
    : Z * list Z * list Z * list value_t :=
  match nonzeros with
  | [] => (current, offsets, indices, values)
  | nz :: rest =>
      let '(current, offsets) :=
        advance current (major nz) offsets (to_coord (Z.of_nat (List.length indices))) in
      compress_loop rest current offsets (indices ++ [minor nz]) (values ++ [Nonzero.value nz])
  end.

(** From [offsets.push_back(0)] to the end of the last [while]. *)
Definition compress (dimension : Z) (nonzeros : list Nonzero)
    : list Z * list Z * list value_t :=
  let '(current, offsets, indices, values) := compress_loop nonzeros 0 [0] [] [] in
  let '(_, offsets) :=
    advance current dimension offsets (to_coord (Z.of_nat (List.length indices))) in
  (offsets, indices, values).

End Compress.

(** ** The two entry points *)

Definition read_csr (file : option string) : outcome CSR :=
  '(header, nonzeros, _) <- read_coo file ;;
  let nonzeros := std_sort row_major_less nonzeros in
  let '(row_offsets, col_indices, values) :=
    compress Nonzero.row Nonzero.col (Header.num_rows header) nonzeros in
  Ok (CSRMatrix.mk (Header.num_rows header) (Header.num_cols header)
        (to_coord (Z.of_nat (List.length values)))
        row_offsets col_indices values).

Definition read_csc (file : option string) : outcome CSC :=
  '(header, nonzeros, _) <- read_coo file ;;
  let nonzeros := std_sort col_major_less nonzeros in
  let '(col_offsets, row_indices, values) :=
    compress Nonzero.col Nonzero.row (Header.num_cols header) nonzeros in
  Ok (CSCMatrix.mk (Header.num_rows header) (Header.num_cols header)
        (to_coord (Z.of_nat (List.length values)))
        col_offsets row_indices values).

End Decoder.

(* ================================================================== *)
(** * The assertions of [Tokens]

    [pop] asserts that the deque is not empty before it takes its front.
    The functions that call it are written once more with the assertion
    made explicit: [None] is a failed assertion (undefined behaviour when
    assertions are compiled out). *)

(** [assert(!tokens.empty()); auto token = tokens.front();
     tokens.pop_front(); return token;] *)
Definition pop_asserting (tokens : list string) : option (string * list string) :=
  match tokens with
  | [] => None
  | t :: rest => Some (t, rest)
  end.

(** A step that may fail an assertion, then the steps after it. *)
Notation "' p <-! m ;; k" :=
  (match m with Some p => k | None => None end)
  (at level 61, p pattern, m at next level, right associativity).

Section Asserting.
Context {CT : CoordType} {VT : ValueType}.
Abbreviation Nonzero := (Nonzero.t value_t).

(** [read_header], from the first [std::getline] to the [return].  (Its
    own assertion, [f.is_open()], holds at both call sites: [read_csr] and
    [read_csc] have thrown by then if the file could not be opened.) *)
Definition read_header_asserting (f : istream) : option (outcome (Header.t * istream)) :=
  let '(f, line) := getline f EmptyString newline in
  let format_tokens := Tokens line space in
  if negb (size format_tokens =? 5) then
    Some (Throw (invalid_argument "Bad Header: ill-shaped format line"))
  else
  '(tok, format_tokens) <-! pop_asserting format_tokens ;;
  if negb (String.eqb tok "%%MatrixMarket") then
    Some (Throw (invalid_argument "Bad Header: missing %%%%MatrixMarket"))
  else
  '(tok, format_tokens) <-! pop_asserting format_tokens ;;
  if negb (String.eqb tok "matrix") then
    Some (Throw (invalid_argument "Bad Header: only matrix supported"))
  else
  '(tok, format_tokens) <-! pop_asserting format_tokens ;;
  if negb (String.eqb tok "coordinate") then
    Some (Throw (invalid_argument "Bad Header: only coordinate supported"))
  else
  '(tok, format_tokens) <-! pop_asserting format_tokens ;;
  match parse_value_fmt tok with
  | Throw e => Some (Throw e)
  | Hang => Some Hang
  | Ok value_fmt =>
  '(tok, format_tokens) <-! pop_asserting format_tokens ;;
  match parse_symmetry tok with
  | Throw e => Some (Throw e)
  | Hang => Some Hang
  | Ok symmetry =>
  match skip_comments (skip_comments_fuel f) f line with
  | None => Some Hang
  | Some (f, line) =>
      let mtx_size_tokens := Tokens line space in
      if negb (size mtx_size_tokens =? 3) then
        Some (Throw (invalid_argument "Bad Header: missing matrix size"))
      else
      '(tok, mtx_size_tokens) <-! pop_asserting mtx_size_tokens ;;
      let num_rows := parse_int tok in
      '(tok, mtx_size_tokens) <-! pop_asserting mtx_size_tokens ;;
      let num_cols := parse_int tok in
      '(tok, mtx_size_tokens) <-! pop_asserting mtx_size_tokens ;;
      let num_nonzeros := parse_int tok in
      Some (Ok (Header.mk symmetry value_fmt num_rows num_cols num_nonzeros, f))
  end end end.

(** The body of the reading loop of [read_csr] and [read_csc], as in
    [read_data_line].  The third [pop] is in the branch of the conditional
    operator that is evaluated only when the file is not a pattern
    file. *)
Definition read_data_line_asserting (header : Header.t) (line : string)
    (nonzeros : list Nonzero) : option (outcome (list Nonzero)) :=
  let tokens := Tokens line space in
  if ValueFormat_eqb (Header.value_type header) PATTERN && negb (size tokens =? 2) then
    Some (Throw (invalid_argument "Bad Matrix: ill-shaped pattern line"))
  else if negb (ValueFormat_eqb (Header.value_type header) PATTERN)
          && negb (size tokens =? 3) then
    Some (Throw (invalid_argument "Bad Matrix: ill-shaped value line"))
  else
  '(tok, tokens) <-! pop_asserting tokens ;;
  let row := parse_int tok in
  '(tok, tokens) <-! pop_asserting tokens ;;
  let col := parse_int tok in
  '(value, tokens) <-!
    (if ValueFormat_eqb (Header.value_type header) PATTERN then Some (value_one, tokens)
     else '(tok, tokens) <-! pop_asserting tokens ;; Some (parse_num tok, tokens)) ;;
  if (row <? 1) || (row >? Header.num_rows header) then
    Some (Throw (invalid_argument "Bad Matrix: row out of bounds"))
  else if (col <? 1) || (col >? Header.num_cols header) then
    Some (Throw (invalid_argument "Bad Matrix: col out of bounds"))
  else
  let row := to_coord (row - 1) in
  let col := to_coord (col - 1) in
  let nonzeros := nonzeros ++ [Nonzero.mk row col value] in
  if SymmetryType_eqb (Header.symmetry header) SYMMETRIC && negb (row =? col) then
    Some (Ok (nonzeros ++ [Nonzero.mk col row value]))
  else Some (Ok nonzeros).

End Asserting.

(* ================================================================== *)
(** * Two implementations of the [std::sort] contract *)

Section InsertionSorts.
Context {A : Type}.

(** [x] is placed in front of the first element [y] with [before x y]. *)
Fixpoint insert_by (before : A -> A -> bool) (x : A) (l : list A) : list A :=
  match l with
  | [] => [x]
  | y :: l' => if before x y then x :: l else y :: insert_by before x l'
  end.

Fixpoint sort_by (before : A -> A -> bool) (l : list A) : list A :=
  match l with
  | [] => []
  | x :: l' => insert_by before x (sort_by before l')
  end.

(** Equivalent elements keep their order... *)
Definition stable_insertion_sort (comp : A -> A -> bool) : list A -> list A :=
  sort_by (fun x y => negb (comp y x)).

(** ... or come out in the opposite order. *)
Definition reversing_insertion_sort (comp : A -> A -> bool) : list A -> list A :=
  sort_by (fun x y => comp x y).

End InsertionSorts.

(** ** Both meet the contract *)

Section InsertionSortFacts.
Context {A : Type}.

Lemma insert_by_perm (before : A -> A -> bool) (x : A) (l : list A) :
  Permutation (x :: l) (insert_by before x l).
Proof.
  induction l as [|y l IH]; simpl; [reflexivity|].
  destruct (before x y); [reflexivity|].
  rewrite perm_swap. now constructor.
Qed.

Lemma sort_by_perm (before : A -> A -> bool) (l : list A) :
  Permutation l (sort_by before l).
Proof.
  induction l as [|x l IH]; simpl; [constructor|].
  rewrite <- insert_by_perm. now constructor.
Qed.

(** Inserting keeps the list ordered as soon as [before x y] puts [x] in
    front of [y] only when nothing from [y] on is less than [x], and
    behind [y] only when [x] is not less than [y]. *)
Lemma insert_by_sorted (comp before : A -> A -> bool) (x : A) (l : list A) :
  (forall y, before x y = true ->
     comp y x = false /\ forall z, comp z y = false -> comp z x = false) ->
  (forall y, before x y = false -> comp x y = false) ->
  sorted_by comp l -> sorted_by comp (insert_by before x l).
Proof.
  intros Hfront Hback. unfold sorted_by.
  induction 1 as [|y l Hs IH Hy]; simpl.
  - repeat constructor.
  - destruct (before x y) eqn:Hb.
    + destruct (Hfront y Hb) as [Hyx Hz]. constructor.
      * now constructor.
      * constructor; [exact Hyx|]. eapply Forall_impl; [|exact Hy]. exact Hz.
    + constructor; [exact IH|].
      eapply Permutation_Forall; [apply insert_by_perm|].
      constructor; [now apply Hback|exact Hy].
Qed.

Lemma sort_by_sorted (comp before : A -> A -> bool) (l : list A) :
  (forall x y, before x y = true ->
     comp y x = false /\ forall z, comp z y = false -> comp z x = false) ->
  (forall x y, before x y = false -> comp x y = false) ->
  sorted_by comp (sort_by before l).
Proof.
  intros Hfront Hback. induction l as [|x l IH]; simpl; [constructor|].
  apply insert_by_sorted; auto.
Qed.

Lemma swo_asym (comp : A -> A -> bool) (a b : A) :
  strict_weak_order comp -> comp a b = true -> comp b a = false.
Proof.
  intros Hc Hab. destruct (comp b a) eqn:Hba; [|reflexivity].
  rewrite <- (swo_irrefl comp Hc a). symmetry. exact (swo_trans comp Hc a b a Hab Hba).
Qed.

Lemma stable_insertion_sort_sorted (comp : A -> A -> bool) (l : list A) :
  strict_weak_order comp -> sorted_by comp (stable_insertion_sort comp l).
Proof.
  intros Hc. apply sort_by_sorted.
  - intros x y Hb. apply negb_true_iff in Hb. split; [exact Hb|].
    intros z Hz. exact (swo_negtrans comp Hc z y x Hz Hb).
  - intros x y Hb. apply negb_false_iff in Hb. now apply swo_asym.
Qed.

Lemma reversing_insertion_sort_sorted (comp : A -> A -> bool) (l : list A) :
  strict_weak_order comp -> sorted_by comp (reversing_insertion_sort comp l).
Proof.
  intros Hc. apply sort_by_sorted.
  - intros x y Hb. split; [now apply swo_asym|].
    intros z Hz. destruct (comp z x) eqn:Hzx; [|reflexivity].
    rewrite <- Hz. symmetry. exact (swo_trans comp Hc z x y Hzx Hb).
  - intros x y Hb. exact Hb.
Qed.

End InsertionSortFacts.

(** An implementation that keeps equivalent elements in their order... *)
Definition stable_sort (A : Type) : StdSort A :=
  {| std_sort := stable_insertion_sort;
     std_sort_perm := fun comp l => sort_by_perm _ l;
     std_sort_sorted := stable_insertion_sort_sorted |}.

(** ... and one that does not.  Both are what [std::sort] may be. *)
Definition reversing_sort (A : Type) : StdSort A :=
  {| std_sort := reversing_insertion_sort;
     std_sort_perm := fun comp l => sort_by_perm _ l;
     std_sort_sorted := reversing_insertion_sort_sorted |}.

(* ================================================================== *)
(** * [std::sort] in the GNU library

    The makefiles of the repository build with [g++], whose library
    implements [std::sort] in [bits/stl_algo.h] and [bits/stl_heap.h]: a
    quicksort on the median of three elements that leaves ranges of at
    most 16 elements alone and turns to a heap sort when it has divided
    too often, then one insertion sort over the whole range.  The vector
    is a list and an iterator is an index in it.  The library relies on
    the comparator to stop some of its loops ("unguarded"): a step that
    reads or writes outside the vector is [None] (undefined behaviour). *)

Section GnuSort.
Context {A : Type}.
Variable comp : A -> A -> bool.
Local Open Scope nat_scope.

(** [*i = x] *)
Fixpoint assign (v : list A) (i : nat) (x : A) : option (list A) :=
  match v, i with
  | [], _ => None
  | _ :: v', O => Some (x :: v')
  | y :: v', S i' => ' v' <-! assign v' i' x ;; Some (y :: v')
  end.

(** [__comp(a, b)] on two iterators: [comp] on the elements they point
    to. *)
Definition iter_comp_iter (v : list A) (a b : nat) : option bool :=
  ' x <-! nth_error v a ;; ' y <-! nth_error v b ;; Some (comp x y).

(** [std::iter_swap(a, b)] *)
Definition iter_swap (v : list A) (a b : nat) : option (list A) :=
  ' x <-! nth_error v a ;; ' y <-! nth_error v b ;;
  ' v <-! assign v a y ;; assign v b x.

Definition __move_median_to_first (v : list A) (result a b c : nat) : option (list A) :=
  ' ab <-! iter_comp_iter v a b ;;
  if ab then
    ' bc <-! iter_comp_iter v b c ;;
    if bc then iter_swap v result b
    else
      ' ac <-! iter_comp_iter v a c ;;
      if ac then iter_swap v result c else iter_swap v result a
  else
    ' ac <-! iter_comp_iter v a c ;;
    if ac then iter_swap v result a
    else
      ' bc <-! iter_comp_iter v b c ;;
      if bc then iter_swap v result c else iter_swap v result b.

(** ** Insertion sort *)

(** [__unguarded_linear_insert] from its [while] on, [next] being
    [last - 1]: nothing keeps [next] from leaving the vector at its
    front. *)
Fixpoint linear_insert_loop (v : list A) (last : nat) (val : A) : option (list A) :=
  match last with
  | O => None
  | S next =>
      ' y <-! nth_error v next ;;
      if comp val y then
        ' v <-! assign v last y ;;
        linear_insert_loop v next val
      else assign v last val
  end.

Definition __unguarded_linear_insert (v : list A) (last : nat) : option (list A) :=
  ' val <-! nth_error v last ;;
  linear_insert_loop v last val.

(** [std::move_backward(first, last, d_last)], [n] being [last - first]:
    the elements are moved one by one, the last one first. *)
Fixpoint move_backward (n : nat) (v : list A) (last d_last : nat) : option (list A) :=
  match n, last, d_last with
  | O, _, _ => Some v
  | S n', S last', S d_last' =>
      ' x <-! nth_error v last' ;;
      ' v <-! assign v d_last' x ;;
      move_backward n' v last' d_last'
  | _, _, _ => None
  end.

(** The [for] loop of [__insertion_sort] from the value [i] on, with [n]
    iterations left ([last - i]). *)
Fixpoint insertion_sort_loop (n : nat) (v : list A) (first i : nat) : option (list A) :=
  match n with
  | O => Some v
  | S n' =>
      ' less <-! iter_comp_iter v i first ;;
      ' v <-! (if less then
                 ' val <-! nth_error v i ;;
                 ' v <-! move_backward (i - first) v i (i + 1) ;;
                 assign v first val
               else __unguarded_linear_insert v i) ;;
      insertion_sort_loop n' v first (i + 1)
  end.

Definition __insertion_sort (v : list A) (first last : nat) : option (list A) :=
  if first =? last then Some v
  else insertion_sort_loop (last - (first + 1)) v first (first + 1).

(** The [for] loop of [__unguarded_insertion_sort] from the value [i]
    on, with [n] iterations left. *)
Fixpoint unguarded_insertion_sort_loop (n : nat) (v : list A) (i : nat) : option (list A) :=
  match n with
  | O => Some v
  | S n' =>
      ' v <-! __unguarded_linear_insert v i ;;
      unguarded_insertion_sort_loop n' v (i + 1)
  end.

Definition __unguarded_insertion_sort (v : list A) (first last : nat) : option (list A) :=
  unguarded_insertion_sort_loop (last - first) v first.

Definition _S_threshold : nat := 16.

Definition __final_insertion_sort (v : list A) (first last : nat) : option (list A) :=
  if _S_threshold <? last - first then
    ' v <-! __insertion_sort v first (first + _S_threshold) ;;
    __unguarded_insertion_sort v (first + _S_threshold) last
  else __insertion_sort v first last.

(** ** Partition *)

(** [while (__comp(__first, __pivot)) ++__first;]  Every iteration reads
    one element further: after [n] of them, [n] being the number of
    elements from [first] to the end of the vector, the next one reads
    outside. *)
Fixpoint scan_up (n : nat) (v : list A) (first pivot : nat) : option nat :=
  match n with
  | O => None
  | S n' =>
      ' less <-! iter_comp_iter v first pivot ;;
      if less then scan_up n' v (first + 1) pivot else Some first
  end.

(** [while (__comp(__pivot, __last)) --__last;] *)
Fixpoint scan_down (v : list A) (pivot last : nat) : option nat :=
  ' less <-! iter_comp_iter v pivot last ;;
  if less then
    match last with
    | O => None
    | S last' => scan_down v pivot last'
    end
  else Some last.

(** [while (true) { ... }]: [last] decreases in every iteration, so that
    there are at most [last] of them. *)
Fixpoint unguarded_partition_loop (n : nat) (v : list A) (first last pivot : nat)
    : option (list A * nat) :=
  match n with
  | O => None
  | S n' =>
      ' first <-! scan_up (List.length v - first) v first pivot ;;
      match last with
      | O => None
      | S last =>
          ' last <-! scan_down v pivot last ;;
          if negb (first <? last) then Some (v, first)
          else
            ' v <-! iter_swap v first last ;;
            unguarded_partition_loop n' v (first + 1) last pivot
      end
  end.

Definition __unguarded_partition (v : list A) (first last pivot : nat)
    : option (list A * nat) :=
  unguarded_partition_loop last v first last pivot.

Definition __unguarded_partition_pivot (v : list A) (first last : nat)
    : option (list A * nat) :=
  let mid := first + (last - first) / 2 in
  ' v <-! __move_median_to_first v first (first + 1) mid (last - 1) ;;
  __unguarded_partition v (first + 1) last first.

(** ** Heap sort *)

(** [__push_heap] from its [while] on; [holeIndex] decreases in every
    iteration, so that there are at most [holeIndex] of them. *)
Fixpoint push_heap_loop (n : nat) (v : list A) (first holeIndex topIndex : nat) (value : A)
    : option (list A) :=
  let parent := (holeIndex - 1) / 2 in
  if topIndex <? holeIndex then
    ' p <-! nth_error v (first + parent) ;;
    if comp p value then
      match n with
      | O => None
      | S n' =>
          ' v <-! assign v (first + holeIndex) p ;;
          push_heap_loop n' v first parent topIndex value
      end
    else assign v (first + holeIndex) value
  else assign v (first + holeIndex) value.

Definition __push_heap (v : list A) (first holeIndex topIndex : nat) (value : A)
    : option (list A) :=
  push_heap_loop holeIndex v first holeIndex topIndex value.

(** The [while] loop of [__adjust_heap]; [secondChild] increases in
    every iteration and stays below [len].  (The distances of the library
    are signed: [(len - 1) / 2] and, in [__push_heap],
    [(holeIndex - 1) / 2] are 0 when the dividend is -1, as they are for
    natural numbers.) *)
Fixpoint adjust_heap_loop (n : nat) (v : list A) (first holeIndex secondChild len : nat)
    : option (list A * nat * nat) :=
  if secondChild <? (len - 1) / 2 then
    match n with
    | O => None
    | S n' =>
        let secondChild := 2 * (secondChild + 1) in
        ' less <-! iter_comp_iter v (first + secondChild) (first + (secondChild - 1)) ;;
        let secondChild := if less then secondChild - 1 else secondChild in
        ' c <-! nth_error v (first + secondChild) ;;
        ' v <-! assign v (first + holeIndex) c ;;
        adjust_heap_loop n' v first secondChild secondChild len
    end
  else Some (v, holeIndex, secondChild).

Definition __adjust_heap (v : list A) (first holeIndex len : nat) (value : A)
    : option (list A) :=
  let topIndex := holeIndex in
  ' (v, holeIndex, secondChild) <-! adjust_heap_loop len v first holeIndex holeIndex len ;;
  ' (v, holeIndex) <-!
      (if Nat.even len && (Z.of_nat secondChild =? Z.quot (Z.of_nat len - 2) 2)%Z then
         let secondChild := 2 * (secondChild + 1) in
         ' c <-! nth_error v (first + (secondChild - 1)) ;;
         ' v <-! assign v (first + holeIndex) c ;;
         Some (v, secondChild - 1)
       else Some (v, holeIndex)) ;;
  __push_heap v first holeIndex topIndex value.

Definition __pop_heap (v : list A) (first last result : nat) : option (list A) :=
  ' value <-! nth_error v result ;;
  ' top <-! nth_error v first ;;
  ' v <-! assign v result top ;;
  __adjust_heap v first 0 (last - first) value.

(** The [while (true)] loop of [__make_heap] from the value [parent] on. *)
Fixpoint make_heap_loop (v : list A) (first len parent : nat) : option (list A) :=
  ' value <-! nth_error v (first + parent) ;;
  ' v <-! __adjust_heap v first parent len value ;;
  match parent with
  | O => Some v
  | S parent' => make_heap_loop v first len parent'
  end.

Definition __make_heap (v : list A) (first last : nat) : option (list A) :=
  if last - first <? 2 then Some v
  else
    let len := last - first in
    make_heap_loop v first len ((len - 2) / 2).

(** The [for] loop of [__heap_select] from the value [i] on, with [n]
    iterations left. *)
Fixpoint heap_select_loop (n : nat) (v : list A) (first middle i : nat) : option (list A) :=
  match n with
  | O => Some v
  | S n' =>
      ' less <-! iter_comp_iter v i first ;;
      ' v <-! (if less then __pop_heap v first middle i else Some v) ;;
      heap_select_loop n' v first middle (i + 1)
  end.

Definition __heap_select (v : list A) (first middle last : nat) : option (list A) :=
  ' v <-! __make_heap v first middle ;;
  heap_select_loop (last - middle) v first middle middle.

(** [while (__last - __first > 1) { --__last; __pop_heap(...); }], [n]
    being [last - first]. *)
Fixpoint sort_heap_loop (n : nat) (v : list A) (first : nat) : option (list A) :=
  match n with
  | S (S _ as n') =>
      ' v <-! __pop_heap v first (first + n') (first + n') ;;
      sort_heap_loop n' v first
  | _ => Some v
  end.

Definition __sort_heap (v : list A) (first last : nat) : option (list A) :=
  sort_heap_loop (last - first) v first.

Definition __partial_sort (v : list A) (first middle last : nat) : option (list A) :=
  ' v <-! __heap_select v first middle last ;;
  __sort_heap v first middle.

(** ** The sort *)

(** [__depth_limit] is decremented in every iteration of the [while],
    and the recursive call gets the decremented value. *)
Fixpoint __introsort_loop (depth_limit : nat) (v : list A) (first last : nat)
    : option (list A) :=
  if _S_threshold <? last - first then
    match depth_limit with
    | O => __partial_sort v first last last
    | S depth_limit =>
        ' (v, cut) <-! __unguarded_partition_pivot v first last ;;
        ' v <-! __introsort_loop depth_limit v cut last ;;
        __introsort_loop depth_limit v first cut
    end
  else Some v.

Definition __sort (v : list A) (first last : nat) : option (list A) :=
  if negb (first =? last) then
    ' v <-! __introsort_loop (Nat.log2 (last - first) * 2) v first last ;;
    __final_insertion_sort v first last
  else Some v.

(** [std::sort(v.begin(), v.end(), comp)] *)
Definition sort (v : list A) : option (list A) := __sort v 0 (List.length v).

End GnuSort.

(** ** The library's sort meets the contract *)

Section GnuSortFacts.
Context {A : Type}.
Variable comp : A -> A -> bool.
Local Open Scope nat_scope.

(** *** Reading and writing elements *)

Lemma assign_Some (v : list A) : forall i x v',
  assign v i x = Some v' ->
  exists l1 y l2, v = l1 ++ y :: l2 /\ List.length l1 = i /\ v' = l1 ++ x :: l2.
Proof.
  induction v as [|a v IH]; intros i x v' H; [discriminate|].
  destruct i as [|i]; cbn [assign] in H.
  - injection H as <-. now exists [], a, v.
  - destruct (assign v i x) as [w|] eqn:Hw; [|discriminate]. injection H as <-.
    destruct (IH _ _ _ Hw) as [l1 [y [l2 [-> [<- ->]]]]]. now exists (a :: l1), y, l2.
Qed.

Lemma assign_app (l1 l2 : list A) (y x : A) :
  assign (l1 ++ y :: l2) (List.length l1) x = Some (l1 ++ x :: l2).
Proof. induction l1 as [|a l1 IH]; cbn [app List.length assign]; [reflexivity|now rewrite IH]. Qed.

Lemma nth_error_middle (l1 l2 : list A) (y : A) :
  nth_error (l1 ++ y :: l2) (List.length l1) = Some y.
Proof. rewrite nth_error_app2 by lia. now rewrite Nat.sub_diag. Qed.

Lemma assign_same (v : list A) (i : nat) (x : A) :
  nth_error v i = Some x -> assign v i x = Some v.
Proof.
  intros H. destruct (nth_error_split _ _ H) as [l1 [l2 [-> <-]]]. apply assign_app.
Qed.

Lemma assign_in_range (v : list A) (i : nat) (x y : A) :
  nth_error v i = Some y -> exists v', assign v i x = Some v'.
Proof.
  intros H. destruct (nth_error_split _ _ H) as [l1 [l2 [-> <-]]].
  eexists. apply assign_app.
Qed.

Lemma nth_error_assign (v v' : list A) (i j : nat) (x : A) :
  assign v i x = Some v' ->
  nth_error v' j = if j =? i then Some x else nth_error v j.
Proof.
  intros H. destruct (assign_Some _ _ _ _ H) as [l1 [y [l2 [-> [<- ->]]]]].
  destruct (Nat.eqb_spec j (List.length l1)) as [->|Hn]; [apply nth_error_middle|].
  destruct (Nat.lt_ge_cases j (List.length l1)).
  - now rewrite !nth_error_app1 by assumption.
  - rewrite !nth_error_app2 by assumption.
    destruct (j - List.length l1) as [|k] eqn:Hk; [lia|reflexivity].
Qed.

Lemma assign_perm (v v' : list A) (i : nat) (x y : A) :
  assign v i x = Some v' -> nth_error v i = Some y -> Permutation (x :: v) (y :: v').
Proof.
  intros H Hy. destruct (assign_Some _ _ _ _ H) as [l1 [z [l2 [-> [<- ->]]]]].
  rewrite nth_error_middle in Hy. injection Hy as ->.
  rewrite <- (Permutation_middle l1 l2 y), <- (Permutation_middle l1 l2 x). apply perm_swap.
Qed.

(** An element is taken out of the vector (it is [val]), which leaves a
    hole at [h]; the element at [j] is moved into the hole, and the hole is
    now at [j].  Putting [val] into the hole gives the same elements
    before and after. *)
Lemma hole_step (v v1 w1 : list A) (h j : nat) (val y : A) :
  nth_error v j = Some y -> assign v h y = Some v1 -> assign v1 j val = Some w1 ->
  exists w, assign v h val = Some w /\ Permutation w w1.
Proof.
  intros Hy H1 Hw1.
  destruct (assign_Some _ _ _ _ H1) as [l1 [s [l2 [Hv [Hh _]]]]].
  assert (Hs : nth_error v h = Some s) by (subst v h; apply nth_error_middle).
  destruct (assign_in_range v h val s Hs) as [w Hw]. exists w. split; [exact Hw|].
  assert (Hy1 : nth_error v1 j = Some y).
  { rewrite (nth_error_assign _ _ _ j _ H1).
    destruct (Nat.eqb_spec j h); [reflexivity|exact Hy]. }
  pose proof (assign_perm _ _ _ _ _ H1 Hs) as P1.
  pose proof (assign_perm _ _ _ _ _ Hw Hs) as P2.
  pose proof (assign_perm _ _ _ _ _ Hw1 Hy1) as P3.
  apply (Permutation_cons_inv (a := y)), (Permutation_cons_inv (a := s)).
  transitivity (y :: s :: w); [apply perm_swap|].
  transitivity (y :: val :: v); [now apply perm_skip|].
  transitivity (val :: y :: v); [apply perm_swap|].
  transitivity (val :: s :: v1); [now apply perm_skip|].
  transitivity (s :: val :: v1); [apply perm_swap|].
  now apply perm_skip.
Qed.

Lemma iter_swap_perm (v v' : list A) (a b : nat) :
  iter_swap v a b = Some v' -> Permutation v v'.
Proof.
  unfold iter_swap. destruct (nth_error v a) as [x|] eqn:Hx; [|discriminate].
  destruct (nth_error v b) as [y|] eqn:Hy; [|discriminate].
  destruct (assign v a y) as [v1|] eqn:H1; [|discriminate]. intros H2.
  destruct (hole_step v v1 v' a b x y Hy H1 H2) as [w [Hw P]].
  rewrite (assign_same _ _ _ Hx) in Hw. now injection Hw as <-.
Qed.

Lemma move_median_to_first_perm (v v' : list A) (result a b c : nat) :
  __move_median_to_first comp v result a b c = Some v' -> Permutation v v'.
Proof.
  unfold __move_median_to_first.
  destruct (iter_comp_iter comp v a b) as [[|]|]; try discriminate;
    destruct (iter_comp_iter comp v b c) as [[|]|];
    destruct (iter_comp_iter comp v a c) as [[|]|]; try discriminate;
    apply iter_swap_perm.
Qed.

(** *** The loops end: more iterations than the bound change nothing *)

Lemma scan_up_fuel (v : list A) (pivot : nat) (n : nat) :
  forall first extra,
    List.length v - first <= n ->
    scan_up comp (n + extra) v first pivot = scan_up comp n v first pivot.
Proof.
  induction n as [|n IH]; intros first extra Hn.
  - destruct extra as [|extra]; [reflexivity|]. cbn [Nat.add scan_up].
    unfold iter_comp_iter. now rewrite (proj2 (nth_error_None v first)) by lia.
  - cbn [Nat.add scan_up]. destruct (iter_comp_iter comp v first pivot) as [[|]|];
      try reflexivity. apply IH. lia.
Qed.

Lemma scan_down_le (v : list A) (pivot : nat) :
  forall last last', scan_down comp v pivot last = Some last' -> last' <= last.
Proof.
  induction last as [|last IH]; intros last' H; cbn [scan_down] in H;
    destruct (iter_comp_iter comp v pivot _) as [[|]|]; try discriminate.
  - injection H as <-. lia.
  - specialize (IH _ H). lia.
  - injection H as <-. lia.
Qed.

Lemma unguarded_partition_loop_fuel (pivot : nat) (n : nat) :
  forall v first last extra,
    last <= n ->
    unguarded_partition_loop comp (n + extra) v first last pivot
    = unguarded_partition_loop comp n v first last pivot.
Proof.
  induction n as [|n IH]; intros v first last extra Hn.
  - destruct last; [|lia]. destruct extra as [|extra]; [reflexivity|].
    cbn [Nat.add unguarded_partition_loop]. now destruct (scan_up comp _ v first pivot).
  - cbn [Nat.add unguarded_partition_loop].
    destruct (scan_up comp _ v first pivot) as [first'|]; [|reflexivity].
    destruct last as [|last]; [reflexivity|].
    destruct (scan_down comp v pivot last) as [last'|] eqn:Hd; [|reflexivity].
    destruct (negb (first' <? last')); [reflexivity|].
    destruct (iter_swap v first' last') as [v1|]; [|reflexivity].
    apply IH. apply scan_down_le in Hd. lia.
Qed.

Lemma push_heap_loop_fuel (first topIndex : nat) (value : A) (n : nat) :
  forall v holeIndex extra,
    holeIndex <= n ->
    push_heap_loop comp (n + extra) v first holeIndex topIndex value
    = push_heap_loop comp n v first holeIndex topIndex value.
Proof.
  induction n as [|n IH]; intros v holeIndex extra Hn.
  - destruct holeIndex; [|lia]. now destruct extra.
  - cbn [Nat.add push_heap_loop]. destruct (topIndex <? holeIndex) eqn:Ht; [|reflexivity].
    destruct (nth_error v _) as [p|]; [|reflexivity].
    destruct (comp p value); [|reflexivity].
    destruct (assign v (first + holeIndex) p) as [v1|]; [|reflexivity].
    apply IH. apply Nat.ltb_lt in Ht.
    pose proof (Nat.Div0.div_le_upper_bound (holeIndex - 1) 2 n). lia.
Qed.

Lemma adjust_heap_loop_fuel (first len : nat) (n : nat) :
  forall v holeIndex secondChild extra,
    (len - 1) / 2 - secondChild <= n ->
    adjust_heap_loop comp (n + extra) v first holeIndex secondChild len
    = adjust_heap_loop comp n v first holeIndex secondChild len.
Proof.
  induction n as [|n IH]; intros v holeIndex secondChild extra Hn.
  - destruct extra as [|extra]; [reflexivity|]. cbn [Nat.add adjust_heap_loop].
    destruct (Nat.ltb_spec secondChild ((len - 1) / 2)); [lia|reflexivity].
  - cbn [Nat.add adjust_heap_loop].
    destruct (secondChild <? (len - 1) / 2); [|reflexivity]. cbv zeta.
    destruct (iter_comp_iter comp v _ _) as [less|]; [|reflexivity].
    destruct (nth_error v _) as [c|]; [|reflexivity].
    destruct (assign v (first + holeIndex) c) as [v1|]; [|reflexivity].
    apply IH. destruct less; lia.
Qed.

(** *** The partition and the heap keep the elements *)

Lemma unguarded_partition_loop_perm (n : nat) (pivot : nat) :
  forall v first last v' cut,
    unguarded_partition_loop comp n v first last pivot = Some (v', cut) ->
    Permutation v v'.
Proof.
  induction n as [|n IH]; intros v first last v' cut H; [discriminate|].
  cbn [unguarded_partition_loop] in H.
  destruct (scan_up comp _ v first pivot) as [first'|]; [|discriminate].
  destruct last as [|last]; [discriminate|].
  destruct (scan_down comp v pivot last) as [last'|]; [|discriminate].
  destruct (negb (first' <? last')).
  - injection H as <- _. reflexivity.
  - destruct (iter_swap v first' last') as [v1|] eqn:Hs; [|discriminate].
    rewrite (iter_swap_perm _ _ _ _ Hs). exact (IH _ _ _ _ _ H).
Qed.

Lemma unguarded_partition_pivot_perm (v v' : list A) (first last cut : nat) :
  __unguarded_partition_pivot comp v first last = Some (v', cut) -> Permutation v v'.
Proof.
  unfold __unguarded_partition_pivot, __unguarded_partition.
  destruct (__move_median_to_first comp v _ _ _ _) as [v1|] eqn:Hm; [|discriminate].
  intros H. rewrite (move_median_to_first_perm _ _ _ _ _ _ Hm).
  exact (unguarded_partition_loop_perm _ _ _ _ _ _ _ H).
Qed.

Lemma push_heap_loop_perm (n : nat) (first topIndex : nat) (value : A) :
  forall v holeIndex r,
    push_heap_loop comp n v first holeIndex topIndex value = Some r ->
    exists w, assign v (first + holeIndex) value = Some w /\ Permutation w r.
Proof.
  induction n as [|n IH]; intros v holeIndex r H; cbn [push_heap_loop] in H;
    (destruct (topIndex <? holeIndex); [|now exists r]);
    (destruct (nth_error v (first + (holeIndex - 1) / 2)) as [p|] eqn:Hp; [|discriminate]);
    (destruct (comp p value); [|now exists r]); [discriminate|].
  destruct (assign v (first + holeIndex) p) as [v1|] eqn:H1; [|discriminate].
  destruct (IH _ _ _ H) as [w1 [Hw1 P1]].
  destruct (hole_step _ _ _ _ _ value p Hp H1 Hw1) as [w [Hw P]].
  exists w. split; [exact Hw|]. now rewrite P.
Qed.

Lemma adjust_heap_loop_perm (n : nat) (first len : nat) (value : A) :
  forall v holeIndex secondChild v' holeIndex' secondChild' w',
    adjust_heap_loop comp n v first holeIndex secondChild len
    = Some (v', holeIndex', secondChild') ->
    assign v' (first + holeIndex') value = Some w' ->
    exists w, assign v (first + holeIndex) value = Some w /\ Permutation w w'.
Proof.
  induction n as [|n IH]; intros v holeIndex secondChild v' holeIndex' secondChild' w' H Hw';
    cbn [adjust_heap_loop] in H;
    (destruct (secondChild <? (len - 1) / 2);
     [|injection H as <- <- <-; now exists w']); [discriminate|].
  cbv zeta in H.
  destruct (iter_comp_iter comp v _ _) as [less|]; [|discriminate].
  set (child := if less then 2 * (secondChild + 1) - 1 else 2 * (secondChild + 1)) in *.
  destruct (nth_error v (first + child)) as [c|] eqn:Hc; [|discriminate].
  destruct (assign v (first + holeIndex) c) as [v1|] eqn:H1; [|discriminate].
  destruct (IH _ _ _ _ _ _ _ H Hw') as [w1 [Hw1 P1]].
  destruct (hole_step _ _ _ _ _ value c Hc H1 Hw1) as [w [Hw P]].
  exists w. split; [exact Hw|]. now rewrite P.
Qed.

Lemma adjust_heap_perm (v r : list A) (first holeIndex len : nat) (value : A) :
  __adjust_heap comp v first holeIndex len value = Some r ->
  exists w, assign v (first + holeIndex) value = Some w /\ Permutation w r.
Proof.
  unfold __adjust_heap.
  destruct (adjust_heap_loop comp len v first holeIndex holeIndex len)
    as [[[v1 hole1] child1]|] eqn:Hloop; [|discriminate].
  destruct (Nat.even len && (Z.of_nat child1 =? Z.quot (Z.of_nat len - 2) 2)%Z).
  - cbv zeta. destruct (nth_error v1 _) as [c|] eqn:Hc; [|discriminate].
    destruct (assign v1 (first + hole1) c) as [v2|] eqn:H2; [|discriminate].
    intros H. destruct (push_heap_loop_perm _ _ _ _ _ _ _ H) as [w2 [Hw2 P2]].
    destruct (hole_step _ _ _ _ _ value c Hc H2 Hw2) as [w1 [Hw1 P1]].
    destruct (adjust_heap_loop_perm _ _ _ value _ _ _ _ _ _ _ Hloop Hw1) as [w [Hw P]].
    exists w. split; [exact Hw|]. now rewrite P, P1.
  - intros H. destruct (push_heap_loop_perm _ _ _ _ _ _ _ H) as [w1 [Hw1 P1]].
    destruct (adjust_heap_loop_perm _ _ _ value _ _ _ _ _ _ _ Hloop Hw1) as [w [Hw P]].
    exists w. split; [exact Hw|]. now rewrite P.
Qed.

Lemma pop_heap_perm (v r : list A) (first last result : nat) :
  __pop_heap comp v first last result = Some r -> Permutation v r.
Proof.
  unfold __pop_heap. destruct (nth_error v result) as [value|] eqn:Hv; [|discriminate].
  destruct (nth_error v first) as [top|] eqn:Ht; [|discriminate].
  destruct (assign v result top) as [v1|] eqn:H1; [|discriminate].
  intros H. destruct (adjust_heap_perm _ _ _ _ _ _ H) as [w1 [Hw1 P1]].
  rewrite Nat.add_0_r in Hw1.
  destruct (hole_step _ _ _ _ _ value top Ht H1 Hw1) as [w [Hw P]].
  rewrite (assign_same _ _ _ Hv) in Hw. injection Hw as <-. now rewrite P.
Qed.

Lemma make_heap_loop_perm (first len : nat) (parent : nat) :
  forall v r, make_heap_loop comp v first len parent = Some r -> Permutation v r.
Proof.
  induction parent as [|parent IH]; intros v r H; cbn [make_heap_loop] in H;
    (destruct (nth_error v _) as [value|] eqn:Hv; [|discriminate]);
    (destruct (__adjust_heap comp v first _ len value) as [v1|] eqn:Ha; [|discriminate]);
    destruct (adjust_heap_perm _ _ _ _ _ _ Ha) as [w [Hw P]];
    rewrite (assign_same _ _ _ Hv) in Hw; injection Hw as <-.
  - injection H as <-. exact P.
  - rewrite P. now apply IH.
Qed.

Lemma make_heap_perm (v r : list A) (first last : nat) :
  __make_heap comp v first last = Some r -> Permutation v r.
Proof.
  unfold __make_heap. destruct (last - first <? 2).
  - intros H. now injection H as <-.
  - apply make_heap_loop_perm.
Qed.

Lemma heap_select_loop_perm (n : nat) (first middle : nat) :
  forall v i r, heap_select_loop comp n v first middle i = Some r -> Permutation v r.
Proof.
  induction n as [|n IH]; intros v i r H; cbn [heap_select_loop] in H.
  - now injection H as <-.
  - destruct (iter_comp_iter comp v i first) as [[|]|]; [| |discriminate].
    + destruct (__pop_heap comp v first middle i) as [v1|] eqn:Hp; [|discriminate].
      rewrite (pop_heap_perm _ _ _ _ _ Hp). now apply (IH _ _ _ H).
    + now apply (IH _ _ _ H).
Qed.

Lemma sort_heap_loop_perm (first : nat) (n : nat) :
  forall v r, sort_heap_loop comp n v first = Some r -> Permutation v r.
Proof.
  induction n as [|n IH]; intros v r H; cbn [sort_heap_loop] in H.
  - now injection H as <-.
  - destruct n as [|n]; [now injection H as <-|].
    destruct (__pop_heap comp v first _ _) as [v1|] eqn:Hp; [|discriminate].
    rewrite (pop_heap_perm _ _ _ _ _ Hp). now apply IH.
Qed.

Lemma partial_sort_perm (v r : list A) (first middle last : nat) :
  __partial_sort comp v first middle last = Some r -> Permutation v r.
Proof.
  unfold __partial_sort, __heap_select, __sort_heap.
  destruct (__make_heap comp v first middle) as [v1|] eqn:Hm; [|discriminate].
  destruct (heap_select_loop comp _ v1 first middle middle) as [v2|] eqn:Hs; [|discriminate].
  intros H. rewrite (make_heap_perm _ _ _ _ Hm), (heap_select_loop_perm _ _ _ _ _ _ Hs).
  exact (sort_heap_loop_perm _ _ _ _ H).
Qed.

Lemma introsort_loop_perm (depth_limit : nat) :
  forall v first last r,
    __introsort_loop comp depth_limit v first last = Some r -> Permutation v r.
Proof.
  induction depth_limit as [|d IH]; intros v first last r H; cbn [__introsort_loop] in H;
    (destruct (_S_threshold <? last - first); [|now injection H as <-]).
  - exact (partial_sort_perm _ _ _ _ _ H).
  - destruct (__unguarded_partition_pivot comp v first last) as [[v1 cut]|] eqn:Hp;
      [|discriminate].
    destruct (__introsort_loop comp d v1 cut last) as [v2|] eqn:H2; [|discriminate].
    rewrite (unguarded_partition_pivot_perm _ _ _ _ _ Hp), (IH _ _ _ _ H2).
    exact (IH _ _ _ _ H).
Qed.


(** *** The insertion sort over the whole vector *)

Lemma nth_error_last_but (a : list A) (z : A) (rest : list A) :
  nth_error ((a ++ [z]) ++ rest) (List.length a) = Some z.
Proof. rewrite <- app_assoc. apply nth_error_middle. Qed.

Lemma assign_behind (a : list A) (z y x : A) (rest : list A) :
  assign ((a ++ [z]) ++ y :: rest) (S (List.length a)) x = Some (a ++ z :: x :: rest).
Proof.
  replace (S (List.length a)) with (List.length (a ++ [z]))
    by (rewrite length_app, Nat.add_1_r; reflexivity).
  rewrite assign_app. now rewrite <- app_assoc.
Qed.

Lemma move_backward_shift (a : list A) :
  forall stale m,
    move_backward (List.length a) (a ++ stale :: m) (List.length a) (S (List.length a))
    = Some (hd stale a :: a ++ m).
Proof.
  induction a as [|z a IH] using rev_ind; intros stale m; [reflexivity|].
  rewrite length_app, Nat.add_1_r. cbn [move_backward].
  rewrite nth_error_last_but, assign_behind, IH.
  rewrite <- app_assoc. destruct a; reflexivity.
Qed.

Lemma linear_insert_loop_spec (a : list A) :
  forall stale m x r,
    linear_insert_loop comp (a ++ stale :: m) (List.length a) x = Some r ->
    exists a1 z a2,
      a = a1 ++ z :: a2 /\ comp x z = false
      /\ Forall (fun y => comp x y = true) a2
      /\ r = a1 ++ z :: x :: a2 ++ m.
Proof.
  induction a as [|z a IH] using rev_ind; intros stale m x r H; [discriminate|].
  rewrite length_app, Nat.add_1_r in H. cbn [linear_insert_loop] in H.
  rewrite nth_error_last_but, !assign_behind in H. destruct (comp x z) eqn:Hc.
  - destruct (IH _ _ _ _ H) as [a1 [z' [a2 [-> [Hz [Ha2 ->]]]]]].
    exists a1, z', (a2 ++ [z]). split; [now rewrite <- app_assoc|]. split; [exact Hz|].
    split; [apply Forall_app; split; [exact Ha2|now constructor]|].
    now rewrite <- app_assoc.
  - injection H as <-. exists a, z, []. split; [reflexivity|]. split; [exact Hc|].
    split; [constructor|reflexivity].
Qed.

Lemma unguarded_linear_insert_spec (a b : list A) (x : A) (r : list A) :
  __unguarded_linear_insert comp (a ++ x :: b) (List.length a) = Some r ->
  exists a1 z a2,
    a = a1 ++ z :: a2 /\ comp x z = false
    /\ Forall (fun y => comp x y = true) a2
    /\ r = a1 ++ z :: x :: a2 ++ b.
Proof.
  unfold __unguarded_linear_insert. rewrite nth_error_middle. apply linear_insert_loop_spec.
Qed.

Lemma unguarded_linear_insert_perm (a1 a2 : list A) (z x : A) :
  Permutation ((a1 ++ z :: a2) ++ [x]) (a1 ++ z :: x :: a2).
Proof.
  rewrite <- app_assoc. apply Permutation_app_head. cbn [app]. apply perm_skip.
  symmetry. apply Permutation_cons_append.
Qed.

Section Ordered.
Hypothesis comp_swo : strict_weak_order comp.

Lemma sorted_by_app (l1 l2 : list A) :
  sorted_by comp (l1 ++ l2)
  <-> sorted_by comp l1 /\ sorted_by comp l2
      /\ Forall (fun a => Forall (fun b => comp b a = false) l2) l1.
Proof.
  unfold sorted_by. induction l1 as [|a l1 IH]; cbn [app].
  - split; [intros H; repeat split; [constructor|exact H|constructor]|tauto].
  - split.
    + intros H. apply StronglySorted_inv in H as [H Ha]. apply IH in H as [H1 [H2 H3]].
      apply Forall_app in Ha as [Ha1 Ha2].
      split; [now constructor|]. split; [exact H2|]. now constructor.
    + intros [H1 [H2 H3]]. apply StronglySorted_inv in H1 as [H1 Ha].
      inversion H3 as [|? ? Ha2 H3']; subst. constructor.
      * apply IH. tauto.
      * apply Forall_app. tauto.
Qed.

Lemma sorted_push_front (x a0 : A) (a : list A) :
  sorted_by comp (a0 :: a) -> comp x a0 = true -> sorted_by comp (x :: a0 :: a).
Proof.
  intros Hs Hx. constructor; [exact Hs|].
  apply StronglySorted_inv in Hs as [_ Ha].
  constructor; [now apply swo_asym|].
  eapply Forall_impl; [|exact Ha]. intros b Hb. cbv beta in *.
  destruct (comp b x) eqn:Hbx; [|reflexivity].
  rewrite <- Hb. symmetry. exact (swo_trans comp comp_swo b x a0 Hbx Hx).
Qed.

Lemma sorted_insert (a1 a2 : list A) (z x : A) :
  sorted_by comp (a1 ++ z :: a2) -> comp x z = false ->
  Forall (fun y => comp x y = true) a2 ->
  sorted_by comp (a1 ++ z :: x :: a2).
Proof.
  intros Hs Hz Ha2. apply sorted_by_app in Hs as [H1 [H2 H3]].
  apply StronglySorted_inv in H2 as [H2 Hz2].
  apply sorted_by_app. split; [exact H1|]. split.
  - constructor.
    + constructor; [exact H2|]. eapply Forall_impl; [|exact Ha2].
      intros y Hy. now apply swo_asym.
    + constructor; [exact Hz|exact Hz2].
  - eapply Forall_impl; [|exact H3]. intros a Ha. cbv beta in *.
    inversion Ha as [|? ? Haz Ha']; subst. constructor; [exact Haz|].
    constructor; [|exact Ha'].
    exact (swo_negtrans comp comp_swo x z a Hz Haz).
Qed.

End Ordered.

Lemma insertion_sort_loop_spec (n : nat) :
  forall a b r,
    a <> [] ->
    insertion_sort_loop comp n (a ++ b) 0 (List.length a) = Some r ->
    exists a' b1 b2,
      b = b1 ++ b2 /\ List.length b1 = n /\ r = a' ++ b2
      /\ Permutation (a ++ b1) a'
      /\ (strict_weak_order comp -> sorted_by comp a -> sorted_by comp a').
Proof.
  induction n as [|n IH]; intros a b r Ha H; cbn [insertion_sort_loop] in H.
  - injection H as <-. exists a, [], b. rewrite app_nil_r. repeat split; auto.
  - unfold iter_comp_iter in H.
    destruct b as [|x b]; [now rewrite app_nil_r, (proj2 (nth_error_None a _)) in H by lia|].
    rewrite nth_error_middle in H. destruct a as [|a0 a]; [contradiction|].
    cbn [app nth_error] in H. fold (app a (x :: b)) in H.
    change (a0 :: a ++ x :: b) with ((a0 :: a) ++ x :: b) in H.
    rewrite Nat.sub_0_r, Nat.add_1_r in H.
    destruct (comp x a0) eqn:Hc.
    + rewrite move_backward_shift in H. cbn [hd assign] in H.
      change (x :: (a0 :: a) ++ b) with ((x :: a0 :: a) ++ b) in H.
      change (S (List.length (a0 :: a))) with (List.length (x :: a0 :: a)) in H.
      assert (Hne : x :: a0 :: a <> []) by discriminate.
      destruct (IH _ _ _ Hne H) as [a' [b1 [b2 [-> [Hl [-> [P S]]]]]]].
      exists a', (x :: b1), b2. split; [reflexivity|]. split; [cbn; now rewrite Hl|].
      split; [reflexivity|]. split.
      * rewrite <- P. symmetry. exact (Permutation_middle (a0 :: a) b1 x).
      * intros Hswo Hs. apply (S Hswo). now apply sorted_push_front.
    + destruct (__unguarded_linear_insert comp ((a0 :: a) ++ x :: b) _) as [v1|] eqn:Hu;
        [|discriminate].
      destruct (unguarded_linear_insert_spec _ _ _ _ Hu) as [a1 [z [a2 [Ea [Hz [Ha2 ->]]]]]].
      replace (a1 ++ z :: x :: a2 ++ b) with ((a1 ++ z :: x :: a2) ++ b) in H
        by (rewrite <- app_assoc; reflexivity).
      replace (S (List.length (a0 :: a))) with (List.length (a1 ++ z :: x :: a2)) in H
        by (rewrite Ea, !length_app; cbn; lia).
      assert (Hne : a1 ++ z :: x :: a2 <> []) by now destruct a1.
      destruct (IH _ _ _ Hne H) as [a' [b1 [b2 [-> [Hl [-> [P S]]]]]]].
      exists a', (x :: b1), b2. split; [reflexivity|]. split; [cbn; now rewrite Hl|].
      split; [reflexivity|]. split.
      * rewrite <- P, Ea. rewrite <- (unguarded_linear_insert_perm a1 a2 z x).
        rewrite <- !app_assoc. reflexivity.
      * intros Hswo Hs. apply (S Hswo). rewrite Ea in Hs. now apply sorted_insert.
Qed.

Lemma unguarded_insertion_sort_loop_spec (n : nat) :
  forall a b r,
    unguarded_insertion_sort_loop comp n (a ++ b) (List.length a) = Some r ->
    exists a' b1 b2,
      b = b1 ++ b2 /\ List.length b1 = n /\ r = a' ++ b2
      /\ Permutation (a ++ b1) a'
      /\ (strict_weak_order comp -> sorted_by comp a -> sorted_by comp a').
Proof.
  induction n as [|n IH]; intros a b r H; cbn [unguarded_insertion_sort_loop] in H.
  - injection H as <-. exists a, [], b. rewrite app_nil_r. repeat split; auto.
  - destruct b as [|x b].
    { unfold __unguarded_linear_insert in H.
      now rewrite app_nil_r, (proj2 (nth_error_None a _)) in H by lia. }
    destruct (__unguarded_linear_insert comp (a ++ x :: b) _) as [v1|] eqn:Hu; [|discriminate].
    destruct (unguarded_linear_insert_spec _ _ _ _ Hu) as [a1 [z [a2 [Ea [Hz [Ha2 ->]]]]]].
    replace (a1 ++ z :: x :: a2 ++ b) with ((a1 ++ z :: x :: a2) ++ b) in H
      by (rewrite <- app_assoc; reflexivity).
    replace (List.length a + 1) with (List.length (a1 ++ z :: x :: a2)) in H
      by (rewrite Ea, !length_app; cbn; lia).
    destruct (IH _ _ _ H) as [a' [b1 [b2 [-> [Hl [-> [P S]]]]]]].
    exists a', (x :: b1), b2. split; [reflexivity|]. split; [cbn; now rewrite Hl|].
    split; [reflexivity|]. split.
    + rewrite <- P, Ea. rewrite <- (unguarded_linear_insert_perm a1 a2 z x).
      rewrite <- !app_assoc. reflexivity.
    + intros Hswo Hs. apply (S Hswo). rewrite Ea in Hs. now apply sorted_insert.
Qed.


Lemma final_insertion_sort_spec (v r : list A) :
  __final_insertion_sort comp v 0 (List.length v) = Some r ->
  Permutation v r /\ (strict_weak_order comp -> sorted_by comp r).
Proof.
  unfold __final_insertion_sort, __insertion_sort, __unguarded_insertion_sort, _S_threshold.
  rewrite Nat.sub_0_r. destruct v as [|v0 v].
  - intros H. injection H as <-. split; [constructor|intros _; constructor].
  - assert (Hone : sorted_by comp [v0]) by (repeat constructor).
    assert (Hne : [v0] <> []) by discriminate.
    change (0 + 16) with 16. change (0 =? 16) with false. cbv iota.
    change (16 - (0 + 1)) with 15. change (0 + 1) with (List.length [v0]).
    change (0 =? List.length (v0 :: v)) with false. cbv iota.
    change (v0 :: v) with ([v0] ++ v).
    destruct (16 <? List.length ([v0] ++ v)) eqn:Hlen.
    + destruct (insertion_sort_loop comp 15 ([v0] ++ v) 0 (List.length [v0])) as [v1|] eqn:H1;
        [|discriminate].
      destruct (insertion_sort_loop_spec _ _ _ _ Hne H1)
        as [a' [b1 [b2 [Hv [Hl [-> [P S]]]]]]].
      assert (Ha' : List.length a' = 16).
      { rewrite <- (Permutation_length P), length_app, Hl. reflexivity. }
      rewrite <- Ha'. intros H2.
      destruct (unguarded_insertion_sort_loop_spec _ _ _ _ H2)
        as [a'' [c1 [c2 [Hb2 [Hc [-> [P' S']]]]]]].
      assert (Hc2 : c2 = []).
      { apply length_zero_iff_nil. apply Nat.ltb_lt in Hlen.
        assert (Hv' : List.length v = 15 + (List.length c1 + List.length c2))
          by (now rewrite Hv, Hb2, !length_app, Hl).
        rewrite length_app in Hc, Hlen. cbn [List.length] in Hc, Hlen. lia. }
      subst c2. rewrite app_nil_r in *. subst b2. split.
      * rewrite Hv, <- P', <- P, <- !app_assoc. reflexivity.
      * intros Hswo. apply (S' Hswo), (S Hswo), Hone.
    + intros H1.
      destruct (insertion_sort_loop_spec _ _ _ _ Hne H1)
        as [a' [b1 [b2 [Hv [Hl [-> [P S]]]]]]].
      assert (Hb2 : b2 = []).
      { apply length_zero_iff_nil. rewrite Hv, !length_app in Hl. cbn [List.length] in Hl. lia. }
      subst b2. rewrite app_nil_r in *. subst v. split; [exact P|].
      intros Hswo. apply (S Hswo), Hone.
Qed.

(** [std::sort] returns the elements it was given, and in order when the
    comparator is a strict weak ordering. *)
Lemma sort_spec (v r : list A) :
  sort comp v = Some r ->
  Permutation v r /\ (strict_weak_order comp -> sorted_by comp r).
Proof.
  unfold sort, __sort. rewrite Nat.sub_0_r.
  destruct v as [|v0 v]; cbn [List.length Nat.eqb negb].
  - intros H. injection H as <-. split; [constructor|intros _; constructor].
  - destruct (__introsort_loop comp _ (v0 :: v) 0 _) as [v1|] eqn:H1; [|discriminate].
    pose proof (introsort_loop_perm _ _ _ _ _ H1) as P1.
    change (S (List.length v)) with (List.length (v0 :: v)).
    rewrite (Permutation_length P1). intros H2.
    destruct (final_insertion_sort_spec _ _ H2) as [P2 S2]. split; [|exact S2].
    now rewrite P1.
Qed.

End GnuSortFacts.

(** [std::sort] of the GNU library as an implementation of the contract:
    the vector as the library leaves it.  (A run that leaves the vector
    has undefined behaviour, which allows any result: the elements
    sorted by insertion are taken then.  The library gives a strict weak
    ordering no occasion for it.) *)
Definition gnu_std_sort {A : Type} (comp : A -> A -> bool) (l : list A) : list A :=
  match sort comp l with
  | Some sorted => sorted
  | None => stable_insertion_sort comp l
  end.

Lemma gnu_std_sort_perm {A : Type} (comp : A -> A -> bool) (l : list A) :
  Permutation l (gnu_std_sort comp l).
Proof.
  unfold gnu_std_sort. destruct (sort comp l) as [r|] eqn:H.
  - apply (sort_spec comp _ _ H).
  - apply (@std_sort_perm _ (stable_sort A)).
Qed.

Lemma gnu_std_sort_sorted {A : Type} (comp : A -> A -> bool) (l : list A) :
  strict_weak_order comp -> sorted_by comp (gnu_std_sort comp l).
Proof.
  intros Hc. unfold gnu_std_sort. destruct (sort comp l) as [r|] eqn:H.
  - now apply (sort_spec comp _ _ H).
  - now apply (@std_sort_sorted _ (stable_sort A)).
Qed.

Definition gnu_sort (A : Type) : StdSort A :=
  {| std_sort := gnu_std_sort;
     std_sort_perm := gnu_std_sort_perm;
     std_sort_sorted := gnu_std_sort_sorted |}.

(* ================================================================== *)
(** * Instantiations used in the examples *)

(** [read_csr<unsigned int, T>] and the like; the value of an
    uninitialised integer is taken to be 0 in the examples. *)
Definition coord_unsigned_int : CoordType := {| coord_type := unsigned_int; indeterminate := 0 |}.
Definition coord_int : CoordType := {| coord_type := int; indeterminate := 0 |}.
Definition coord_short : CoordType := {| coord_type := short; indeterminate := 0 |}.
Definition value_int : ValueType := integral_value int 0.

(** [std::sort] in the examples: one that keeps equivalent elements in
    order, and one that does not. *)
Definition demo_sort : StdSort (Nonzero.t (@value_t value_int)) := stable_sort _.
Definition other_sort : StdSort (Nonzero.t (@value_t value_int)) := reversing_sort _.

(** [std::sort] of the GNU library in the examples. *)
Definition library_sort : StdSort (Nonzero.t (@value_t value_int)) := gnu_sort _.

Definition LF : string := String newline EmptyString.

(** A text file from its lines, each one ended by a line feed. *)
Fixpoint text (lines : list string) : string :=
  match lines with
  | [] => EmptyString
  | l :: ls => (l ++ LF ++ text ls)%string
  end.

(* ================================================================== *)
(** * The demonstration program

    [demo.cpp] decodes the file named on the command line with
    [MatrixMarket::read_csr<unsigned int, float>] and prints the size of
    the matrix.  (Its other version, which lists the entries, names
    [read_csr] without the namespace and is not a program a compiler
    accepts.)  A run is the sequence of the calls of [printf] and
    [fprintf(stderr, ...)] it makes, and the way it ends. *)

(** The coordinate type of the program.  [uninit] is the contents of the
    uninitialised local of [parse_int]. *)
Definition demo_coord (uninit : Z) : CoordType :=
  {| coord_type := unsigned_int; indeterminate := uninit |}.

(** How a run of [main] ends: [return code], [std::terminate] after an
    exception that nothing catches, a loop that never ends, or undefined
    behaviour (a null [argv[0]] given to [%s]). *)
Inductive status : Type :=
| Return (code : Z)
| Terminate (e : exception)
| Loop
| Undefined.

Section Events.
Context {VT : ValueType}.

(** The arguments of a call of [printf] after the format string. *)
Inductive arg : Type :=
| Str (s : string)
| Int (z : Z)
| Val (v : value_t).

(** A call of [printf] or of [fprintf(stderr, ...)]: the format string
    and the values of the arguments (how the C library renders them is
    not modelled). *)
Inductive event : Type :=
| printf (format : string) (args : list arg)
| fprintf_stderr (format : string) (args : list arg).

(** [if (argc != 2) { fprintf(stderr, ...); return 1; }] once [argc] is
    known not to be 2. *)
Definition usage (argv : list string) : list event * status :=
  match argv with
  | [] => ([], Undefined)
  | program :: _ =>
      ([fprintf_stderr ("Usage: %s <matrixmarket file>" ++ LF) [Str program]], Return 1)
  end.

End Events.

(** The program.  [files] is what opening a file name gives ([None] when
    the file cannot be opened) and [argv] the argument vector, [argc]
    being its length. *)
Module Summary.
Section Main.
Context {VT : ValueType} {sorter : StdSort (Nonzero.t value_t)}.
Variable uninit : Z.
Variable files : string -> option string.

Definition main (argv : list string) : list event * status :=
  if negb (Z.of_nat (List.length argv) =? 2) then usage argv
  else
    let out := [printf ("CSR:" ++ LF) []] in
    match @read_csr (demo_coord uninit) VT sorter (files (nth 1 argv EmptyString)) with
    | Throw e => (out, Terminate e)
    | Hang => (out, Loop)
    | Ok csr =>
        (out ++ [printf ("%u x %u, %u nnz" ++ LF)
                   [Int (CSRMatrix.num_rows csr); Int (CSRMatrix.num_cols csr);
                    Int (CSRMatrix.num_nonzeros csr)]],
         Return 0)
    end.

End Main.
End Summary.

(* ================================================================== *)
(** * Vocabulary of the specification *)

(** ** Strings, lines and ranges *)

(** A token that does not start with a number (after optional white space
    and one optional sign) but is not blank: the extracted value is 0. *)
Definition not_a_number (s : string) : bool :=
  match skipws s with
  | EmptyString => false
  | String c rest =>
      let body := if Ascii.eqb c "-"%char || Ascii.eqb c "+"%char then rest
                  else String c rest in
      match digit_prefix body with None => true | Some _ => false end
  end.

(** A plain decimal literal: digits from the first character on. *)
Definition literal_value (s : string) : option Z :=
  match s with
  | EmptyString => None
  | String c _ => if isspace c then None else digit_prefix s
  end.

(** The character does not occur in the string. *)
Fixpoint lacks (c : ascii) (s : string) : bool :=
  match s with
  | EmptyString => true
  | String c' s' => negb (Ascii.eqb c' c) && lacks c s'
  end.

(** The text of a single line. *)
Definition one_line (line : string) : Prop := lacks newline line = true.

(** The first line of a file, as [read_header] gets it. *)
Definition first_line (contents : string) : string :=
  snd (getline (open contents) EmptyString newline).

(** The format line is the banner, [matrix], [coordinate], a value format
    and a symmetry: five tokens. *)
Definition format_line_accepted (line : string) : Prop :=
  exists fmt sym,
    Tokens line space = ["%%MatrixMarket"; "matrix"; "coordinate"; fmt; sym]
    /\ In fmt ["real"; "integer"; "pattern"]
    /\ In sym ["general"; "symmetric"].

(** The enumerators named by the last two tokens of an accepted format
    line. *)
Definition value_format_of (fmt : string) : ValueFormat :=
  if String.eqb fmt "real" then REAL
  else if String.eqb fmt "integer" then INTEGER else PATTERN.

Definition symmetry_of (sym : string) : SymmetryType :=
  if String.eqb sym "general" then GENERAL else SYMMETRIC.

(** A comment line of the header. *)
Definition comment_line (line : string) : Prop :=
  starts_with_percent line = true /\ lacks newline line = true.

(** The text of a header: the format line, the comment lines and the
    dimension line, line feeds included. *)
Definition header_text (format_line : string) (comments : list string) (dims : string)
    : string :=
  (format_line ++ LF ++ text comments ++ dims ++ LF)%string.

(** [lo, lo + 1, ..., lo + n - 1] *)
Definition zrange (lo : Z) (n : nat) : list Z :=
  map (fun i => lo + Z.of_nat i) (seq 0 n).

(** The elements at the positions [lo, hi) of an array. *)
Definition slice {A : Type} (l : list A) (lo hi : Z) : list A :=
  firstn (Z.to_nat (hi - lo)) (skipn (Z.to_nat lo) l).

(** [offsets[m]] *)
Definition offset_at (offsets : list Z) (m : Z) : Z := nth (Z.to_nat m) offsets 0.

(** The tokens of a line put together again, the separator between
    them. *)
Fixpoint join (sep : ascii) (tokens : list string) : string :=
  match tokens with
  | [] => EmptyString
  | [t] => t
  | t :: ts => (t ++ String sep (join sep ts))%string
  end.

(** The last character of the string is [c]. *)
Fixpoint ends_with (c : ascii) (s : string) : bool :=
  match s with
  | EmptyString => false
  | String c' EmptyString => Ascii.eqb c' c
  | String _ s' => ends_with c s'
  end.

(** The string begins with a decimal digit. *)
Definition starts_with_digit (s : string) : bool :=
  match s with
  | EmptyString => false
  | String c _ => match digit_of c with Some _ => true | None => false end
  end.

(** What is left of a file after its last line feed, as a list of
    lines. *)
Definition unterminated (last : string) : list string :=
  match last with
  | EmptyString => []
  | _ => [last]
  end.

(** The carriage return that precedes the line feed in a file with
    Windows line endings. *)
Definition carriage_return : ascii := "013"%char.

(** Two lines that differ by the exchange of their first two tokens. *)
Definition swapped (line line' : string) : Prop :=
  exists a b rest,
    Tokens line space = a :: b :: rest /\ Tokens line' space = b :: a :: rest.

(** The lexicographic order of pairs of integers. *)
Definition pair_le (p q : Z * Z) : Prop :=
  fst p < fst q \/ (fst p = fst q /\ snd p <= snd q).

(** The checks of [read_header] on the format line. *)
Definition check_format_line (line : string) : outcome (ValueFormat * SymmetryType) :=
  let format_tokens := Tokens line space in
  if negb (size format_tokens =? 5) then
    Throw (invalid_argument "Bad Header: ill-shaped format line")
  else
  let '(tok, format_tokens) := pop format_tokens in
  if negb (String.eqb tok "%%MatrixMarket") then
    Throw (invalid_argument "Bad Header: missing %%%%MatrixMarket")
  else
  let '(tok, format_tokens) := pop format_tokens in
  if negb (String.eqb tok "matrix") then
    Throw (invalid_argument "Bad Header: only matrix supported")
  else
  let '(tok, format_tokens) := pop format_tokens in
  if negb (String.eqb tok "coordinate") then
    Throw (invalid_argument "Bad Header: only coordinate supported")
  else
  let '(tok, format_tokens) := pop format_tokens in
  value_fmt <- parse_value_fmt tok ;;
  let '(tok, format_tokens) := pop format_tokens in
  symmetry <- parse_symmetry tok ;;
  Ok (value_fmt, symmetry).

Section Vocabulary.
Context {CT : CoordType} {VT : ValueType}.
Abbreviation Nonzero := (Nonzero.t value_t).

(** What [read_header] does with the dimension line. *)
Definition read_dimensions (symmetry : SymmetryType) (value_fmt : ValueFormat)
    (f : istream) (line : string) : outcome (Header.t * istream) :=
  match Tokens line space with
  | [rows; cols; nonzeros] =>
      Ok (Header.mk symmetry value_fmt (parse_int rows) (parse_int cols)
            (parse_int nonzeros), f)
  | _ => Throw (invalid_argument "Bad Header: missing matrix size")
  end.

(** The header read from a format line naming [fmt] and [sym] and a
    dimension line of three tokens. *)
Definition header_of (fmt sym rows cols nonzeros : string) : Header.t :=
  Header.mk (symmetry_of sym) (value_format_of fmt)
    (parse_int rows) (parse_int cols) (parse_int nonzeros).

(** The number of tokens a data line must have. *)
Definition expected_tokens (header : Header.t) : nat :=
  match Header.value_type header with PATTERN => 2 | _ => 3 end.

Definition well_shaped (header : Header.t) (line : string) : bool :=
  Nat.eqb (List.length (Tokens line space)) (expected_tokens header).

(** The 1-indexed coordinates written on a data line, as parsed. *)
Definition line_row (line : string) : Z :=
  parse_int (nth 0 (Tokens line space) EmptyString).

Definition line_col (line : string) : Z :=
  parse_int (nth 1 (Tokens line space) EmptyString).

Definition line_value (header : Header.t) (line : string) : value_t :=
  match Header.value_type header with
  | PATTERN => value_one
  | _ => parse_num (nth 2 (Tokens line space) EmptyString)
  end.

Definition row_in_bounds (header : Header.t) (line : string) : bool :=
  (1 <=? line_row line) && (line_row line <=? Header.num_rows header).

Definition col_in_bounds (header : Header.t) (line : string) : bool :=
  (1 <=? line_col line) && (line_col line <=? Header.num_cols header).

Definition off_diagonal (line : string) : bool := negb (line_row line =? line_col line).

(** The 0-indexed entry written on a data line, and the mirror image of
    an entry. *)
Definition line_entry (header : Header.t) (line : string) : Nonzero :=
  Nonzero.mk (line_row line - 1) (line_col line - 1) (line_value header line).

Definition mirror (nz : Nonzero) : Nonzero :=
  Nonzero.mk (Nonzero.col nz) (Nonzero.row nz) (Nonzero.value nz).

(** The entries a data line contributes: its entry and, in a symmetric
    file, the mirror image when the entry is off the diagonal. *)
Definition line_entries (header : Header.t) (line : string) : list Nonzero :=
  match Header.symmetry header with
  | SYMMETRIC =>
      if off_diagonal line
      then [line_entry header line; mirror (line_entry header line)]
      else [line_entry header line]
  | GENERAL => [line_entry header line]
  end.

(** A line the reader accepts. *)
Definition line_ok (header : Header.t) (line : string) : bool :=
  well_shaped header line && row_in_bounds header line && col_in_bounds header line.

(** The error raised on a line that is not accepted. *)
Definition line_error (header : Header.t) (line : string) : exception :=
  if negb (well_shaped header line) then
    match Header.value_type header with
    | PATTERN => invalid_argument "Bad Matrix: ill-shaped pattern line"
    | _ => invalid_argument "Bad Matrix: ill-shaped value line"
    end
  else if negb (row_in_bounds header line) then
    invalid_argument "Bad Matrix: row out of bounds"
  else invalid_argument "Bad Matrix: col out of bounds".

(** The lines read by the first [n] iterations of the reading loop, and
    the stream after them. *)
Fixpoint data_lines (n : nat) (infile : istream) : list string :=
  match n with
  | O => []
  | S n' =>
      let '(infile, line) := getline infile EmptyString newline in
      line :: data_lines n' infile
  end.

Fixpoint after_lines (n : nat) (infile : istream) : istream :=
  match n with
  | O => infile
  | S n' => after_lines n' (fst (getline infile EmptyString newline))
  end.

(** The data lines of a file whose header has been read. *)
Definition file_lines (header : Header.t) (infile : istream) : list string :=
  data_lines (Z.to_nat (Header.num_nonzeros header)) infile.

Definition header_in_range (header : Header.t) : Prop :=
  in_range coord_type (Header.num_rows header)
  /\ in_range coord_type (Header.num_cols header)
  /\ in_range coord_type (Header.num_nonzeros header).

(** The symmetric files whose mirrored entries stay inside the declared
    dimensions: the square ones. *)
Definition square_if_symmetric (header : Header.t) : Prop :=
  Header.symmetry header = SYMMETRIC -> Header.num_rows header = Header.num_cols header.

Definition entry_in_bounds (header : Header.t) (nz : Nonzero) : Prop :=
  0 <= Nonzero.row nz < Header.num_rows header
  /\ 0 <= Nonzero.col nz < Header.num_cols header.

(** An entry whose two indices can be major indices of the compressor. *)
Definition entry_in_range (nz : Nonzero) : Prop :=
  0 <= Nonzero.row nz <= max_value coord_type
  /\ 0 <= Nonzero.col nz <= max_value coord_type.

(** Both comparators are the lexicographic order of two keys. *)
Definition lex_less (key1 key2 : Nonzero -> Z) (a b : Nonzero) : bool :=
  (key1 a <? key1 b) || (negb (key1 b <? key1 a) && (key2 a <? key2 b)).

Definition triple (nz : Nonzero) : Z * Z * value_t :=
  (Nonzero.row nz, Nonzero.col nz, Nonzero.value nz).

(** The triples of a matrix in CSR form, row after row (the two nested
    loops of the demonstration program). *)
Definition csr_triples (csr : CSRMatrix.t value_t) : list (Z * Z * value_t) :=
  flat_map
    (fun i =>
       map (fun cv => (i, fst cv, snd cv))
         (slice (combine (CSRMatrix.col_indices csr) (CSRMatrix.values csr))
            (offset_at (CSRMatrix.row_offsets csr) i)
            (offset_at (CSRMatrix.row_offsets csr) (i + 1))))
    (zrange 0 (Z.to_nat (CSRMatrix.num_rows csr))).

(** The same for the CSC form, column after column. *)
Definition csc_triples (csc : CSCMatrix.t value_t) : list (Z * Z * value_t) :=
  flat_map
    (fun j =>
       map (fun rv => (fst rv, j, snd rv))
         (slice (combine (CSCMatrix.row_indices csc) (CSCMatrix.values csc))
            (offset_at (CSCMatrix.col_offsets csc) j)
            (offset_at (CSCMatrix.col_offsets csc) (j + 1))))
    (zrange 0 (Z.to_nat (CSCMatrix.num_cols csc))).

(** The reading loop on lines already taken from the stream. *)
Fixpoint read_lines (header : Header.t) (lines : list string) (nonzeros : list Nonzero)
    : outcome (list Nonzero) :=
  match lines with
  | [] => Ok nonzeros
  | line :: lines' =>
      nonzeros <- read_data_line header line nonzeros ;;
      read_lines header lines' nonzeros
  end.

(** The header and the coordinate list decoded from the lines of a file. *)
Definition decode_lines (format_line dims : string) (lines : list string)
    : outcome (Header.t * list Nonzero) :=
  '(value_fmt, symmetry) <- check_format_line format_line ;;
  '(header, _) <- read_dimensions symmetry value_fmt (open EmptyString) dims ;;
  nonzeros <- read_lines header lines [] ;;
  Ok (header, nonzeros).

(** The entries of the pattern line [1 2] in a symmetric file. *)
Definition pair_12 : list Nonzero :=
  [Nonzero.mk 0 1 value_one; Nonzero.mk 1 0 value_one].

(** The error raised on a line with the wrong number of tokens. *)
Definition ill_shaped (header : Header.t) : exception :=
  match Header.value_type header with
  | PATTERN => invalid_argument "Bad Matrix: ill-shaped pattern line"
  | _ => invalid_argument "Bad Matrix: ill-shaped value line"
  end.

(** The header of the transposed matrix. *)
Definition transposed (header : Header.t) : Header.t :=
  Header.mk (Header.symmetry header) (Header.value_type header)
    (Header.num_cols header) (Header.num_rows header) (Header.num_nonzeros header).

(** The position of an entry in the matrix. *)
Definition position (nz : Nonzero) : Z * Z := (Nonzero.row nz, Nonzero.col nz).

(** An entry seen through two keys: the keys and the value. *)
Definition keyed (key1 key2 : Nonzero -> Z) (nz : Nonzero) : Z * Z * value_t :=
  (key1 nz, key2 nz, Nonzero.value nz).

Section ByMajor.
Variables major minor : Nonzero -> Z.

(** The number of entries whose major index is below [m]. *)
Definition count_below (m : Z) (l : list Nonzero) : nat :=
  List.length (filter (fun nz => major nz <? m) l).

(** The entries of major index [m], in the order of the list. *)
Definition with_major (m : Z) (l : list Nonzero) : list Nonzero :=
  filter (fun nz => major nz =? m) l.

Definition major_sorted (l : list Nonzero) : Prop :=
  StronglySorted (fun a b => major a <= major b) l.

(** What the compressor computes: offset [m] is the number of entries
    below [m], converted to the coordinate type. *)
Definition offsets_of (dimension : Z) (l : list Nonzero) : list Z :=
  map (fun m => to_coord (Z.of_nat (count_below m l))) (zrange 0 (S (Z.to_nat dimension))).

(** The (minor index, value) pairs of the entries of major index [m] in a
    coordinate list. *)
Definition entries_of (m : Z) (coo : list Nonzero) : list (Z * value_t) :=
  map (fun nz => (minor nz, Nonzero.value nz)) (with_major m coo).

(** The largest of [dimension] and of the major indices of the entries:
    the compressor pushes offsets up to it. *)
Definition major_bound (dimension : Z) (l : list Nonzero) : Z :=
  fold_right (fun nz bound => Z.max (major nz) bound) dimension l.

(** The invariant of the compressed form of the coordinate list [coo]:
    [dimension] is the major dimension, [offsets], [indices], [values] the
    three arrays. *)
Record compressed_invariant (dimension num_nonzeros : Z)
    (offsets indices : list Z) (values : list value_t) (coo : list Nonzero) : Prop := {
  inv_length : Z.of_nat (List.length offsets) = dimension + 1;
  inv_first : offset_at offsets 0 = 0;
  inv_last : offset_at offsets dimension = num_nonzeros;
  inv_monotone : forall i j, 0 <= i <= j -> j <= dimension ->
      offset_at offsets i <= offset_at offsets j;
  inv_sizes : Z.of_nat (List.length indices) = num_nonzeros
              /\ List.length values = List.length indices;
  inv_slice : forall m, 0 <= m < dimension ->
      Permutation
        (slice (combine indices values) (offset_at offsets m) (offset_at offsets (m + 1)))
        (entries_of m coo);
  inv_slice_sorted : forall m, 0 <= m < dimension ->
      StronglySorted Z.le (slice indices (offset_at offsets m) (offset_at offsets (m + 1)))
}.

End ByMajor.

Section ByKey.
Variables key1 key2 : Nonzero -> Z.

(** The entries whose key is below, at, above [(a, b)] in the
    lexicographic order. *)
Definition key_below (a b : Z) (nz : Nonzero) : bool :=
  (key1 nz <? a) || ((key1 nz =? a) && (key2 nz <? b)).

Definition key_at (a b : Z) (nz : Nonzero) : bool :=
  (key1 nz =? a) && (key2 nz =? b).

Definition key_above (a b : Z) (nz : Nonzero) : bool :=
  (a <? key1 nz) || ((key1 nz =? a) && (b <? key2 nz)).

(** [x] does not come after [y] in the lexicographic order of the keys. *)
Definition key_le (x y : Nonzero) : Prop :=
  key1 x < key1 y \/ (key1 x = key1 y /\ key2 x <= key2 y).

End ByKey.

End Vocabulary.

(** ** Files used in the examples *)

Definition general_3x3 : string :=
  text ["%%MatrixMarket matrix coordinate real general"; "3 3 2"; "1 1 5.0"; "2 3 7.0"].

Definition symmetric_3x3 : string :=
  text ["%%MatrixMarket matrix coordinate real symmetric"; "3 3 1"; "1 2 4.0"].

Definition symmetric_2x5 : string :=
  text ["%%MatrixMarket matrix coordinate integer symmetric"; "2 5 1"; "1 5 7"].

Definition negative_rows : string :=
  text ["%%MatrixMarket matrix coordinate integer general"; "-1 3 0"].

Definition duplicates_3x3 : string :=
  text ["%%MatrixMarket matrix coordinate integer general"; "3 3 3";
        "1 1 5"; "2 3 7"; "1 1 9"].

(** Twenty entries at the position (1, 1) of a 3 x 3 matrix. *)
Definition twenty_at_1_1 : string :=
  text ("%%MatrixMarket matrix coordinate integer general" :: "3 3 20"
        :: map (fun value => "1 1 " ++ value)%string
             ["1"; "2"; "3"; "4"; "5"; "6"; "7"; "8"; "9"; "10";
              "11"; "12"; "13"; "14"; "15"; "16"; "17"; "18"; "19"; "20"]).

(** Their values in the order of the file, and in the order in which the
    library leaves them. *)
Definition in_arrival_order : list Z :=
  [1; 2; 3; 4; 5; 6; 7; 8; 9; 10; 11; 12; 13; 14; 15; 16; 17; 18; 19; 20].

Definition as_stored : list Z :=
  [11; 20; 19; 18; 17; 16; 15; 14; 13; 12; 1; 10; 9; 8; 7; 6; 5; 4; 3; 2].

Definition array_header : string :=
  text ["%%MatrixMarket matrix array real general"; "3 3"].

Definition commented_3x3 : string :=
  text ["%%MatrixMarket matrix coordinate pattern general"; "% a comment"; "%";
        "3 3 1"; "2 3"].

(** A pattern file whose second data line carries a value. *)
Definition pattern_with_value : string :=
  text ["%%MatrixMarket matrix coordinate pattern general"; "3 3 2"; "1 1"; "2 3 1"].

Definition row_zero : string :=
  text ["%%MatrixMarket matrix coordinate integer general"; "3 3 2"; "1 1 5"; "0 3 7"].

(** [n] times the data line [1 2] in a 2 x 2 symmetric pattern file that
    declares 2147483648 data lines. *)
Definition big_symmetric (n : nat) : string :=
  text ("%%MatrixMarket matrix coordinate pattern symmetric"
        :: "2 2 2147483648" :: repeat "1 2" n).

(** Its header. *)
Definition big_header : Header.t := Header.mk SYMMETRIC PATTERN 2 2 2147483648.

(* ================================================================== *)
(** * Facts about the integral types *)

Lemma modulus_pos (t : int_type) : 0 < modulus t.
Proof. unfold modulus. apply Z.pow_pos_nonneg; lia. Qed.

Lemma modulus_half (t : int_type) : modulus t = 2 * 2 ^ (Zpos (bits t) - 1).
Proof.
  unfold modulus. rewrite <- Z.pow_succ_r by lia. f_equal. lia.
Qed.

Lemma min_value_nonpos (t : int_type) : min_value t <= 0.
Proof.
  unfold min_value. destruct (is_signed t); [|lia].
  assert (0 < 2 ^ (Zpos (bits t) - 1)) by (apply Z.pow_pos_nonneg; lia). lia.
Qed.

Lemma max_value_nonneg (t : int_type) : 0 <= max_value t.
Proof.
  unfold max_value, min_value. destruct (is_signed t).
  - rewrite modulus_half.
    assert (0 < 2 ^ (Zpos (bits t) - 1)) by (apply Z.pow_pos_nonneg; lia). lia.
  - pose proof (modulus_pos t). lia.
Qed.

Lemma static_cast_in_range (t : int_type) (z : Z) : in_range t (static_cast t z).
Proof.
  unfold in_range, static_cast, max_value.
  pose proof (Z.mod_pos_bound (z - min_value t) (modulus t) (modulus_pos t)). lia.
Qed.

Lemma static_cast_id (t : int_type) (z : Z) : in_range t z -> static_cast t z = z.
Proof.
  unfold in_range, static_cast, max_value. intros Hz.
  rewrite Z.mod_small by lia. lia.
Qed.

Lemma extract_int_in_range (t : int_type) (s : string) (old : Z) :
  in_range t old -> in_range t (extract_int t s old).
Proof.
  intros Hold. unfold extract_int.
  pose proof (min_value_nonpos t) as Hmin. pose proof (max_value_nonneg t) as Hmax.
  destruct (skipws s) as [|c rest]; [exact Hold|]. cbv zeta.
  destruct (digit_prefix _) as [magnitude|]; [|unfold in_range; lia].
  destruct (_ <? magnitude).
  - destruct (_ && _); unfold in_range; lia.
  - apply static_cast_in_range.
Qed.

Lemma parse_int_in_range `{CoordType} (s : string) : in_range coord_type (parse_int s).
Proof. apply extract_int_in_range, static_cast_in_range. Qed.

Lemma to_coord_id `{CoordType} (z : Z) : in_range coord_type z -> to_coord z = z.
Proof. apply static_cast_id. Qed.

Lemma digit_of_not_sign (c : ascii) (d : Z) :
  digit_of c = Some d -> Ascii.eqb c "-"%char = false /\ Ascii.eqb c "+"%char = false.
Proof.
  intros Hd. split.
  - destruct (Ascii.eqb_spec c "-"%char) as [->|]; [discriminate Hd|reflexivity].
  - destruct (Ascii.eqb_spec c "+"%char) as [->|]; [discriminate Hd|reflexivity].
Qed.

Lemma extract_int_literal (t : int_type) (s : string) (old n : Z) :
  literal_value s = Some n -> 0 <= n <= max_value t -> extract_int t s old = n.
Proof.
  unfold literal_value, extract_int. destruct s as [|c rest]; [discriminate|].
  simpl skipws. destruct (isspace c); [discriminate|]. intros Hd Hn.
  assert (Hc : exists d, digit_of c = Some d).
  { simpl in Hd. destruct (digit_of c) as [d|]; [eauto|discriminate]. }
  destruct Hc as [d Hc]. destruct (digit_of_not_sign _ _ Hc) as [-> ->]. cbv zeta. simpl orb.
  cbv iota. rewrite Hd. simpl andb. cbv iota.
  destruct (Z.ltb_spec (max_value t) n); [lia|].
  apply static_cast_id. pose proof (min_value_nonpos t). unfold in_range. lia.
Qed.

Lemma parse_int_literal `{CoordType} (s : string) (n : Z) :
  literal_value s = Some n -> 0 <= n <= max_value coord_type -> parse_int s = n.
Proof. apply extract_int_literal. Qed.

Lemma parse_int_not_a_number `{CoordType} (s : string) :
  not_a_number s = true -> parse_int s = 0.
Proof.
  unfold not_a_number, parse_int, extract_int.
  destruct (skipws s) as [|c rest]; [discriminate|]. cbv zeta.
  rewrite (orb_comm (Ascii.eqb c "-"%char)).
  destruct (Ascii.eqb c "-"%char), (Ascii.eqb c "+"%char); cbn [orb];
    match goal with |- context [digit_prefix ?b] => destruct (digit_prefix b) end;
    congruence.
Qed.

(* ================================================================== *)
(** * Facts about streams *)

Lemma string_app_assoc (a b c : string) : ((a ++ b) ++ c = a ++ (b ++ c))%string.
Proof. induction a as [|x a IH]; simpl; congruence. Qed.

Lemma string_app_length (a b : string) :
  String.length (a ++ b) = (String.length a + String.length b)%nat.
Proof. induction a as [|x a IH]; simpl; congruence. Qed.

Lemma extract_until_found (delim : ascii) (l rest : string) :
  lacks delim l = true ->
  extract_until delim (l ++ String delim rest)%string = (l, Some rest).
Proof.
  induction l as [|c l IH]; simpl; intros Hl.
  - now rewrite Ascii.eqb_refl.
  - apply andb_prop in Hl as [Hc Hl]. apply negb_true_iff in Hc. rewrite Hc.
    now rewrite (IH Hl).
Qed.

Lemma extract_until_length (delim : ascii) (s l rest : string) :
  extract_until delim s = (l, Some rest) ->
  (String.length rest < String.length s)%nat.
Proof.
  revert l. induction s as [|c s IH]; simpl; intros l Hs; [discriminate|].
  destruct (Ascii.eqb c delim).
  - inversion Hs; subst. lia.
  - destruct (extract_until delim s) as [l' r'] eqn:E. inversion Hs; subst.
    specialize (IH _ eq_refl). lia.
Qed.

Lemma extract_until_end (delim : ascii) (s l : string) :
  extract_until delim s = (l, None) -> l = s.
Proof.
  revert l. induction s as [|c s IH]; simpl; intros l Hs.
  - now inversion Hs.
  - destruct (Ascii.eqb c delim); [discriminate|].
    destruct (extract_until delim s) as [l' r'] eqn:E. inversion Hs; subst.
    now rewrite (IH _ eq_refl).
Qed.

(** Reading a complete line from a good stream. *)
Lemma getline_line (l rest str : string) :
  lacks newline l = true ->
  getline (open (l ++ String newline rest)) str newline = (open rest, l).
Proof.
  intros Hl. unfold getline, open. simpl. now rewrite extract_until_found.
Qed.

Lemma getline_not_good (f : istream) (str : string) (delim : ascii) :
  good f = false ->
  getline f str delim = ({| buf := buf f; eofbit := eofbit f; failbit := true |}, str).
Proof. unfold getline. now intros ->. Qed.

(** The number of iterations of the [Tokens] constructor is bounded by the
    length of the string: more fuel does not change the tokens. *)
Lemma Tokens_loop_fuel (sep : ascii) (n m : nat) :
  forall iss token tokens,
    (String.length (buf iss) < n)%nat -> (String.length (buf iss) < m)%nat ->
    Tokens_loop n iss token sep tokens = Tokens_loop m iss token sep tokens.
Proof.
  revert m. induction n as [|n IH]; intros m iss token tokens Hn Hm; [lia|].
  destruct m as [|m]; [lia|]. simpl. unfold getline.
  destruct (good iss); [|reflexivity].
  destruct (extract_until sep (buf iss)) as [l [rest|]] eqn:E.
  - simpl. apply extract_until_length in E. apply IH; simpl; lia.
  - apply extract_until_end in E. subst l.
    destruct (buf iss) as [|c s] eqn:Eb; simpl; [reflexivity|].
    simpl in Hn, Hm. apply IH; simpl; lia.
Qed.

(** ** The comment-skipping loop *)

Lemma skip_comments_stuck (f : istream) (line : string) :
  good f = false -> starts_with_percent line = true ->
  forall n, skip_comments n f line = None.
Proof.
  intros Hf Hl n. revert f Hf. induction n as [|n IH]; intros f Hf; [reflexivity|].
  simpl. rewrite getline_not_good by assumption. rewrite Hl.
  apply IH. unfold good. simpl. now rewrite orb_true_r.
Qed.

(** Running out of the fuel of [read_header] means that the loop of the
    source never ends. *)
Lemma skip_comments_hangs (n : nat) :
  forall f line,
    (String.length (buf f) < n)%nat ->
    skip_comments n f line = None ->
    forall m, skip_comments m f line = None.
Proof.
  induction n as [|n IH]; intros f line Hn Hskip m; [lia|].
  destruct m as [|m]; [reflexivity|].
  simpl in Hskip |- *.
  destruct (good f) eqn:Hg.
  - unfold getline in *. rewrite Hg in *.
    destruct (extract_until newline (buf f)) as [l [rest|]] eqn:E.
    + destruct (starts_with_percent l); [|discriminate].
      apply extract_until_length in E.
      refine (IH _ _ _ Hskip m). simpl. lia.
    + destruct (starts_with_percent l) eqn:Hl; [|discriminate].
      apply skip_comments_stuck; [|assumption].
      unfold good. simpl. reflexivity.
  - rewrite getline_not_good in * by assumption.
    destruct (starts_with_percent line) eqn:Hl; [|discriminate].
    apply skip_comments_stuck; [|assumption].
    unfold good. simpl. now rewrite orb_true_r.
Qed.

Lemma skip_comments_more_fuel (n : nat) :
  forall f line r, skip_comments n f line = Some r ->
    forall m, (n <= m)%nat -> skip_comments m f line = Some r.
Proof.
  induction n as [|n IH]; intros f line r Hskip m Hm; [discriminate|].
  destruct m as [|m]; [lia|]. simpl in *.
  destruct (getline f line newline) as [f' line'].
  destruct (starts_with_percent line'); [|assumption].
  apply (IH _ _ _ Hskip). lia.
Qed.

(* ================================================================== *)
(** * The header parser *)

Lemma size_length (tokens : list string) (n : nat) :
  (size tokens =? Z.of_nat n) = Nat.eqb (List.length tokens) n.
Proof.
  unfold size. destruct (Z.eqb_spec (Z.of_nat (List.length tokens)) (Z.of_nat n));
    destruct (Nat.eqb_spec (List.length tokens) n); auto; lia.
Qed.

Lemma parse_value_fmt_ok (fmt : string) :
  In fmt ["real"; "integer"; "pattern"] -> parse_value_fmt fmt = Ok (value_format_of fmt).
Proof.
  intros [<-|[<-|[<-|[]]]]; reflexivity.
Qed.

Lemma parse_symmetry_ok (sym : string) :
  In sym ["general"; "symmetric"] -> parse_symmetry sym = Ok (symmetry_of sym).
Proof.
  intros [<-|[<-|[]]]; reflexivity.
Qed.

Lemma parse_value_fmt_cases (fmt : string) :
  In fmt ["real"; "integer"; "pattern"]
  \/ parse_value_fmt fmt = Throw (invalid_argument "Bad Header: unknown value format").
Proof.
  unfold parse_value_fmt.
  destruct (String.eqb_spec fmt "real"); [left; simpl; auto|].
  destruct (String.eqb_spec fmt "integer"); [left; simpl; auto|].
  destruct (String.eqb_spec fmt "pattern"); [left; simpl; auto|].
  now right.
Qed.

Lemma parse_symmetry_cases (sym : string) :
  In sym ["general"; "symmetric"]
  \/ parse_symmetry sym = Throw (invalid_argument "Bad Header: unknown symmetry").
Proof.
  unfold parse_symmetry.
  destruct (String.eqb_spec sym "general"); [left; simpl; auto|].
  destruct (String.eqb_spec sym "symmetric"); [left; simpl; auto|].
  now right.
Qed.

Lemma LF_app (s : string) : (LF ++ s)%string = String newline s.
Proof. reflexivity. Qed.

Lemma text_length (lines : list string) (rest : string) :
  (List.length lines <= String.length (text lines ++ rest))%nat.
Proof.
  induction lines as [|l ls IH]; simpl; [lia|].
  rewrite !string_app_assoc, string_app_length. simpl. lia.
Qed.

Lemma skip_comments_text (comments : list string) (dims rest line : string) :
  Forall comment_line comments ->
  starts_with_percent dims = false -> lacks newline dims = true ->
  skip_comments (S (List.length comments))
    (open (text comments ++ dims ++ String newline rest)) line
  = Some (open rest, dims).
Proof.
  intros Hc Hd Hn. revert line.
  induction Hc as [|c cs [Hc1 Hc2] _ IH]; intros line.
  - simpl text. simpl List.length. simpl append at 1.
    cbn [skip_comments]. rewrite getline_line by assumption. now rewrite Hd.
  - cbn [text List.length]. rewrite !string_app_assoc.
    change (skip_comments (S (S (List.length cs))) ?f ?l)
      with (let '(f', line') := getline f l newline in
            if starts_with_percent line' then skip_comments (S (List.length cs)) f' line'
            else Some (f', line')).
    simpl append at 2.
    rewrite getline_line by assumption. rewrite Hc1. apply IH.
Qed.

Section HeaderFacts.
Context {CT : CoordType}.

Lemma read_header_rejects (f : istream) :
  ~ format_line_accepted (snd (getline f EmptyString newline)) ->
  is_format_error (read_header f).
Proof.
  unfold read_header, format_line_accepted, is_format_error.
  destruct (getline f EmptyString newline) as [f1 line]. cbn [snd].
  intros Hbad. rewrite (size_length _ 5).
  destruct (Tokens line space) as [|a [|b [|c [|d [|e [|g l]]]]]]; cbn [List.length Nat.eqb negb];
    try (eexists; reflexivity).
  cbn [pop].
  destruct (String.eqb_spec a "%%MatrixMarket"); [subst a|eexists; reflexivity].
  destruct (String.eqb_spec b "matrix"); [subst b|eexists; reflexivity].
  destruct (String.eqb_spec c "coordinate"); [subst c|eexists; reflexivity].
  cbn [negb].
  destruct (parse_value_fmt_cases d) as [Hd| ->]; [|eexists; reflexivity].
  destruct (parse_symmetry_cases e) as [He| ->].
  - exfalso. apply Hbad. exists d, e. auto.
  - rewrite (parse_value_fmt_ok _ Hd). eexists; reflexivity.
Qed.

Lemma read_header_accepts (f f1 : istream) (line fmt sym : string) :
  getline f EmptyString newline = (f1, line) ->
  Tokens line space = ["%%MatrixMarket"; "matrix"; "coordinate"; fmt; sym] ->
  In fmt ["real"; "integer"; "pattern"] -> In sym ["general"; "symmetric"] ->
  read_header f =
    match skip_comments (skip_comments_fuel f1) f1 line with
    | None => Hang
    | Some (f2, line2) => read_dimensions (symmetry_of sym) (value_format_of fmt) f2 line2
    end.
Proof.
  intros Hg Ht Hfmt Hsym. unfold read_header. rewrite Hg, Ht.
  cbn [size List.length pop]. cbn [Z.of_nat Pos.of_succ_nat Pos.succ Z.eqb Pos.eqb negb].
  change (String.eqb "%%MatrixMarket" "%%MatrixMarket") with true.
  change (String.eqb "matrix" "matrix") with true.
  change (String.eqb "coordinate" "coordinate") with true.
  cbn [negb]. rewrite (parse_value_fmt_ok _ Hfmt), (parse_symmetry_ok _ Hsym).
  cbn [bind].
  destruct (skip_comments _ f1 line) as [[f2 line2]|]; [|reflexivity].
  unfold read_dimensions. rewrite (size_length _ 3).
  destruct (Tokens line2 space) as [|a [|b [|c [|d l]]]]; reflexivity.
Qed.

(** The format line of a header that has been read. *)
Lemma read_header_ok_inv (f f' : istream) (header : Header.t) :
  read_header f = Ok (header, f') ->
  exists fmt sym,
    Tokens (snd (getline f EmptyString newline)) space
    = ["%%MatrixMarket"; "matrix"; "coordinate"; fmt; sym]
    /\ (fmt = "real" /\ Header.value_type header = REAL
        \/ fmt = "integer" /\ Header.value_type header = INTEGER
        \/ fmt = "pattern" /\ Header.value_type header = PATTERN)
    /\ (sym = "general" /\ Header.symmetry header = GENERAL
        \/ sym = "symmetric" /\ Header.symmetry header = SYMMETRIC).
Proof.
  unfold read_header.
  destruct (getline f EmptyString newline) as [f1 line]. cbn [snd].
  rewrite (size_length _ 5).
  destruct (Tokens line space) as [|a [|b [|c [|d [|e [|g l]]]]]];
    cbn [List.length Nat.eqb negb]; try discriminate.
  cbn [pop].
  destruct (String.eqb_spec a "%%MatrixMarket"); [subst a|discriminate].
  destruct (String.eqb_spec b "matrix"); [subst b|discriminate].
  destruct (String.eqb_spec c "coordinate"); [subst c|discriminate].
  cbn [negb]. unfold parse_value_fmt, parse_symmetry.
  destruct (String.eqb_spec d "real");
    [|destruct (String.eqb_spec d "integer");
      [|destruct (String.eqb_spec d "pattern"); [|discriminate]]];
    (destruct (String.eqb_spec e "general");
      [|destruct (String.eqb_spec e "symmetric"); [|discriminate]]);
    cbn [bind];
    (destruct (skip_comments _ _ _) as [[f2 line2]|]; [|discriminate]);
    (destruct (negb _); [discriminate|]);
    destruct (pop _) as [t6 r6]; destruct (pop _) as [t7 r7]; destruct (pop _) as [t8 r8];
    intros H; inversion H; subst; do 2 eexists; (split; [reflexivity|]); cbn;
    split; auto 6.
Qed.

(** Reading a header made of a format line, comment lines and a dimension
    line, each ended by a line feed. *)
Lemma read_header_text (format_line fmt sym : string) (comments : list string)
    (dims rest : string) :
  lacks newline format_line = true ->
  Tokens format_line space = ["%%MatrixMarket"; "matrix"; "coordinate"; fmt; sym] ->
  In fmt ["real"; "integer"; "pattern"] -> In sym ["general"; "symmetric"] ->
  Forall comment_line comments ->
  starts_with_percent dims = false -> lacks newline dims = true ->
  read_header
    (open (format_line ++ LF ++ text comments ++ dims ++ LF ++ rest))
  = read_dimensions (symmetry_of sym) (value_format_of fmt) (open rest) dims.
Proof.
  intros Hl Ht Hfmt Hsym Hc Hd Hn. rewrite !LF_app.
  rewrite (read_header_accepts _ _ _ _ _ (getline_line _ _ _ Hl) Ht Hfmt Hsym).
  rewrite (skip_comments_more_fuel _ _ _ _ (skip_comments_text comments dims rest _ Hc Hd Hn)).
  - reflexivity.
  - unfold skip_comments_fuel, open. cbn [buf].
    pose proof (text_length comments (dims ++ String newline rest)). lia.
Qed.

End HeaderFacts.

(* ================================================================== *)
(** * The coordinate reader *)

Section ReaderFacts.
Context {CT : CoordType} {VT : ValueType}.

Abbreviation Nonzero := (Nonzero.t value_t).

Lemma bounds_test (x hi : Z) :
  ((x <? 1) || (x >? hi)) = negb ((1 <=? x) && (x <=? hi)).
Proof.
  rewrite Z.gtb_ltb.
  destruct (Z.ltb_spec x 1), (Z.leb_spec 1 x), (Z.ltb_spec hi x), (Z.leb_spec x hi);
    simpl; auto; lia.
Qed.

Lemma read_data_line_spec (header : Header.t) (line : string) (nonzeros : list Nonzero) :
  read_data_line header line nonzeros =
    if line_ok header line then Ok (nonzeros ++ line_entries header line)
    else Throw (line_error header line).
Proof.
  unfold read_data_line, line_ok, line_error, well_shaped, expected_tokens,
    row_in_bounds, col_in_bounds, line_entries, mirror, line_entry, off_diagonal,
    line_row, line_col, line_value.
  rewrite (size_length _ 2), (size_length _ 3).
  pose proof (parse_int_in_range (nth 0 (Tokens line space) EmptyString)) as Hr.
  pose proof (parse_int_in_range (nth 1 (Tokens line space) EmptyString)) as Hc.
  unfold in_range in Hr, Hc. pose proof (min_value_nonpos coord_type) as Hmin.
  assert (Hshift : forall x, min_value coord_type <= x <= max_value coord_type ->
            (1 <=? x) = true -> to_coord (x - 1) = x - 1).
  { intros x Hx H1. apply Z.leb_le in H1. apply to_coord_id. unfold in_range. lia. }
  destruct (Header.value_type header) eqn:Hvt; cbn [ValueFormat_eqb andb negb];
    destruct (Tokens line space) as [|a [|b [|c [|d l]]]];
    cbn [List.length Nat.eqb negb andb pop nth fst] in *; try reflexivity;
    cbv zeta; rewrite !bounds_test;
    (destruct (1 <=? parse_int a) eqn:Ha; cbn [andb negb]; [|reflexivity]);
    (destruct (parse_int a <=? Header.num_rows header); cbn [andb negb]; [|reflexivity]);
    (destruct (1 <=? parse_int b) eqn:Hb; cbn [andb negb]; [|reflexivity]);
    (destruct (parse_int b <=? Header.num_cols header); cbn [andb negb]; [|reflexivity]);
    rewrite (Hshift _ Hr Ha), (Hshift _ Hc Hb);
    replace (parse_int a - 1 =? parse_int b - 1) with (parse_int a =? parse_int b)
      by (destruct (Z.eqb_spec (parse_int a) (parse_int b)),
                   (Z.eqb_spec (parse_int a - 1) (parse_int b - 1)); auto; lia);
    destruct (Header.symmetry header); cbn [SymmetryType_eqb andb];
    try reflexivity;
    destruct (parse_int a =? parse_int b); cbn [negb]; try reflexivity;
    now rewrite <- app_assoc.
Qed.

Lemma line_error_format (header : Header.t) (line : string) :
  exists what, line_error header line = invalid_argument what.
Proof.
  unfold line_error. destruct (negb _); [destruct (Header.value_type header)|destruct (negb _)];
    eexists; reflexivity.
Qed.

(** The loop succeeds exactly when every line it reads is accepted, and
    then appends the entries of the lines in order. *)
Lemma read_nonzeros_ok (n : nat) (header : Header.t) :
  forall infile nonzeros,
    forallb (line_ok header) (data_lines n infile) = true ->
    read_nonzeros n header infile nonzeros =
      Ok (nonzeros ++ flat_map (line_entries header) (data_lines n infile),
          after_lines n infile).
Proof.
  induction n as [|n IH]; intros infile nonzeros Hall; simpl.
  - now rewrite app_nil_r.
  - simpl in Hall. destruct (getline infile EmptyString newline) as [f line].
    simpl in Hall. apply andb_prop in Hall as [Hl Hall].
    rewrite read_data_line_spec, Hl. cbn [bind fst]. rewrite (IH _ _ Hall).
    now rewrite <- app_assoc.
Qed.

Lemma read_nonzeros_error (n : nat) (header : Header.t) :
  forall infile nonzeros,
    forallb (line_ok header) (data_lines n infile) = false ->
    is_format_error (read_nonzeros n header infile nonzeros).
Proof.
  induction n as [|n IH]; intros infile nonzeros Hall; simpl in *; [discriminate|].
  destruct (getline infile EmptyString newline) as [f line]. simpl in Hall.
  rewrite read_data_line_spec.
  destruct (line_ok header line); cbn [bind].
  - apply IH. exact Hall.
  - destruct (line_error_format header line) as [what ->]. now exists what.
Qed.

End ReaderFacts.

(* ================================================================== *)
(** * Ranges of indices and slices of arrays *)

Lemma zrange_length (lo : Z) (n : nat) : List.length (zrange lo n) = n.
Proof. unfold zrange. now rewrite length_map, length_seq. Qed.

Lemma zrange_S (lo : Z) (n : nat) : zrange lo (S n) = lo :: zrange (lo + 1) n.
Proof.
  unfold zrange. simpl. f_equal; [lia|].
  rewrite <- seq_shift, map_map. apply map_ext. intros i. lia.
Qed.

Lemma zrange_app (lo : Z) (n k : nat) :
  zrange lo (n + k) = zrange lo n ++ zrange (lo + Z.of_nat n) k.
Proof.
  revert lo. induction n as [|n IH]; intros lo.
  - simpl. f_equal. lia.
  - change (S n + k)%nat with (S (n + k)). rewrite !zrange_S, IH. simpl. do 3 f_equal. lia.
Qed.

Lemma zrange_In (lo : Z) (n : nat) (m : Z) :
  In m (zrange lo n) <-> lo <= m < lo + Z.of_nat n.
Proof.
  unfold zrange. rewrite in_map_iff. split.
  - intros [i [<- Hi]]. apply in_seq in Hi. lia.
  - intros Hm. exists (Z.to_nat (m - lo)). split; [lia|]. apply in_seq. lia.
Qed.

Lemma zrange_nth (lo : Z) (n i : nat) :
  (i < n)%nat -> nth i (zrange lo n) 0 = lo + Z.of_nat i.
Proof.
  intros Hi. unfold zrange.
  rewrite (nth_indep _ 0 (lo + Z.of_nat 0)) by (now rewrite length_map, length_seq).
  rewrite (map_nth (fun i => lo + Z.of_nat i) (seq 0 n) 0%nat i).
  now rewrite seq_nth.
Qed.

Lemma map_constant {A B : Type} (f : A -> B) (b : B) (l : list A) :
  (forall a, In a l -> f a = b) -> map f l = repeat b (List.length l).
Proof.
  induction l as [|a l IH]; simpl; intros H; [reflexivity|].
  rewrite H by auto. f_equal. apply IH. auto.
Qed.

(* ================================================================== *)
(** * The compressor *)

Section CompressFacts.
Context {CT : CoordType} {VT : ValueType}.
Abbreviation Nonzero := (Nonzero.t value_t).
Variables major minor : Nonzero -> Z.

Lemma push_offsets_run (bound size : Z) (n : nat) :
  forall current offsets,
    min_value coord_type <= current -> bound <= max_value coord_type ->
    Z.of_nat n = bound - current ->
    push_offsets n current bound offsets size = (bound, offsets ++ repeat size n).
Proof.
  induction n as [|n IH]; intros current offsets Hlo Hhi Hn; simpl.
  - rewrite app_nil_r. f_equal. lia.
  - destruct (Z.ltb_spec current bound); [|lia].
    rewrite to_coord_id by (unfold in_range; lia).
    rewrite IH by lia. now rewrite <- app_assoc.
Qed.

Lemma advance_run (current bound size : Z) (offsets : list Z) :
  min_value coord_type <= current <= bound -> bound <= max_value coord_type ->
  advance current bound offsets size
  = (bound, offsets ++ repeat size (Z.to_nat (bound - current))).
Proof.
  intros Hc Hb. unfold advance. apply push_offsets_run; lia.
Qed.

(** The [while] loops are left because their condition is false, not
    because the model stops iterating. *)
Lemma advance_exit (current bound size : Z) (offsets : list Z) :
  min_value coord_type <= current -> bound <= max_value coord_type ->
  (fst (advance current bound offsets size) <? bound) = false.
Proof.
  intros Hc Hb. destruct (Z.le_gt_cases current bound).
  - rewrite advance_run by lia. simpl. apply Z.ltb_irrefl.
  - unfold advance. replace (Z.to_nat (bound - current)) with 0%nat by lia.
    simpl. apply Z.ltb_ge. lia.
Qed.

Lemma count_below_none (m : Z) (l : list Nonzero) :
  Forall (fun nz => m <= major nz) l -> count_below major m l = 0%nat.
Proof.
  unfold count_below. induction 1 as [|nz l Hnz _ IH]; simpl; [reflexivity|].
  destruct (Z.ltb_spec (major nz) m); [lia|]. exact IH.
Qed.

Lemma count_below_all (m : Z) (l : list Nonzero) :
  Forall (fun nz => major nz < m) l -> count_below major m l = List.length l.
Proof.
  unfold count_below. induction 1 as [|nz l Hnz _ IH]; simpl; [reflexivity|].
  destruct (Z.ltb_spec (major nz) m); [|lia]. simpl. now rewrite IH.
Qed.

Lemma count_below_cons (m : Z) (nz : Nonzero) (l : list Nonzero) :
  count_below major m (nz :: l)
  = ((if (major nz <? m)%Z then 1 else 0) + count_below major m l)%nat.
Proof. unfold count_below. simpl. now destruct (major nz <? m). Qed.

Lemma count_below_mono (m m' : Z) (l : list Nonzero) :
  m <= m' -> (count_below major m l <= count_below major m' l)%nat.
Proof.
  intros Hm. induction l as [|nz l IH]; [reflexivity|].
  rewrite !count_below_cons.
  destruct (Z.ltb_spec (major nz) m), (Z.ltb_spec (major nz) m'); lia.
Qed.

Lemma count_below_le_length (m : Z) (l : list Nonzero) :
  (count_below major m l <= List.length l)%nat.
Proof. apply filter_length_le. Qed.

Lemma count_below_perm (m : Z) (l l' : list Nonzero) :
  Permutation l l' -> count_below major m l = count_below major m l'.
Proof.
  unfold count_below. induction 1; simpl; try congruence.
  - destruct (major x <? m); simpl; congruence.
  - destruct (major x <? m), (major y <? m); reflexivity.
Qed.

(** The loop over the sorted entries followed by the final [while], from
    any intermediate state: the offsets pushed are those of the indices
    [current + 1 .. dimension]. *)
Lemma compress_loop_run (dimension : Z) (l : list Nonzero) :
  forall current offsets indices values,
    major_sorted major l ->
    Forall (fun nz => current <= major nz <= dimension) l ->
    min_value coord_type <= current <= dimension ->
    dimension <= max_value coord_type ->
    let '(c, o, i, v) := compress_loop major minor l current offsets indices values in
    advance c dimension o (to_coord (Z.of_nat (List.length i)))
    = (dimension,
       offsets ++ map (fun m => to_coord (Z.of_nat (List.length indices + count_below major m l)))
                      (zrange (current + 1) (Z.to_nat (dimension - current))))
    /\ i = indices ++ map minor l
    /\ v = values ++ map Nonzero.value l.
Proof.
  induction l as [|nz l IH]; intros current offsets indices values Hs Hb Hc Hd.
  - simpl. rewrite advance_run by lia. rewrite !app_nil_r. repeat split.
    do 2 f_equal. rewrite <- (zrange_length (current + 1) (Z.to_nat (dimension - current))) at 1.
    symmetry. apply map_constant. intros m _. do 2 f_equal. unfold count_below. simpl. lia.
  - inversion Hs as [|? ? Hs' Hle]; subst. inversion Hb as [|? ? Hnz Hb']; subst.
    cbn [compress_loop]. rewrite advance_run by lia.
    assert (Hb'' : Forall (fun nz' => major nz <= major nz' <= dimension) l).
    { rewrite Forall_forall in *. intros x Hx. specialize (Hle x Hx). specialize (Hb' x Hx). lia. }
    specialize (IH (major nz) (offsets ++ repeat (to_coord (Z.of_nat (List.length indices)))
                                   (Z.to_nat (major nz - current)))
                  (indices ++ [minor nz]) (values ++ [Nonzero.value nz]) Hs' Hb''
                  ltac:(lia) Hd).
    destruct (compress_loop major minor l _ _ _ _) as [[[c o] i] v].
    destruct IH as [-> [-> ->]]. repeat split.
    + f_equal. rewrite <- app_assoc. f_equal.
      replace (Z.to_nat (dimension - current))
        with (Z.to_nat (major nz - current) + Z.to_nat (dimension - major nz))%nat by lia.
      rewrite zrange_app, map_app. f_equal.
      * rewrite <- (zrange_length (current + 1) (Z.to_nat (major nz - current))) at 1.
        symmetry. apply map_constant. intros m Hm. apply zrange_In in Hm.
        do 2 f_equal. rewrite count_below_none; [lia|].
        constructor; [lia|]. rewrite Forall_forall in *. intros x Hx.
        specialize (Hle x Hx). lia.
      * replace (current + 1 + Z.of_nat (Z.to_nat (major nz - current)))
          with (major nz + 1) by lia.
        apply map_ext_in. intros m Hm. apply zrange_In in Hm.
        do 2 f_equal. rewrite length_app, count_below_cons. simpl.
        destruct (Z.ltb_spec (major nz) m); lia.
    + now rewrite <- app_assoc.
    + now rewrite <- app_assoc.
Qed.

(** The compressor on a list sorted by major index, all indices within
    [0, dimension]. *)
Lemma compress_sorted (dimension : Z) (l : list Nonzero) :
  major_sorted major l ->
  Forall (fun nz => 0 <= major nz <= dimension) l ->
  0 <= dimension <= max_value coord_type ->
  compress major minor dimension l
  = (offsets_of major dimension l, map minor l, map Nonzero.value l).
Proof.
  intros Hs Hb Hd. unfold compress.
  pose proof (min_value_nonpos coord_type) as Hmin.
  pose proof (compress_loop_run dimension l 0 [0] [] [] Hs Hb ltac:(lia) ltac:(lia)) as H.
  destruct (compress_loop major minor l 0 [0] [] []) as [[[c o] i] v].
  destruct H as [-> [-> ->]]. simpl. f_equal. f_equal.
  unfold offsets_of. rewrite zrange_S. simpl. f_equal.
  - rewrite count_below_none.
    + symmetry. apply to_coord_id. unfold in_range.
      pose proof (max_value_nonneg coord_type). simpl. lia.
    + eapply Forall_impl; [|exact Hb]. simpl. intros; lia.
  - now rewrite Z.sub_0_r.
Qed.

End CompressFacts.

(* ================================================================== *)
(** * Sorted coordinate lists *)

Lemma StronglySorted_filter {A : Type} (R : A -> A -> Prop) (f : A -> bool) (l : list A) :
  StronglySorted R l -> StronglySorted R (filter f l).
Proof.
  induction 1 as [|a l Hs IH Ha]; simpl; [constructor|].
  destruct (f a); [|exact IH]. constructor; [exact IH|].
  rewrite Forall_forall in *. intros x Hx. apply filter_In in Hx. apply Ha, Hx.
Qed.

Lemma StronglySorted_map {A B : Type} (R : B -> B -> Prop) (g : A -> B) (l : list A) :
  StronglySorted (fun a b => R (g a) (g b)) l -> StronglySorted R (map g l).
Proof.
  induction 1 as [|a l Hs IH Ha]; simpl; constructor; [exact IH|].
  rewrite Forall_forall in *. intros y Hy. apply in_map_iff in Hy as [x [<- Hx]]. auto.
Qed.

Lemma StronglySorted_weaken {A : Type} (R R' : A -> A -> Prop) (l : list A) :
  (forall a b, In a l -> In b l -> R a b -> R' a b) ->
  StronglySorted R l -> StronglySorted R' l.
Proof.
  intros HR Hs. induction Hs as [|a l Hs IH Ha]; constructor.
  - apply IH. intros x y Hx Hy. apply HR; now right.
  - rewrite Forall_forall in *. intros x Hx. apply HR; [now left|now right|auto].
Qed.

Lemma Permutation_filter {A : Type} (f : A -> bool) (l l' : list A) :
  Permutation l l' -> Permutation (filter f l) (filter f l').
Proof.
  induction 1 as [|x l l' _ IH|x y l|l l' l'' _ IH1 _ IH2]; simpl.
  - constructor.
  - destruct (f x); [now constructor|exact IH].
  - destruct (f x), (f y); try reflexivity. constructor.
  - now transitivity (filter f l').
Qed.

(** A list in strictly increasing order is the only ordered arrangement
    of its elements: [std::sort] returns it unchanged. *)
Lemma sorted_unique {A : Type} (comp : A -> A -> bool) (l : list A) :
  StronglySorted (fun a b => comp a b = true) l ->
  forall l', Permutation l l' -> sorted_by comp l' -> l' = l.
Proof.
  induction 1 as [|a l Hs IH Ha]; intros l' Hp Hs'.
  - now apply Permutation_nil in Hp.
  - destruct l' as [|x l']; [now apply Permutation_sym, Permutation_nil in Hp|].
    inversion Hs' as [|? ? Hs'' Hx]; subst.
    assert (Hin : In a (x :: l')) by (eapply Permutation_in; [exact Hp|now left]).
    destruct Hin as [->|Hin].
    + f_equal. apply IH; [now apply Permutation_cons_inv in Hp|exact Hs''].
    + exfalso. rewrite Forall_forall in Ha, Hx.
      assert (Hxl : In x l).
      { assert (Hxin : In x (a :: l)) by (eapply Permutation_in; [symmetry; exact Hp|now left]).
        destruct Hxin as [<-|]; [|assumption].
        specialize (Hx a Hin).
        (* [a] occurs twice in [a :: l] *)
        assert (Hal : In a l).
        { apply Permutation_sym in Hp.
          destruct (in_split _ _ Hin) as [l1 [l2 ->]].
          assert (Hp' : Permutation (a :: l1 ++ a :: l2) (a :: l)) by exact Hp.
          apply Permutation_cons_inv in Hp'.
          eapply Permutation_in; [exact Hp'|]. apply in_or_app. right. now left. }
        exact Hal. }
      specialize (Ha x Hxl). specialize (Hx a Hin). congruence.
Qed.

Section SortedFacts.
Context {CT : CoordType} {VT : ValueType}.
Abbreviation Nonzero := (Nonzero.t value_t).

Lemma lex_less_swo (key1 key2 : Nonzero -> Z) : strict_weak_order (lex_less key1 key2).
Proof.
  unfold lex_less. split.
  - intros a. rewrite !Z.ltb_irrefl. reflexivity.
  - intros a b c.
    destruct (Z.ltb_spec (key1 a) (key1 b)), (Z.ltb_spec (key1 b) (key1 a)),
      (Z.ltb_spec (key2 a) (key2 b)), (Z.ltb_spec (key1 b) (key1 c)),
      (Z.ltb_spec (key1 c) (key1 b)), (Z.ltb_spec (key2 b) (key2 c)),
      (Z.ltb_spec (key1 a) (key1 c)), (Z.ltb_spec (key1 c) (key1 a)),
      (Z.ltb_spec (key2 a) (key2 c)); simpl; intros; try reflexivity; try discriminate; lia.
  - intros a b c.
    destruct (Z.ltb_spec (key1 a) (key1 b)), (Z.ltb_spec (key1 b) (key1 a)),
      (Z.ltb_spec (key2 a) (key2 b)), (Z.ltb_spec (key1 b) (key1 c)),
      (Z.ltb_spec (key1 c) (key1 b)), (Z.ltb_spec (key2 b) (key2 c)),
      (Z.ltb_spec (key1 a) (key1 c)), (Z.ltb_spec (key1 c) (key1 a)),
      (Z.ltb_spec (key2 a) (key2 c)); simpl; intros; try reflexivity; try discriminate; lia.
Qed.

Lemma row_major_less_swo : strict_weak_order (@row_major_less VT).
Proof. exact (lex_less_swo Nonzero.row Nonzero.col). Qed.

Lemma col_major_less_swo : strict_weak_order (@col_major_less VT).
Proof. exact (lex_less_swo Nonzero.col Nonzero.row). Qed.

Lemma lex_less_false (key1 key2 : Nonzero -> Z) (a b : Nonzero) :
  lex_less key1 key2 b a = false ->
  key1 a <= key1 b /\ (key1 a = key1 b -> key2 a <= key2 b).
Proof.
  unfold lex_less.
  destruct (Z.ltb_spec (key1 b) (key1 a)), (Z.ltb_spec (key1 a) (key1 b)),
    (Z.ltb_spec (key2 b) (key2 a)); simpl; intros; try discriminate; lia.
Qed.

Lemma sorted_by_major (key1 key2 : Nonzero -> Z) (l : list Nonzero) :
  sorted_by (lex_less key1 key2) l -> major_sorted key1 l.
Proof.
  apply StronglySorted_weaken. intros a b _ _ H. now apply lex_less_false in H.
Qed.

Lemma sorted_by_minor (key1 key2 : Nonzero -> Z) (l : list Nonzero) (m : Z) :
  sorted_by (lex_less key1 key2) l ->
  StronglySorted Z.le (map key2 (with_major key1 m l)).
Proof.
  intros Hs. apply StronglySorted_map. unfold with_major.
  apply (StronglySorted_weaken (fun a b => lex_less key1 key2 b a = false)).
  - intros a b Ha Hb H. apply filter_In in Ha as [_ Ha], Hb as [_ Hb].
    apply Z.eqb_eq in Ha, Hb. apply lex_less_false in H. lia.
  - now apply StronglySorted_filter.
Qed.

(** In a list sorted by major index the entries of index [m] are the
    positions from [count_below m] to [count_below (m + 1)]. *)
Lemma segment_by_major (major : Nonzero -> Z) (m : Z) (l : list Nonzero) :
  major_sorted major l ->
  firstn (count_below major (m + 1) l - count_below major m l)
         (skipn (count_below major m l) l)
  = with_major major m l.
Proof.
  unfold with_major. induction 1 as [|nz l Hs IH Hle]; [reflexivity|].
  rewrite !count_below_cons. simpl filter.
  destruct (Z.ltb_spec (major nz) m) as [Hlt|Hge].
  - destruct (Z.ltb_spec (major nz) (m + 1)); [|lia].
    destruct (Z.eqb_spec (major nz) m); [lia|].
    simpl. exact IH.
  - assert (H0 : count_below major m l = 0%nat).
    { apply count_below_none. eapply Forall_impl; [|exact Hle]. simpl. intros; lia. }
    rewrite H0 in *. simpl in IH |- *. rewrite Nat.sub_0_r in *.
    destruct (Z.ltb_spec (major nz) (m + 1)), (Z.eqb_spec (major nz) m); try lia.
    + simpl. now rewrite IH.
    + simpl. rewrite <- IH.
      rewrite count_below_none; [reflexivity|].
      eapply Forall_impl; [|exact Hle]. simpl. intros; lia.
Qed.

End SortedFacts.

(* ================================================================== *)
(** * The structural invariant of a compressed matrix *)

Lemma nth_map_in {A B : Type} (f : A -> B) (l : list A) (i : nat) (d : B) (d' : A) :
  (i < List.length l)%nat -> nth i (map f l) d = f (nth i l d').
Proof.
  intros Hi. rewrite (nth_indep _ d (f d')) by now rewrite length_map.
  apply map_nth.
Qed.

Lemma combine_map {A B C : Type} (f : A -> B) (g : A -> C) (l : list A) :
  combine (map f l) (map g l) = map (fun a => (f a, g a)) l.
Proof. induction l as [|a l IH]; simpl; congruence. Qed.

Lemma slice_map {A B : Type} (f : A -> B) (l : list A) (lo hi : Z) :
  slice (map f l) lo hi = map f (slice l lo hi).
Proof. unfold slice. now rewrite skipn_map, firstn_map. Qed.

Lemma slice_nat {A : Type} (l : list A) (a b : nat) :
  slice l (Z.of_nat a) (Z.of_nat b) = firstn (b - a) (skipn a l).
Proof. unfold slice. f_equal; [lia|f_equal; lia]. Qed.

Lemma slice_empty {A : Type} (l : list A) (lo hi : Z) : hi <= lo -> slice l lo hi = [].
Proof. intros H. unfold slice. now replace (Z.to_nat (hi - lo)) with 0%nat by lia. Qed.

Section Invariant.
Context {CT : CoordType} {VT : ValueType}.
Abbreviation Nonzero := (Nonzero.t value_t).
Variables major minor : Nonzero -> Z.

Lemma offset_at_offsets_of (dimension m : Z) (l : list Nonzero) :
  0 <= m <= dimension ->
  offset_at (offsets_of major dimension l) m = to_coord (Z.of_nat (count_below major m l)).
Proof.
  intros Hm. unfold offset_at, offsets_of.
  rewrite (nth_map_in _ _ _ _ 0) by (rewrite zrange_length; lia).
  rewrite zrange_nth by lia. do 3 f_equal. lia.
Qed.

Lemma compress_invariant (dimension : Z) (coo l : list Nonzero) :
  Permutation coo l ->
  sorted_by (lex_less major minor) l ->
  Forall (fun nz => 0 <= major nz < dimension) l ->
  0 <= dimension <= max_value coord_type ->
  Z.of_nat (List.length l) <= max_value coord_type ->
  let '(offsets, indices, values) := compress major minor dimension l in
  compressed_invariant major minor dimension (to_coord (Z.of_nat (List.length values)))
    offsets indices values coo.
Proof.
  intros Hp Hs Hb Hd Hfit.
  rewrite (compress_sorted major minor dimension l).
  2: { eapply sorted_by_major, Hs. }
  2: { eapply Forall_impl; [|exact Hb]. simpl. intros; lia. }
  2: { exact Hd. }
  pose proof (min_value_nonpos coord_type) as Hmin.
  assert (Hid : forall m, to_coord (Z.of_nat (count_below major m l))
                          = Z.of_nat (count_below major m l)).
  { intros m. apply to_coord_id. unfold in_range.
    pose proof (count_below_le_length major m l). lia. }
  assert (Hoff : forall m, 0 <= m <= dimension ->
            offset_at (offsets_of major dimension l) m = Z.of_nat (count_below major m l)).
  { intros m Hm. now rewrite offset_at_offsets_of, Hid. }
  assert (Hlen : to_coord (Z.of_nat (List.length (map Nonzero.value l)))
                 = Z.of_nat (List.length l)).
  { rewrite length_map. apply to_coord_id. unfold in_range. lia. }
  split.
  - unfold offsets_of. rewrite length_map, zrange_length. lia.
  - rewrite Hoff by lia. rewrite count_below_none; [reflexivity|].
    eapply Forall_impl; [|exact Hb]. simpl. intros; lia.
  - rewrite Hoff by lia. rewrite count_below_all, Hlen; [reflexivity|].
    eapply Forall_impl; [|exact Hb]. simpl. intros; lia.
  - intros i j Hij Hj. rewrite !Hoff by lia.
    pose proof (count_below_mono major i j l ltac:(lia)). lia.
  - rewrite Hlen, !length_map. split; reflexivity.
  - intros m Hm. rewrite !Hoff by lia. rewrite combine_map, slice_map, slice_nat.
    rewrite segment_by_major by (eapply sorted_by_major, Hs).
    unfold entries_of. apply Permutation_map. unfold with_major.
    apply Permutation_filter. now symmetry.
  - intros m Hm. rewrite !Hoff by lia. rewrite slice_map, slice_nat.
    rewrite segment_by_major by (eapply sorted_by_major, Hs).
    now apply sorted_by_minor.
Qed.

End Invariant.

(* ================================================================== *)
(** * The decoder as a whole *)

Section DecoderFacts.
Context {CT : CoordType} {VT : ValueType}.
Abbreviation Nonzero := (Nonzero.t value_t).

Lemma read_header_in_range (f f' : istream) (header : Header.t) :
  read_header f = Ok (header, f') -> header_in_range header.
Proof.
  unfold read_header.
  destruct (getline f EmptyString newline) as [f1 line].
  destruct (negb _); [discriminate|].
  destruct (pop _) as [t1 r1]. destruct (negb _); [discriminate|].
  destruct (pop _) as [t2 r2]. destruct (negb _); [discriminate|].
  destruct (pop _) as [t3 r3]. destruct (negb _); [discriminate|].
  destruct (pop _) as [t4 r4]. destruct (parse_value_fmt t4); try discriminate.
  cbn [bind]. destruct (pop _) as [t5 r5]. destruct (parse_symmetry t5); try discriminate.
  cbn [bind]. destruct (skip_comments _ _ _) as [[f2 line2]|]; [|discriminate].
  destruct (negb _); [discriminate|].
  destruct (pop _) as [t6 r6]. destruct (pop _) as [t7 r7]. destruct (pop _) as [t8 r8].
  intros H. inversion H; subst. unfold header_in_range. simpl.
  repeat split; apply parse_int_in_range.
Qed.

(** What a successful [read_coo] has done. *)
Lemma read_coo_inv (file : option string) (header : Header.t) (coo : list Nonzero)
    (infile : istream) :
  read_coo file = Ok (header, coo, infile) ->
  exists contents f0,
    file = Some contents
    /\ read_header (open contents) = Ok (header, f0)
    /\ forallb (line_ok header) (file_lines header f0) = true
    /\ coo = flat_map (line_entries header) (file_lines header f0)
    /\ infile = after_lines (Z.to_nat (Header.num_nonzeros header)) f0.
Proof.
  unfold read_coo. destruct file as [contents|]; [|discriminate].
  destruct (read_header (open contents)) as [[h f0]| |] eqn:Hh; try discriminate.
  cbn [bind]. unfold file_lines.
  destruct (forallb (line_ok h) (data_lines (Z.to_nat (Header.num_nonzeros h)) f0)) eqn:Hall.
  - rewrite (read_nonzeros_ok _ _ _ _ Hall). cbn [bind app]. intros H. inversion H; subst.
    exists contents, f0. auto.
  - destruct (read_nonzeros_error _ _ _ (@nil Nonzero) Hall) as [what ->]. discriminate.
Qed.

Lemma read_coo_intro (contents : string) (header : Header.t) (f0 : istream) :
  read_header (open contents) = Ok (header, f0) ->
  forallb (line_ok header) (file_lines header f0) = true ->
  read_coo (Some contents)
  = Ok (header, flat_map (line_entries header) (file_lines header f0),
        after_lines (Z.to_nat (Header.num_nonzeros header)) f0).
Proof.
  intros Hh Hall. unfold read_coo. rewrite Hh. cbn [bind].
  unfold file_lines in *. now rewrite (read_nonzeros_ok _ _ _ _ Hall).
Qed.

Lemma line_entries_in_bounds (header : Header.t) (line : string) :
  square_if_symmetric header ->
  line_ok header line = true ->
  Forall (entry_in_bounds header) (line_entries header line).
Proof.
  unfold square_if_symmetric, line_ok, row_in_bounds, col_in_bounds, line_entries,
    mirror, line_entry, entry_in_bounds. intros Hsq Hok.
  apply andb_prop in Hok as [Hok Hc]. apply andb_prop in Hok as [_ Hr].
  apply andb_prop in Hr as [Hr1 Hr2]. apply andb_prop in Hc as [Hc1 Hc2].
  apply Z.leb_le in Hr1, Hr2, Hc1, Hc2.
  destruct (Header.symmetry header).
  - repeat constructor; simpl; lia.
  - specialize (Hsq eq_refl). destruct (off_diagonal line); repeat constructor; simpl; lia.
Qed.

Lemma coo_in_bounds (header : Header.t) (lines : list string) :
  square_if_symmetric header ->
  forallb (line_ok header) lines = true ->
  Forall (entry_in_bounds header) (flat_map (line_entries header) lines).
Proof.
  intros Hsq. induction lines as [|line lines IH]; simpl; intros Hall; [constructor|].
  apply andb_prop in Hall as [Hl Hall]. apply Forall_app. split.
  - now apply line_entries_in_bounds.
  - now apply IH.
Qed.

Context {sorter : StdSort Nonzero}.

Lemma read_csr_unfold (file : option string) (header : Header.t) (coo : list Nonzero)
    (infile : istream) :
  read_coo file = Ok (header, coo, infile) ->
  read_csr file =
    let '(row_offsets, col_indices, values) :=
      compress Nonzero.row Nonzero.col (Header.num_rows header)
        (std_sort row_major_less coo) in
    Ok (CSRMatrix.mk (Header.num_rows header) (Header.num_cols header)
          (to_coord (Z.of_nat (List.length values))) row_offsets col_indices values).
Proof. intros H. unfold read_csr. now rewrite H. Qed.

Lemma read_csc_unfold (file : option string) (header : Header.t) (coo : list Nonzero)
    (infile : istream) :
  read_coo file = Ok (header, coo, infile) ->
  read_csc file =
    let '(col_offsets, row_indices, values) :=
      compress Nonzero.col Nonzero.row (Header.num_cols header)
        (std_sort col_major_less coo) in
    Ok (CSCMatrix.mk (Header.num_rows header) (Header.num_cols header)
          (to_coord (Z.of_nat (List.length values))) col_offsets row_indices values).
Proof. intros H. unfold read_csc. now rewrite H. Qed.

(** An error or a hang of the common part is the outcome of both entry
    points. *)
Lemma read_csr_error (file : option string) (e : exception) :
  read_coo file = Throw e -> read_csr file = Throw e.
Proof. intros H. unfold read_csr. now rewrite H. Qed.

Lemma read_csc_error (file : option string) (e : exception) :
  read_coo file = Throw e -> read_csc file = Throw e.
Proof. intros H. unfold read_csc. now rewrite H. Qed.

Lemma read_coo_header_error (contents : string) (e : exception) :
  read_header (open contents) = Throw e -> read_coo (Some contents) = Throw e.
Proof. intros H. unfold read_coo. now rewrite H. Qed.

Lemma read_csr_ok_inv (file : option string) (csr : CSRMatrix.t value_t) :
  read_csr file = Ok csr -> exists header coo infile, read_coo file = Ok (header, coo, infile).
Proof.
  unfold read_csr. destruct (read_coo file) as [[[h coo] f]| |]; try discriminate. eauto.
Qed.

Lemma read_csc_ok_inv (file : option string) (csc : CSCMatrix.t value_t) :
  read_csc file = Ok csc -> exists header coo infile, read_coo file = Ok (header, coo, infile).
Proof.
  unfold read_csc. destruct (read_coo file) as [[[h coo] f]| |]; try discriminate. eauto.
Qed.

End DecoderFacts.

(* ================================================================== *)
(** * The coordinate triples a compressed matrix stands for *)

Lemma filter_all {A : Type} (f : A -> bool) (l : list A) :
  Forall (fun a => f a = true) l -> filter f l = l.
Proof. induction 1 as [|a l Ha _ IH]; simpl; [reflexivity|]. now rewrite Ha, IH. Qed.

Lemma filter_none {A : Type} (f : A -> bool) (l : list A) :
  Forall (fun a => f a = false) l -> filter f l = [].
Proof. induction 1 as [|a l Ha _ IH]; simpl; [reflexivity|]. now rewrite Ha, IH. Qed.

Lemma filter_filter {A : Type} (f g : A -> bool) (l : list A) :
  (forall a, f a = true -> g a = true) -> filter f (filter g l) = filter f l.
Proof.
  intros Hfg. induction l as [|a l IH]; simpl; [reflexivity|].
  destruct (g a) eqn:Hg; simpl.
  - now rewrite IH.
  - destruct (f a) eqn:Hf; [|exact IH]. rewrite (Hfg _ Hf) in Hg. discriminate.
Qed.

Lemma flat_map_ext_in {A B : Type} (f g : A -> list B) (l : list A) :
  (forall a, In a l -> f a = g a) -> flat_map f l = flat_map g l.
Proof.
  induction l as [|a l IH]; simpl; intros H; [reflexivity|].
  rewrite (H a) by auto. f_equal. apply IH. auto.
Qed.

Section Triples.
Context {CT : CoordType} {VT : ValueType}.
Abbreviation Nonzero := (Nonzero.t value_t).

Section Major.
Variables major minor : Nonzero -> Z.

Lemma split_lowest (lo : Z) (l : list Nonzero) :
  major_sorted major l -> Forall (fun nz => lo <= major nz) l ->
  with_major major lo l ++ filter (fun nz => lo <? major nz) l = l.
Proof.
  unfold with_major. induction 1 as [|nz l Hs IH Hle]; intros Hlo; [reflexivity|].
  inversion Hlo as [|? ? Hnz Hlo']; subst. simpl.
  destruct (Z.eqb_spec (major nz) lo) as [He|Hne].
  - destruct (Z.ltb_spec lo (major nz)); [lia|]. simpl. f_equal. now apply IH.
  - destruct (Z.ltb_spec lo (major nz)); [|lia].
    rewrite filter_none, filter_all; [reflexivity| |].
    + eapply Forall_impl; [|exact Hle]. simpl. intros a Ha. apply Z.ltb_lt. lia.
    + eapply Forall_impl; [|exact Hle]. simpl. intros a Ha. apply Z.eqb_neq. lia.
Qed.

(** A list sorted by major index is the concatenation of its groups. *)
Lemma groups_concat (n : nat) :
  forall lo l,
    major_sorted major l ->
    Forall (fun nz => lo <= major nz < lo + Z.of_nat n) l ->
    flat_map (fun m => with_major major m l) (zrange lo n) = l.
Proof.
  induction n as [|n IH]; intros lo l Hs Hb.
  - destruct l as [|nz l]; [reflexivity|]. inversion Hb; subst. lia.
  - rewrite zrange_S. simpl.
    rewrite (flat_map_ext_in _ (fun m => with_major major m (filter (fun nz => lo <? major nz) l))).
    + rewrite IH.
      * apply split_lowest; [exact Hs|]. eapply Forall_impl; [|exact Hb]. simpl. intros; lia.
      * now apply StronglySorted_filter.
      * rewrite Forall_forall in *. intros x Hx. apply filter_In in Hx as [Hx Hx'].
        apply Z.ltb_lt in Hx'. specialize (Hb x Hx). lia.
    + intros m Hm. apply zrange_In in Hm. unfold with_major.
      symmetry. apply filter_filter. intros a Ha. apply Z.eqb_eq in Ha. apply Z.ltb_lt. lia.
Qed.

(** Reading the compressed arrays of a sorted list back, group by group:
    [attach m] rebuilds the triple of an entry of major index [m] from its
    minor index and value. *)
Lemma triples_of_compressed (attach : Z -> Z * value_t -> Z * Z * value_t)
    (dimension : Z) (l : list Nonzero) :
  (forall nz, attach (major nz) (minor nz, Nonzero.value nz) = triple nz) ->
  major_sorted major l ->
  Forall (fun nz => 0 <= major nz < dimension) l ->
  Z.of_nat (List.length l) <= max_value coord_type ->
  flat_map
    (fun m => map (attach m)
       (slice (combine (map minor l) (map Nonzero.value l))
          (offset_at (offsets_of major dimension l) m)
          (offset_at (offsets_of major dimension l) (m + 1))))
    (zrange 0 (Z.to_nat dimension))
  = map triple l.
Proof.
  intros Hattach Hs Hb Hfit.
  pose proof (min_value_nonpos coord_type) as Hmin.
  transitivity
    (map triple (flat_map (fun m => with_major major m l) (zrange 0 (Z.to_nat dimension)))).
  2: { f_equal. apply groups_concat; [exact Hs|].
       eapply Forall_impl; [|exact Hb]. simpl. intros; lia. }
  rewrite flat_map_concat_map, (flat_map_concat_map _ (zrange 0 (Z.to_nat dimension))).
  rewrite concat_map, map_map. f_equal. apply map_ext_in. intros m Hm.
  apply zrange_In in Hm.
  rewrite !offset_at_offsets_of by lia.
  rewrite !to_coord_id.
  2,3: unfold in_range;
       match goal with |- context [count_below _ ?x ?y] =>
         pose proof (count_below_le_length major x y) end; lia.
  rewrite combine_map, slice_map, slice_nat, segment_by_major by exact Hs.
  rewrite map_map. apply map_ext_in. intros nz Hnz.
  apply filter_In in Hnz as [_ Hnz]. apply Z.eqb_eq in Hnz. subst m. apply Hattach.
Qed.

End Major.
End Triples.

(* ================================================================== *)
(** * The result of the two entry points *)

Section Results.
Context {CT : CoordType} {VT : ValueType}.
Abbreviation Nonzero := (Nonzero.t value_t).
Context {sorter : StdSort Nonzero}.

Lemma offsets_of_perm (major : Nonzero -> Z) (dimension : Z) (l l' : list Nonzero) :
  Permutation l l' -> offsets_of major dimension l = offsets_of major dimension l'.
Proof.
  intros Hp. unfold offsets_of. apply map_ext. intros m.
  now rewrite (count_below_perm major m l l' Hp).
Qed.

Lemma sorted_rows (coo : list Nonzero) :
  sorted_by (lex_less Nonzero.row Nonzero.col) (std_sort row_major_less coo).
Proof. apply (std_sort_sorted row_major_less coo), row_major_less_swo. Qed.

Lemma sorted_cols (coo : list Nonzero) :
  sorted_by (lex_less Nonzero.col Nonzero.row) (std_sort col_major_less coo).
Proof. apply (std_sort_sorted col_major_less coo), col_major_less_swo. Qed.

Lemma Forall_sorted (P : Nonzero -> Prop) (comp : Nonzero -> Nonzero -> bool)
    (coo : list Nonzero) :
  Forall P coo -> Forall P (std_sort comp coo).
Proof.
  intros H. eapply Permutation_Forall; [|exact H]. apply std_sort_perm.
Qed.

Lemma length_sorted (comp : Nonzero -> Nonzero -> bool) (coo : list Nonzero) :
  List.length (std_sort comp coo) = List.length coo.
Proof. symmetry. apply Permutation_length, std_sort_perm. Qed.

(** The matrix returned by [read_csr] when no stored row index exceeds the
    declared number of rows. *)
Lemma read_csr_spec (file : option string) (header : Header.t) (coo : list Nonzero)
    (infile : istream) :
  read_coo file = Ok (header, coo, infile) ->
  Forall (fun nz => 0 <= Nonzero.row nz <= Header.num_rows header) coo ->
  0 <= Header.num_rows header ->
  read_csr file =
    Ok (CSRMatrix.mk (Header.num_rows header) (Header.num_cols header)
          (to_coord (Z.of_nat (List.length coo)))
          (offsets_of Nonzero.row (Header.num_rows header) coo)
          (map Nonzero.col (std_sort row_major_less coo))
          (map Nonzero.value (std_sort row_major_less coo))).
Proof.
  intros Hcoo Hb Hd. rewrite (read_csr_unfold _ _ _ _ Hcoo).
  destruct (read_coo_inv _ _ _ _ Hcoo) as [contents [f0 [_ [Hh _]]]].
  destruct (read_header_in_range _ _ _ Hh) as [[_ Hr] _].
  rewrite compress_sorted.
  - rewrite length_map, length_sorted.
    now rewrite (offsets_of_perm _ _ _ _ (Permutation_sym (std_sort_perm row_major_less coo))).
  - eapply sorted_by_major, sorted_rows.
  - now apply Forall_sorted.
  - lia.
Qed.

Lemma read_csc_spec (file : option string) (header : Header.t) (coo : list Nonzero)
    (infile : istream) :
  read_coo file = Ok (header, coo, infile) ->
  Forall (fun nz => 0 <= Nonzero.col nz <= Header.num_cols header) coo ->
  0 <= Header.num_cols header ->
  read_csc file =
    Ok (CSCMatrix.mk (Header.num_rows header) (Header.num_cols header)
          (to_coord (Z.of_nat (List.length coo)))
          (offsets_of Nonzero.col (Header.num_cols header) coo)
          (map Nonzero.row (std_sort col_major_less coo))
          (map Nonzero.value (std_sort col_major_less coo))).
Proof.
  intros Hcoo Hb Hd. rewrite (read_csc_unfold _ _ _ _ Hcoo).
  destruct (read_coo_inv _ _ _ _ Hcoo) as [contents [f0 [_ [Hh _]]]].
  destruct (read_header_in_range _ _ _ Hh) as [_ [[_ Hc] _]].
  rewrite compress_sorted.
  - rewrite length_map, length_sorted.
    now rewrite (offsets_of_perm _ _ _ _ (Permutation_sym (std_sort_perm col_major_less coo))).
  - eapply sorted_by_major, sorted_cols.
  - now apply Forall_sorted.
  - lia.
Qed.

(** The stored coordinate list of a valid file whose mirrored entries fit
    the declared dimensions. *)
Lemma read_coo_in_bounds (file : option string) (header : Header.t) (coo : list Nonzero)
    (infile : istream) :
  read_coo file = Ok (header, coo, infile) ->
  square_if_symmetric header ->
  Forall (entry_in_bounds header) coo.
Proof.
  intros Hcoo Hsq.
  destruct (read_coo_inv _ _ _ _ Hcoo) as [contents [f0 [_ [_ [Hall [-> _]]]]]].
  now apply coo_in_bounds.
Qed.

(** C1 (as amended).  For every file on which the decode succeeds, with
    [coo] its coordinate list after symmetry expansion: if the file is
    general or declares a square matrix, the number of stored entries is
    representable in [CoordType] and the major dimension is not negative,
    then the matrix returned by [read_csr] (major = row, dimension
    [num_rows]) and the one returned by [read_csc] (major = column,
    dimension [num_cols]) satisfy the structural invariant: the offsets
    have length dimension + 1, start at 0, end at [num_nonzeros], never
    decrease, and the slice of every major index holds exactly the (minor
    index, value) pairs of that row or column, in ascending order of minor
    index. *)
Theorem decode_invariant (file : option string) (header : Header.t) (coo : list Nonzero)
    (infile : istream) :
  read_coo file = Ok (header, coo, infile) ->
  square_if_symmetric header ->
  Z.of_nat (List.length coo) <= max_value coord_type ->
  (0 <= Header.num_rows header ->
   exists csr,
     read_csr file = Ok csr
     /\ CSRMatrix.num_rows csr = Header.num_rows header
     /\ compressed_invariant Nonzero.row Nonzero.col
          (CSRMatrix.num_rows csr) (CSRMatrix.num_nonzeros csr)
          (CSRMatrix.row_offsets csr) (CSRMatrix.col_indices csr) (CSRMatrix.values csr)
          coo)
  /\ (0 <= Header.num_cols header ->
      exists csc,
        read_csc file = Ok csc
        /\ CSCMatrix.num_cols csc = Header.num_cols header
        /\ compressed_invariant Nonzero.col Nonzero.row
             (CSCMatrix.num_cols csc) (CSCMatrix.num_nonzeros csc)
             (CSCMatrix.col_offsets csc) (CSCMatrix.row_indices csc) (CSCMatrix.values csc)
             coo).
Proof.
  intros Hcoo Hsq Hfit.
  pose proof (read_coo_in_bounds _ _ _ _ Hcoo Hsq) as Hb.
  destruct (read_coo_inv _ _ _ _ Hcoo) as [contents [f0 [_ [Hh _]]]].
  destruct (read_header_in_range _ _ _ Hh) as [[_ Hr] [[_ Hc] _]].
  split; intros Hd.
  - rewrite (read_csr_unfold _ _ _ _ Hcoo).
    pose proof (compress_invariant Nonzero.row Nonzero.col (Header.num_rows header) coo
                  (std_sort row_major_less coo) (std_sort_perm _ _) (sorted_rows coo)) as Hinv.
    destruct (compress Nonzero.row Nonzero.col _ _) as [[o i] v].
    eexists. split; [reflexivity|]. split; [reflexivity|]. simpl. apply Hinv.
    + apply Forall_sorted. eapply Forall_impl; [|exact Hb]. intros nz [H1 _]. exact H1.
    + lia.
    + now rewrite length_sorted.
  - rewrite (read_csc_unfold _ _ _ _ Hcoo).
    pose proof (compress_invariant Nonzero.col Nonzero.row (Header.num_cols header) coo
                  (std_sort col_major_less coo) (std_sort_perm _ _) (sorted_cols coo)) as Hinv.
    destruct (compress Nonzero.col Nonzero.row _ _) as [[o i] v].
    eexists. split; [reflexivity|]. split; [reflexivity|]. simpl. apply Hinv.
    + apply Forall_sorted. eapply Forall_impl; [|exact Hb]. intros nz [_ H2]. exact H2.
    + lia.
    + now rewrite length_sorted.
Qed.

End Results.

(* ================================================================== *)
(** * Files given line by line *)

Lemma string_app_nil_r (s : string) : (s ++ "")%string = s.
Proof. induction s as [|c s IH]; simpl; congruence. Qed.

Lemma data_lines_text (lines : list string) (rest : string) :
  Forall one_line lines ->
  data_lines (List.length lines) (open (text lines ++ rest)) = lines
  /\ after_lines (List.length lines) (open (text lines ++ rest)) = open rest.
Proof.
  induction 1 as [|l ls Hl _ [IH1 IH2]]; [simpl; auto|].
  cbn [text List.length data_lines after_lines].
  rewrite !string_app_assoc, LF_app, (getline_line _ _ _ Hl). cbn [fst].
  rewrite IH1, IH2. auto.
Qed.

Lemma Forall_repeat {A : Type} (P : A -> Prop) (x : A) (n : nat) :
  P x -> Forall P (repeat x n).
Proof. intros Hx. induction n; simpl; constructor; auto. Qed.

Lemma forallb_repeat {A : Type} (f : A -> bool) (x : A) (n : nat) :
  f x = true -> forallb f (repeat x n) = true.
Proof. intros Hx. induction n; simpl; [reflexivity|]. now rewrite Hx. Qed.

Lemma Forall_flat_map_repeat {A B : Type} (P : B -> Prop) (f : A -> list B) (x : A) (n : nat) :
  Forall P (f x) -> Forall P (flat_map f (repeat x n)).
Proof. intros Hx. induction n; simpl; [constructor|]. apply Forall_app. auto. Qed.

Lemma length_flat_map_repeat {A B : Type} (f : A -> list B) (x : A) (n : nat) :
  List.length (flat_map f (repeat x n)) = (n * List.length (f x))%nat.
Proof. induction n; simpl; [reflexivity|]. rewrite length_app. lia. Qed.

Section TextFiles.
Context {CT : CoordType} {VT : ValueType}.
Abbreviation Nonzero := (Nonzero.t value_t).

Lemma count_below_app (major : Nonzero -> Z) (m : Z) (l l' : list Nonzero) :
  count_below major m (l ++ l') = (count_below major m l + count_below major m l')%nat.
Proof. unfold count_below. now rewrite filter_app, length_app. Qed.

Lemma count_below_flat_map_repeat (major : Nonzero -> Z) (m : Z)
    (f : string -> list Nonzero) (x : string) (n : nat) :
  count_below major m (flat_map f (repeat x n)) = (n * count_below major m (f x))%nat.
Proof. induction n; simpl; [reflexivity|]. rewrite count_below_app. lia. Qed.

Lemma read_header_lines (format_line fmt sym : string) (comments : list string)
    (dims rows cols nonzeros rest : string) :
  one_line format_line ->
  Tokens format_line space = ["%%MatrixMarket"; "matrix"; "coordinate"; fmt; sym] ->
  In fmt ["real"; "integer"; "pattern"] -> In sym ["general"; "symmetric"] ->
  Forall comment_line comments ->
  starts_with_percent dims = false -> one_line dims ->
  Tokens dims space = [rows; cols; nonzeros] ->
  read_header (open (header_text format_line comments dims ++ rest)%string)
  = Ok (header_of fmt sym rows cols nonzeros, open rest).
Proof.
  intros Hl Ht Hfmt Hsym Hc Hd Hn Hdims. unfold header_text.
  rewrite !string_app_assoc.
  rewrite (read_header_text format_line fmt sym comments dims rest Hl Ht Hfmt Hsym Hc Hd Hn).
  unfold read_dimensions. now rewrite Hdims.
Qed.

(** Decoding a file given by its lines: the declared number of data lines
    follows the header, all of them accepted. *)
Lemma read_coo_lines (format_line fmt sym : string) (comments : list string)
    (dims rows cols nonzeros : string) (lines : list string) (rest : string) :
  one_line format_line ->
  Tokens format_line space = ["%%MatrixMarket"; "matrix"; "coordinate"; fmt; sym] ->
  In fmt ["real"; "integer"; "pattern"] -> In sym ["general"; "symmetric"] ->
  Forall comment_line comments ->
  starts_with_percent dims = false -> one_line dims ->
  Tokens dims space = [rows; cols; nonzeros] ->
  List.length lines = Z.to_nat (parse_int nonzeros) ->
  Forall one_line lines ->
  forallb (line_ok (header_of fmt sym rows cols nonzeros)) lines = true ->
  read_coo (Some (header_text format_line comments dims ++ text lines ++ rest)%string)
  = Ok (header_of fmt sym rows cols nonzeros,
        flat_map (line_entries (header_of fmt sym rows cols nonzeros)) lines,
        open rest).
Proof.
  intros Hl Ht Hfmt Hsym Hc Hd Hn Hdims Hlen Hlines Hok.
  pose proof (read_header_lines format_line fmt sym comments dims rows cols nonzeros
                (text lines ++ rest)%string Hl Ht Hfmt Hsym Hc Hd Hn Hdims) as Hh.
  destruct (data_lines_text lines rest Hlines) as [Hdl Hal].
  rewrite (read_coo_intro _ _ _ Hh); unfold file_lines; cbn [header_of Header.num_nonzeros];
    rewrite <- Hlen, Hdl; [|exact Hok].
  now rewrite Hal.
Qed.

End TextFiles.

(* ================================================================== *)
(** * Concrete files *)

(** Evaluation of the lexer on the literal lines of a goal, and of
    [parse_int] on the literal numbers, for an arbitrary coordinate type
    that can hold them. *)
Ltac eval_tokens :=
  repeat match goal with
  | |- context [Tokens ?s space] =>
      let v := eval vm_compute in (Tokens s space) in
      change (Tokens s space) with v
  end.

Ltac eval_literals :=
  repeat match goal with
  | |- context [parse_int ?s] =>
      let v := eval vm_compute in (literal_value s) in
      match v with
      | Some ?n => rewrite (parse_int_literal s n eq_refl) by lia
      end
  end.

Ltac eval_coords :=
  repeat match goal with
  | |- context [to_coord ?z] => rewrite (to_coord_id z) by (unfold in_range; lia)
  end.

Section Examples.
Context {CT : CoordType} {VT : ValueType}.
Abbreviation Nonzero := (Nonzero.t value_t).
Context {sorter : StdSort Nonzero}.

(** A coordinate list already in strictly increasing row-major order is
    what [std::sort] returns. *)
Lemma sort_rows_id (coo : list Nonzero) :
  StronglySorted (fun a b => row_major_less a b = true) coo ->
  std_sort row_major_less coo = coo.
Proof.
  intros Hs. apply (sorted_unique row_major_less coo Hs).
  - apply std_sort_perm.
  - apply sorted_rows.
Qed.

Lemma sort_cols_id (coo : list Nonzero) :
  StronglySorted (fun a b => col_major_less a b = true) coo ->
  std_sort col_major_less coo = coo.
Proof.
  intros Hs. apply (sorted_unique col_major_less coo Hs).
  - apply std_sort_perm.
  - apply sorted_cols.
Qed.

(** C3 (as amended).  The file
    [%%MatrixMarket matrix coordinate real general / 3 3 2 / 1 1 5.0 / 2 3 7.0]
    decoded as CSR, for any coordinate type that can hold the number 3:
    3 rows, 3 columns, 2 nonzeros, row offsets [0,1,2,2], column indices
    [0,2], and as values what the value type extracts from "5.0" and
    "7.0". *)
Theorem general_3x3_csr :
  3 <= max_value coord_type ->
  read_csr (Some general_3x3)
  = Ok (CSRMatrix.mk 3 3 2 [0; 1; 2; 2] [0; 2] [parse_num "5.0"; parse_num "7.0"]).
Proof.
  intros Hmax. pose proof (min_value_nonpos coord_type) as Hmin.
  assert (Hcoo : read_coo (Some general_3x3)
            = Ok (Header.mk GENERAL REAL 3 3 2,
                  [Nonzero.mk 0 0 (parse_num "5.0"); Nonzero.mk 1 2 (parse_num "7.0")],
                  open "")).
  { change general_3x3
      with (header_text "%%MatrixMarket matrix coordinate real general" [] "3 3 2"
              ++ text ["1 1 5.0"; "2 3 7.0"] ++ "")%string.
    rewrite (read_coo_lines _ "real" "general" [] _ "3" "3" "2");
      try reflexivity; try (simpl; tauto); try (repeat constructor).
    - unfold header_of, line_entries, line_entry, line_row, line_col, line_value.
      simpl flat_map.
      eval_tokens. cbn [nth Header.symmetry Header.value_type symmetry_of value_format_of].
      eval_literals. reflexivity.
    - eval_literals. reflexivity.
    - unfold header_of, line_ok, well_shaped, row_in_bounds, col_in_bounds, line_row, line_col.
      simpl forallb. eval_tokens. cbn [nth]. eval_literals. reflexivity. }
  rewrite (read_csr_spec _ _ _ _ Hcoo).
  - rewrite sort_rows_id by (repeat constructor).
    cbv -[to_coord parse_num]. eval_coords. reflexivity.
  - repeat constructor; simpl; lia.
  - simpl. lia.
Qed.

End Examples.

(* ================================================================== *)
(** * The index and value arrays, whatever the entries are *)

Section Arrays.
Context {CT : CoordType} {VT : ValueType}.
Abbreviation Nonzero := (Nonzero.t value_t).

Lemma compress_loop_arrays (major minor : Nonzero -> Z) (l : list Nonzero) :
  forall current offsets indices values,
    let '(_, _, i, v) := compress_loop major minor l current offsets indices values in
    i = indices ++ map minor l /\ v = values ++ map Nonzero.value l.
Proof.
  induction l as [|nz l IH]; intros current offsets indices values; simpl.
  - now rewrite !app_nil_r.
  - destruct (advance current (major nz) offsets _) as [c o].
    specialize (IH c o (indices ++ [minor nz]) (values ++ [Nonzero.value nz])).
    destruct (compress_loop major minor l c o _ _) as [[[c' o'] i] v].
    destruct IH as [-> ->]. now rewrite <- !app_assoc.
Qed.

Lemma compress_arrays (major minor : Nonzero -> Z) (dimension : Z) (l : list Nonzero) :
  let '(_, i, v) := compress major minor dimension l in
  i = map minor l /\ v = map Nonzero.value l.
Proof.
  unfold compress.
  pose proof (compress_loop_arrays major minor l 0 [0] [] []) as H.
  destruct (compress_loop major minor l 0 [0] [] []) as [[[c o] i] v].
  destruct (advance c dimension o _) as [c' o']. exact H.
Qed.

Context {sorter : StdSort Nonzero}.

(** Every successful [read_csr] returns the declared dimensions, the
    number of stored entries converted to the coordinate type, and the
    column indices and values of the sorted coordinate list. *)
Lemma read_csr_arrays (file : option string) (header : Header.t) (coo : list Nonzero)
    (infile : istream) :
  read_coo file = Ok (header, coo, infile) ->
  exists row_offsets,
    read_csr file =
      Ok (CSRMatrix.mk (Header.num_rows header) (Header.num_cols header)
            (to_coord (Z.of_nat (List.length coo))) row_offsets
            (map Nonzero.col (std_sort row_major_less coo))
            (map Nonzero.value (std_sort row_major_less coo))).
Proof.
  intros Hcoo. rewrite (read_csr_unfold _ _ _ _ Hcoo).
  pose proof (compress_arrays Nonzero.row Nonzero.col (Header.num_rows header)
                (std_sort row_major_less coo)) as H.
  destruct (compress Nonzero.row Nonzero.col _ _) as [[o i] v]. destruct H as [-> ->].
  exists o. now rewrite length_map, length_sorted.
Qed.

Lemma read_csc_arrays (file : option string) (header : Header.t) (coo : list Nonzero)
    (infile : istream) :
  read_coo file = Ok (header, coo, infile) ->
  exists col_offsets,
    read_csc file =
      Ok (CSCMatrix.mk (Header.num_rows header) (Header.num_cols header)
            (to_coord (Z.of_nat (List.length coo))) col_offsets
            (map Nonzero.row (std_sort col_major_less coo))
            (map Nonzero.value (std_sort col_major_less coo))).
Proof.
  intros Hcoo. rewrite (read_csc_unfold _ _ _ _ Hcoo).
  pose proof (compress_arrays Nonzero.col Nonzero.row (Header.num_cols header)
                (std_sort col_major_less coo)) as H.
  destruct (compress Nonzero.col Nonzero.row _ _) as [[o i] v]. destruct H as [-> ->].
  exists o. now rewrite length_map, length_sorted.
Qed.

(** ** Symmetry expansion *)

(** The number of entries stored for a list of data lines of a symmetric
    file: two for a line off the diagonal, one for a line on it. *)
Lemma symmetric_entries_length (header : Header.t) (lines : list string) :
  Header.symmetry header = SYMMETRIC ->
  List.length (flat_map (line_entries header) lines)
  = (2 * List.length (filter off_diagonal lines)
     + List.length (filter (fun line => negb (off_diagonal line)) lines))%nat.
Proof.
  intros Hsym. induction lines as [|line lines IH]; [reflexivity|].
  cbn [flat_map filter]. rewrite length_app, IH. unfold line_entries. rewrite Hsym.
  destruct (off_diagonal line); simpl; lia.
Qed.

Lemma general_entries_length (header : Header.t) (lines : list string) :
  Header.symmetry header = GENERAL ->
  List.length (flat_map (line_entries header) lines) = List.length lines.
Proof.
  intros Hsym. induction lines as [|line lines IH]; [reflexivity|].
  cbn [flat_map]. rewrite length_app, IH. unfold line_entries. now rewrite Hsym.
Qed.

(** The symmetric example file, for any coordinate type that can hold the
    number 3. *)
Lemma symmetric_3x3_csr :
  3 <= max_value coord_type ->
  read_csr (Some symmetric_3x3)
  = Ok (CSRMatrix.mk 3 3 2 [0; 1; 2; 2] [1; 0] [parse_num "4.0"; parse_num "4.0"]).
Proof.
  intros Hmax. pose proof (min_value_nonpos coord_type) as Hmin.
  assert (Hcoo : read_coo (Some symmetric_3x3)
            = Ok (Header.mk SYMMETRIC REAL 3 3 1,
                  [Nonzero.mk 0 1 (parse_num "4.0"); Nonzero.mk 1 0 (parse_num "4.0")],
                  open "")).
  { change symmetric_3x3
      with (header_text "%%MatrixMarket matrix coordinate real symmetric" [] "3 3 1"
              ++ text ["1 2 4.0"] ++ "")%string.
    rewrite (read_coo_lines _ "real" "symmetric" [] _ "3" "3" "1");
      try reflexivity; try (simpl; tauto); try (repeat constructor).
    - unfold header_of, line_entries, mirror, line_entry, off_diagonal,
        line_row, line_col, line_value.
      simpl flat_map. eval_tokens.
      cbn [nth Header.symmetry Header.value_type symmetry_of value_format_of].
      eval_literals. reflexivity.
    - eval_literals. reflexivity.
    - unfold header_of, line_ok, well_shaped, row_in_bounds, col_in_bounds, line_row, line_col.
      simpl forallb. eval_tokens. cbn [nth]. eval_literals. reflexivity. }
  rewrite (read_csr_spec _ _ _ _ Hcoo).
  - rewrite sort_rows_id by (repeat constructor).
    cbv -[to_coord parse_num]. eval_coords. reflexivity.
  - repeat constructor; simpl; lia.
  - simpl. lia.
Qed.

(** C2 (as amended).  For every valid symmetric file, with [k] data lines
    off the diagonal and [d] on it: the coordinate list holds, line after
    line, the entry of the line followed by its mirror image (col, row,
    value) when the line is off the diagonal and nothing more when it is
    on it; the arrays returned by [read_csr] and [read_csc] have
    [2k + d] elements, and [num_nonzeros] is [2k + d] converted to the
    coordinate type, which is [2k + d] whenever that number is
    representable.  The 3 x 3 symmetric file with the single data line
    [1 2 4.0] decoded as CSR has 2 nonzeros, row offsets [0,1,2,2] and
    column indices [1,0]. *)
Theorem symmetric_doubling :
  (forall (contents : string) (header : Header.t) (f0 infile : istream)
          (coo : list Nonzero),
  read_header (open contents) = Ok (header, f0) ->
  read_coo (Some contents) = Ok (header, coo, infile) ->
  Header.symmetry header = SYMMETRIC ->
  let lines := file_lines header f0 in
  let k := Z.of_nat (List.length (filter off_diagonal lines)) in
  let d := Z.of_nat (List.length (filter (fun line => negb (off_diagonal line)) lines)) in
  coo = flat_map
          (fun line =>
             if off_diagonal line
             then [line_entry header line; mirror (line_entry header line)]
             else [line_entry header line])
          lines
  /\ (exists csr,
        read_csr (Some contents) = Ok csr
        /\ Z.of_nat (List.length (CSRMatrix.col_indices csr)) = 2 * k + d
        /\ Z.of_nat (List.length (CSRMatrix.values csr)) = 2 * k + d
        /\ CSRMatrix.num_nonzeros csr = to_coord (2 * k + d)
        /\ (2 * k + d <= max_value coord_type -> CSRMatrix.num_nonzeros csr = 2 * k + d))
  /\ (exists csc,
        read_csc (Some contents) = Ok csc
        /\ Z.of_nat (List.length (CSCMatrix.row_indices csc)) = 2 * k + d
        /\ Z.of_nat (List.length (CSCMatrix.values csc)) = 2 * k + d
        /\ CSCMatrix.num_nonzeros csc = to_coord (2 * k + d)
        /\ (2 * k + d <= max_value coord_type -> CSCMatrix.num_nonzeros csc = 2 * k + d)))
  /\ (3 <= max_value coord_type ->
      read_csr (Some symmetric_3x3)
      = Ok (CSRMatrix.mk 3 3 2 [0; 1; 2; 2] [1; 0] [parse_num "4.0"; parse_num "4.0"])).
Proof.
  split; [|exact symmetric_3x3_csr].
  intros contents header f0 infile coo Hh Hcoo Hsym lines k d.
  destruct (read_coo_inv _ _ _ _ Hcoo) as [contents' [f0' [Hfile [Hh' [Hall [Hflat _]]]]]].
  inversion Hfile; subst contents'. rewrite Hh in Hh'. inversion Hh'; subst f0'.
  fold lines in Hflat, Hall.
  assert (Hlen : Z.of_nat (List.length coo) = 2 * k + d).
  { rewrite Hflat, (symmetric_entries_length _ _ Hsym). unfold k, d. lia. }
  pose proof (min_value_nonpos coord_type) as Hmin.
  split; [|split].
  - rewrite Hflat. apply flat_map_ext. intros line. unfold line_entries. now rewrite Hsym.
  - destruct (read_csr_arrays _ _ _ _ Hcoo) as [o Hcsr]. eexists. split; [exact Hcsr|].
    cbn [CSRMatrix.col_indices CSRMatrix.values CSRMatrix.num_nonzeros].
    rewrite !length_map, length_sorted, Hlen. repeat split.
    intros Hfit. apply to_coord_id. unfold in_range. lia.
  - destruct (read_csc_arrays _ _ _ _ Hcoo) as [o Hcsc]. eexists. split; [exact Hcsc|].
    cbn [CSCMatrix.row_indices CSCMatrix.values CSCMatrix.num_nonzeros].
    rewrite !length_map, length_sorted, Hlen. repeat split.
    intros Hfit. apply to_coord_id. unfold in_range. lia.
Qed.

End Arrays.

(* ================================================================== *)
(** * What sorting does to entries with equal keys *)

Section Keys.
Context {CT : CoordType} {VT : ValueType}.
Abbreviation Nonzero := (Nonzero.t value_t).
Variables key1 key2 : Nonzero -> Z.

Lemma sorted_key_le (l : list Nonzero) :
  sorted_by (lex_less key1 key2) l -> StronglySorted (key_le key1 key2) l.
Proof.
  apply StronglySorted_weaken. intros x y _ _ H. apply lex_less_false in H.
  unfold key_le. lia.
Qed.

Lemma key_cases (a b : Z) (x : Nonzero) :
  (key_below key1 key2 a b x = true
   /\ key_at key1 key2 a b x = false /\ key_above key1 key2 a b x = false)
  \/ (key_below key1 key2 a b x = false
      /\ key_at key1 key2 a b x = true /\ key_above key1 key2 a b x = false)
  \/ (key_below key1 key2 a b x = false
      /\ key_at key1 key2 a b x = false /\ key_above key1 key2 a b x = true).
Proof.
  unfold key_below, key_at, key_above.
  destruct (Z.ltb_spec (key1 x) a), (Z.eqb_spec (key1 x) a), (Z.ltb_spec a (key1 x)),
    (Z.ltb_spec (key2 x) b), (Z.eqb_spec (key2 x) b), (Z.ltb_spec b (key2 x));
    try lia; simpl; tauto.
Qed.

Lemma key_le_not_below (a b : Z) (x y : Nonzero) :
  key_le key1 key2 x y ->
  key_below key1 key2 a b x = false -> key_below key1 key2 a b y = false.
Proof.
  unfold key_le, key_below. intros Hle.
  destruct (Z.ltb_spec (key1 x) a), (Z.eqb_spec (key1 x) a), (Z.ltb_spec (key2 x) b),
    (Z.ltb_spec (key1 y) a), (Z.eqb_spec (key1 y) a), (Z.ltb_spec (key2 y) b);
    simpl; intros; try reflexivity; try discriminate; lia.
Qed.

Lemma key_le_above (a b : Z) (x y : Nonzero) :
  key_le key1 key2 x y -> key_above key1 key2 a b x = true -> key_at key1 key2 a b y = false.
Proof.
  unfold key_le, key_above, key_at. intros Hle.
  destruct (Z.ltb_spec a (key1 x)), (Z.eqb_spec (key1 x) a), (Z.ltb_spec b (key2 x)),
    (Z.eqb_spec (key1 y) a), (Z.eqb_spec (key2 y) b);
    simpl; intros; try reflexivity; try discriminate; lia.
Qed.

(** In a sorted list the entries of one key are next to each other. *)
Lemma sorted_key_block (a b : Z) (l : list Nonzero) :
  StronglySorted (key_le key1 key2) l ->
  l = filter (key_below key1 key2 a b) l
      ++ filter (key_at key1 key2 a b) l ++ filter (key_above key1 key2 a b) l.
Proof.
  induction 1 as [|x l Hs IH Hx]; [reflexivity|].
  simpl filter.
  destruct (key_cases a b x) as [[Eb [Ea Eab]]|[[Eb [Ea Eab]]|[Eb [Ea Eab]]]];
    rewrite Eb, Ea, Eab.
  - simpl. f_equal. exact IH.
  - assert (Hb : filter (key_below key1 key2 a b) l = []).
    { apply filter_none. eapply Forall_impl; [|exact Hx].
      intros y Hy. exact (key_le_not_below a b x y Hy Eb). }
    rewrite Hb in *. simpl in *. f_equal. exact IH.
  - assert (Hb : filter (key_below key1 key2 a b) l = []).
    { apply filter_none. eapply Forall_impl; [|exact Hx].
      intros y Hy. exact (key_le_not_below a b x y Hy Eb). }
    assert (He : filter (key_at key1 key2 a b) l = []).
    { apply filter_none. eapply Forall_impl; [|exact Hx].
      intros y Hy. exact (key_le_above a b x y Hy Eab). }
    rewrite Hb, He in *. simpl in *. f_equal. exact IH.
Qed.

Lemma key_block (coo l : list Nonzero) (a b : Z) :
  Permutation coo l -> sorted_by (lex_less key1 key2) l ->
  Permutation (filter (key_at key1 key2 a b) l) (filter (key_at key1 key2 a b) coo)
  /\ exists lower higher,
       l = lower ++ filter (key_at key1 key2 a b) l ++ higher
       /\ Forall (fun nz => key_below key1 key2 a b nz = true) lower
       /\ Forall (fun nz => key_above key1 key2 a b nz = true) higher.
Proof.
  intros Hp Hs. split.
  - apply Permutation_filter. now symmetry.
  - exists (filter (key_below key1 key2 a b) l), (filter (key_above key1 key2 a b) l).
    split; [|split].
    + apply sorted_key_block, sorted_key_le, Hs.
    + apply Forall_forall. intros x Hx. now apply filter_In in Hx.
    + apply Forall_forall. intros x Hx. now apply filter_In in Hx.
Qed.

End Keys.

(* ================================================================== *)
(** * Sorting and the two compressions *)

Section Agreement.
Context {CT : CoordType} {VT : ValueType}.
Abbreviation Nonzero := (Nonzero.t value_t).
Context {sorter : StdSort Nonzero}.

(** C4 (as amended).  For every valid file the compressor sorts the
    coordinate list, after symmetry expansion, by the key (row, col) in
    [read_csr] and (col, row) in [read_csc], in ascending lexicographic
    order; the index and value arrays hold the sorted list.  No entry is
    deduplicated or summed: for every key the sorted list holds the same
    entries as the coordinate list, each as many times, and they are next
    to each other.  (The order of entries of equal key is the one
    [std::sort] leaves them in.) *)
Theorem sort_keeps_entries (file : option string) (header : Header.t)
    (coo : list Nonzero) (infile : istream) :
  read_coo file = Ok (header, coo, infile) ->
  (exists row_offsets,
     let sorted := std_sort row_major_less coo in
     read_csr file =
       Ok (CSRMatrix.mk (Header.num_rows header) (Header.num_cols header)
             (to_coord (Z.of_nat (List.length coo))) row_offsets
             (map Nonzero.col sorted) (map Nonzero.value sorted))
     /\ Permutation coo sorted
     /\ StronglySorted (key_le Nonzero.row Nonzero.col) sorted
     /\ forall row col,
          let same := filter (key_at Nonzero.row Nonzero.col row col) in
          Permutation (same sorted) (same coo)
          /\ exists lower higher,
               sorted = lower ++ same sorted ++ higher
               /\ Forall (fun nz => key_below Nonzero.row Nonzero.col row col nz = true) lower
               /\ Forall (fun nz => key_above Nonzero.row Nonzero.col row col nz = true) higher)
  /\ (exists col_offsets,
        let sorted := std_sort col_major_less coo in
        read_csc file =
          Ok (CSCMatrix.mk (Header.num_rows header) (Header.num_cols header)
                (to_coord (Z.of_nat (List.length coo))) col_offsets
                (map Nonzero.row sorted) (map Nonzero.value sorted))
        /\ Permutation coo sorted
        /\ StronglySorted (key_le Nonzero.col Nonzero.row) sorted
        /\ forall col row,
             let same := filter (key_at Nonzero.col Nonzero.row col row) in
             Permutation (same sorted) (same coo)
             /\ exists lower higher,
                  sorted = lower ++ same sorted ++ higher
                  /\ Forall (fun nz => key_below Nonzero.col Nonzero.row col row nz = true) lower
                  /\ Forall (fun nz => key_above Nonzero.col Nonzero.row col row nz = true) higher).
Proof.
  intros Hcoo. split.
  - destruct (read_csr_arrays _ _ _ _ Hcoo) as [o Hcsr]. exists o. cbv zeta.
    split; [exact Hcsr|]. split; [apply std_sort_perm|].
    split; [apply sorted_key_le, sorted_rows|].
    intros row col. apply key_block; [apply std_sort_perm|apply sorted_rows].
  - destruct (read_csc_arrays _ _ _ _ Hcoo) as [o Hcsc]. exists o. cbv zeta.
    split; [exact Hcsc|]. split; [apply std_sort_perm|].
    split; [apply sorted_key_le, sorted_cols|].
    intros col row. apply key_block; [apply std_sort_perm|apply sorted_cols].
Qed.

(** ** The triples of the two results *)

Lemma negative_dimension_empty (header : Header.t) (coo : list Nonzero) :
  Forall (entry_in_bounds header) coo ->
  Header.num_rows header < 0 \/ Header.num_cols header < 0 ->
  coo = [].
Proof.
  intros Hb Hneg. destruct coo as [|nz coo]; [reflexivity|].
  inversion Hb as [|? ? [H1 H2] _]; subst. lia.
Qed.

Lemma csr_triples_sorted (file : option string) (header : Header.t) (coo : list Nonzero)
    (infile : istream) (csr : CSRMatrix.t value_t) :
  read_coo file = Ok (header, coo, infile) ->
  square_if_symmetric header ->
  Z.of_nat (List.length coo) <= max_value coord_type ->
  read_csr file = Ok csr ->
  csr_triples csr = map triple (std_sort row_major_less coo).
Proof.
  intros Hcoo Hsq Hfit Hcsr.
  pose proof (read_coo_in_bounds _ _ _ _ Hcoo Hsq) as Hb.
  destruct (Z.le_gt_cases 0 (Header.num_rows header)) as [Hd|Hd].
  - rewrite (read_csr_spec _ _ _ _ Hcoo) in Hcsr.
    + inversion Hcsr; subst csr. unfold csr_triples.
      cbn [CSRMatrix.num_rows CSRMatrix.row_offsets CSRMatrix.col_indices CSRMatrix.values].
      rewrite (offsets_of_perm _ _ _ _ (std_sort_perm row_major_less coo)).
      apply (triples_of_compressed Nonzero.row Nonzero.col (fun i cv => (i, fst cv, snd cv))).
      * reflexivity.
      * eapply sorted_by_major, sorted_rows.
      * apply Forall_sorted. eapply Forall_impl; [|exact Hb]. intros nz [H1 _]. exact H1.
      * now rewrite length_sorted.
    + eapply Forall_impl; [|exact Hb]. intros nz [H1 _]. lia.
    + exact Hd.
  - assert (Hnil : coo = []) by (eapply negative_dimension_empty; [exact Hb|lia]).
    destruct (read_csr_arrays _ _ _ _ Hcoo) as [o Ho]. rewrite Ho in Hcsr.
    inversion Hcsr; subst csr. unfold csr_triples. cbn [CSRMatrix.num_rows].
    replace (Z.to_nat (Header.num_rows header)) with 0%nat by lia.
    subst coo. assert (Hs : std_sort row_major_less (@nil Nonzero) = []).
    { apply Permutation_nil, std_sort_perm. }
    now rewrite Hs.
Qed.

Lemma csc_triples_sorted (file : option string) (header : Header.t) (coo : list Nonzero)
    (infile : istream) (csc : CSCMatrix.t value_t) :
  read_coo file = Ok (header, coo, infile) ->
  square_if_symmetric header ->
  Z.of_nat (List.length coo) <= max_value coord_type ->
  read_csc file = Ok csc ->
  csc_triples csc = map triple (std_sort col_major_less coo).
Proof.
  intros Hcoo Hsq Hfit Hcsc.
  pose proof (read_coo_in_bounds _ _ _ _ Hcoo Hsq) as Hb.
  destruct (Z.le_gt_cases 0 (Header.num_cols header)) as [Hd|Hd].
  - rewrite (read_csc_spec _ _ _ _ Hcoo) in Hcsc.
    + inversion Hcsc; subst csc. unfold csc_triples.
      cbn [CSCMatrix.num_cols CSCMatrix.col_offsets CSCMatrix.row_indices CSCMatrix.values].
      rewrite (offsets_of_perm _ _ _ _ (std_sort_perm col_major_less coo)).
      apply (triples_of_compressed Nonzero.col Nonzero.row (fun j rv => (fst rv, j, snd rv))).
      * reflexivity.
      * eapply sorted_by_major, sorted_cols.
      * apply Forall_sorted. eapply Forall_impl; [|exact Hb]. intros nz [_ H2]. exact H2.
      * now rewrite length_sorted.
    + eapply Forall_impl; [|exact Hb]. intros nz [_ H2]. lia.
    + exact Hd.
  - assert (Hnil : coo = []) by (eapply negative_dimension_empty; [exact Hb|lia]).
    destruct (read_csc_arrays _ _ _ _ Hcoo) as [o Ho]. rewrite Ho in Hcsc.
    inversion Hcsc; subst csc. unfold csc_triples. cbn [CSCMatrix.num_cols].
    replace (Z.to_nat (Header.num_cols header)) with 0%nat by lia.
    subst coo. assert (Hs : std_sort col_major_less (@nil Nonzero) = []).
    { apply Permutation_nil, std_sort_perm. }
    now rewrite Hs.
Qed.

(** C9 (as amended).  For every file: [read_csr] and [read_csc] fail with
    the same error, hang, or succeed together; when they succeed they
    return the same [num_rows], [num_cols] and [num_nonzeros], and their
    index and value arrays are the row-major and the column-major sorting
    of one coordinate list.  If moreover the file is general or declares
    a square matrix and the number of stored entries is representable in
    [CoordType], the two results stand for the same multiset of (row,
    column, value) triples, that of the coordinate list. *)
Theorem csr_csc_agree (file : option string) :
  (forall e, read_csr file = Throw e <-> read_csc file = Throw e)
  /\ (read_csr file = Hang <-> read_csc file = Hang)
  /\ (succeeds (read_csr file) <-> succeeds (read_csc file))
  /\ (forall csr csc,
        read_csr file = Ok csr -> read_csc file = Ok csc ->
        CSRMatrix.num_rows csr = CSCMatrix.num_rows csc
        /\ CSRMatrix.num_cols csr = CSCMatrix.num_cols csc
        /\ CSRMatrix.num_nonzeros csr = CSCMatrix.num_nonzeros csc
        /\ exists header coo infile,
             read_coo file = Ok (header, coo, infile)
             /\ CSRMatrix.col_indices csr = map Nonzero.col (std_sort row_major_less coo)
             /\ CSRMatrix.values csr = map Nonzero.value (std_sort row_major_less coo)
             /\ CSCMatrix.row_indices csc = map Nonzero.row (std_sort col_major_less coo)
             /\ CSCMatrix.values csc = map Nonzero.value (std_sort col_major_less coo)
             /\ (square_if_symmetric header ->
                 Z.of_nat (List.length coo) <= max_value coord_type ->
                 Permutation (csr_triples csr) (map triple coo)
                 /\ Permutation (csc_triples csc) (map triple coo)
                 /\ Permutation (csr_triples csr) (csc_triples csc))).
Proof.
  unfold succeeds.
  destruct (read_coo file) as [[[header coo] infile]|e|] eqn:Hcoo.
  - destruct (read_csr_arrays _ _ _ _ Hcoo) as [ro Hcsr].
    destruct (read_csc_arrays _ _ _ _ Hcoo) as [co Hcsc].
    split; [|split; [|split; [|]]].
    + intros e. rewrite Hcsr, Hcsc. split; discriminate.
    + rewrite Hcsr, Hcsc. split; discriminate.
    + rewrite Hcsr, Hcsc. split; eauto.
    + intros csr csc Hr Hc.
      pose proof Hr as Hr'. pose proof Hc as Hc'.
      rewrite Hcsr in Hr'. rewrite Hcsc in Hc'. inversion Hr'; inversion Hc'; subst.
      repeat (split; [reflexivity|]).
      exists header, coo, infile. repeat (split; [reflexivity|]).
      intros Hsq Hfit.
      rewrite (csr_triples_sorted _ _ _ _ _ Hcoo Hsq Hfit Hr).
      rewrite (csc_triples_sorted _ _ _ _ _ Hcoo Hsq Hfit Hc).
      assert (H1 : Permutation (map triple (std_sort row_major_less coo)) (map triple coo))
        by (apply Permutation_map; symmetry; apply std_sort_perm).
      assert (H2 : Permutation (map triple (std_sort col_major_less coo)) (map triple coo))
        by (apply Permutation_map; symmetry; apply std_sort_perm).
      split; [exact H1|]. split; [exact H2|]. rewrite H1. now symmetry.
  - rewrite (read_csr_error _ _ Hcoo), (read_csc_error _ _ Hcoo).
    split; [|split; [|split]].
    + intros e'. split; intros H; inversion H; reflexivity.
    + split; discriminate.
    + split; intros [x Hx]; discriminate.
    + intros csr csc Hr. discriminate.
  - assert (Hr : read_csr file = Hang) by (unfold read_csr; now rewrite Hcoo).
    assert (Hc : read_csc file = Hang) by (unfold read_csc; now rewrite Hcoo).
    rewrite Hr, Hc. split; [|split; [|split]].
    + intros e. split; discriminate.
    + split; auto.
    + split; intros [x Hx]; discriminate.
    + intros csr csc Hr'. discriminate.
Qed.

End Agreement.

(* ================================================================== *)
(** * Validation of the header and of the data lines *)

Section Validation.
Context {CT : CoordType} {VT : ValueType}.
Abbreviation Nonzero := (Nonzero.t value_t).
Context {sorter : StdSort Nonzero}.

Lemma read_coo_header (contents : string) (header : Header.t) (f0 : istream) :
  read_header (open contents) = Ok (header, f0) ->
  (forallb (line_ok header) (file_lines header f0) = true ->
   succeeds (read_csr (Some contents)) /\ succeeds (read_csc (Some contents)))
  /\ (forallb (line_ok header) (file_lines header f0) = false ->
      is_format_error (read_csr (Some contents))
      /\ is_format_error (read_csc (Some contents))).
Proof.
  intros Hh. split; intros Hall.
  - pose proof (read_coo_intro _ _ _ Hh Hall) as Hcoo.
    destruct (read_csr_arrays _ _ _ _ Hcoo) as [ro Hr].
    destruct (read_csc_arrays _ _ _ _ Hcoo) as [co Hc].
    unfold succeeds. rewrite Hr, Hc. eauto.
  - assert (Hcoo : exists what, read_coo (Some contents) = Throw (invalid_argument what)).
    { unfold read_coo. rewrite Hh. cbn [bind]. unfold file_lines in Hall.
      destruct (read_nonzeros_error _ _ _ (@nil Nonzero) Hall) as [what ->]. now exists what. }
    destruct Hcoo as [what Hcoo]. unfold is_format_error.
    rewrite (read_csr_error _ _ Hcoo), (read_csc_error _ _ Hcoo). eauto.
Qed.

Lemma ok_not_format_error {A : Type} (o : outcome A) :
  succeeds o -> ~ is_format_error o.
Proof. intros [a ->] [what H]. discriminate. Qed.

Lemma in_bounds_iff (header : Header.t) (line : string) :
  row_in_bounds header line && col_in_bounds header line = false
  <-> ~ (1 <= line_row line <= Header.num_rows header)
      \/ ~ (1 <= line_col line <= Header.num_cols header).
Proof.
  unfold row_in_bounds, col_in_bounds.
  destruct (Z.leb_spec 1 (line_row line)),
    (Z.leb_spec (line_row line) (Header.num_rows header)),
    (Z.leb_spec 1 (line_col line)),
    (Z.leb_spec (line_col line) (Header.num_cols header)); simpl;
    split; intros; try discriminate; try reflexivity; try lia;
    (left; lia) || (right; lia).
Qed.

(** C5.  The bounds check of a data line is made on the parsed 1-indexed
    coordinates: a data line with the right number of tokens is refused
    with a format error exactly when its row is not in [1, num_rows] or
    its column is not in [1, num_cols], and an accepted line stores the
    entry (row - 1, col - 1).  For a file whose header is read and whose
    data lines have the right shape, [read_csr] and [read_csc] fail with
    a format error exactly when some data line is out of bounds; and a
    data line whose row is 0 or [num_rows + 1] makes both fail with a
    format error whatever the other lines are. *)
Theorem bounds_check :
  (forall header line (nonzeros : list Nonzero),
     well_shaped header line = true ->
     (is_format_error (read_data_line header line nonzeros)
      <-> ~ (1 <= line_row line <= Header.num_rows header)
          \/ ~ (1 <= line_col line <= Header.num_cols header))
     /\ (1 <= line_row line <= Header.num_rows header ->
         1 <= line_col line <= Header.num_cols header ->
         exists mirrored,
           read_data_line header line nonzeros
           = Ok (nonzeros
                 ++ Nonzero.mk (line_row line - 1) (line_col line - 1)
                      (line_value header line) :: mirrored)))
  /\ (forall contents header f0,
        read_header (open contents) = Ok (header, f0) ->
        Forall (fun line => well_shaped header line = true) (file_lines header f0) ->
        let out_of_bounds line :=
          ~ (1 <= line_row line <= Header.num_rows header)
          \/ ~ (1 <= line_col line <= Header.num_cols header) in
        (is_format_error (read_csr (Some contents))
         <-> Exists out_of_bounds (file_lines header f0))
        /\ (is_format_error (read_csc (Some contents))
            <-> Exists out_of_bounds (file_lines header f0)))
  /\ (forall contents header f0 line,
        read_header (open contents) = Ok (header, f0) ->
        In line (file_lines header f0) ->
        line_row line = 0 \/ line_row line = Header.num_rows header + 1 ->
        is_format_error (read_csr (Some contents))
        /\ is_format_error (read_csc (Some contents))).
Proof.
  split; [|split].
  - intros header line nonzeros Hshape. rewrite read_data_line_spec.
    unfold line_ok. rewrite Hshape. cbn [andb]. split.
    + rewrite <- in_bounds_iff.
      destruct (row_in_bounds header line && col_in_bounds header line) eqn:Hb.
      * split; [|discriminate]. intros [what H]. discriminate.
      * split; [intros _; reflexivity|]. intros _.
        destruct (line_error_format header line) as [w ->]. now exists w.
    + intros Hr Hc.
      assert (Hb : row_in_bounds header line && col_in_bounds header line = true).
      { destruct (row_in_bounds header line && col_in_bounds header line) eqn:Hb;
          [reflexivity|]. apply in_bounds_iff in Hb. tauto. }
      rewrite Hb. unfold line_entries, line_entry.
      destruct (Header.symmetry header); [|destruct (off_diagonal line)]; eexists; reflexivity.
  - intros contents header f0 Hh Hshape out_of_bounds.
    assert (Hiff : forallb (line_ok header) (file_lines header f0) = false
                   <-> Exists out_of_bounds (file_lines header f0)).
    { induction Hshape as [|line lines Hl _ IH]; simpl.
      - split; [discriminate|]. intros H. inversion H.
      - unfold line_ok at 1. rewrite Hl. cbn [andb]. rewrite Exists_cons, <- IH.
        unfold out_of_bounds at 1. rewrite <- in_bounds_iff.
        destruct (row_in_bounds header line && col_in_bounds header line); simpl.
        + split; [intros H; now right|]. intros [H|H]; [discriminate|exact H].
        + split; [intros _; now left|intros _; reflexivity]. }
    destruct (read_coo_header _ _ _ Hh) as [Hok Herr].
    rewrite <- Hiff.
    destruct (forallb (line_ok header) (file_lines header f0)).
    + destruct (Hok eq_refl) as [Hr Hc].
      split; (split; [|discriminate]); intros H;
        [apply ok_not_format_error in Hr|apply ok_not_format_error in Hc]; contradiction.
    + destruct (Herr eq_refl) as [Hr Hc]. split; split; auto.
  - intros contents header f0 line Hh Hin Hrow.
    apply (read_coo_header _ _ _ Hh).
    destruct (forallb (line_ok header) (file_lines header f0)) eqn:Hall; [|reflexivity].
    rewrite forallb_forall in Hall. specialize (Hall line Hin).
    unfold line_ok, row_in_bounds in Hall.
    apply andb_prop in Hall as [Hall _]. apply andb_prop in Hall as [_ Hall].
    apply andb_prop in Hall as [H1 H2]. apply Z.leb_le in H1, H2. lia.
Qed.

(** C7.  The header parser fails with a format error unless the first
    line lexes on the space into exactly five tokens, [%%MatrixMarket],
    [matrix], [coordinate], one of [real], [integer], [pattern] and one of
    [general], [symmetric]; the error is that of the whole decode.  A
    header that is returned carries the value format and the symmetry
    named by the fourth and fifth tokens. *)
Theorem format_line_check (contents : string) :
  (~ format_line_accepted (first_line contents) ->
   is_format_error (read_header (open contents))
   /\ is_format_error (read_csr (Some contents))
   /\ is_format_error (read_csc (Some contents)))
  /\ (forall header f0,
        read_header (open contents) = Ok (header, f0) ->
        exists fmt sym,
          Tokens (first_line contents) space
          = ["%%MatrixMarket"; "matrix"; "coordinate"; fmt; sym]
          /\ (fmt = "real" /\ Header.value_type header = REAL
              \/ fmt = "integer" /\ Header.value_type header = INTEGER
              \/ fmt = "pattern" /\ Header.value_type header = PATTERN)
          /\ (sym = "general" /\ Header.symmetry header = GENERAL
              \/ sym = "symmetric" /\ Header.symmetry header = SYMMETRIC)).
Proof.
  split.
  - intros Hbad. destruct (read_header_rejects (open contents) Hbad) as [what Hh].
    unfold is_format_error.
    pose proof (read_coo_header_error (VT := VT) _ _ Hh) as Hcoo.
    rewrite (read_csr_error _ _ Hcoo), (read_csc_error _ _ Hcoo), Hh.
    repeat split; eexists; reflexivity.
  - intros header f0 Hh. unfold first_line. now apply read_header_ok_inv in Hh.
Qed.

End Validation.

(* ================================================================== *)
(** * The dimension line and the numeric tokens *)

Section Dimensions.
Context {CT : CoordType} {VT : ValueType}.
Abbreviation Nonzero := (Nonzero.t value_t).

Lemma parse_int_blank (token : string) :
  skipws token = EmptyString -> parse_int token = to_coord indeterminate.
Proof. intros Hb. unfold parse_int, extract_int. now rewrite Hb. Qed.

(** C8.  After a well-formed format line the header parser skips every
    line beginning with [%]; the first other line is the dimension line.
    If it lexes on the space into exactly three tokens they are parsed in
    order as [num_rows], [num_cols], [num_nonzeros] and the stream is left
    after that line; with any other number of tokens the parser fails with
    a format error.  A numeric token that is not a number raises no
    error: [parse_int] yields 0 for it (and the contents of its
    uninitialised local for a blank token), on the dimension line and on
    the data lines alike, and the value token of a data line is not
    checked at all. *)
Theorem dimension_line :
  (forall format_line fmt sym comments dims rest,
     one_line format_line ->
     Tokens format_line space = ["%%MatrixMarket"; "matrix"; "coordinate"; fmt; sym] ->
     In fmt ["real"; "integer"; "pattern"] -> In sym ["general"; "symmetric"] ->
     Forall comment_line comments ->
     starts_with_percent dims = false -> one_line dims ->
     (forall rows cols nonzeros,
        Tokens dims space = [rows; cols; nonzeros] ->
        read_header (open (header_text format_line comments dims ++ rest)%string)
        = Ok (Header.mk (symmetry_of sym) (value_format_of fmt)
                (parse_int rows) (parse_int cols) (parse_int nonzeros),
              open rest))
     /\ (List.length (Tokens dims space) <> 3%nat ->
         read_header (open (header_text format_line comments dims ++ rest)%string)
         = Throw (invalid_argument "Bad Header: missing matrix size")))
  /\ (forall token, not_a_number token = true -> parse_int token = 0)
  /\ (forall token, skipws token = EmptyString -> parse_int token = to_coord indeterminate)
  /\ (forall header line row col value (nonzeros : list Nonzero),
        Header.value_type header <> PATTERN ->
        Tokens line space = [row; col; value] ->
        1 <= parse_int row <= Header.num_rows header ->
        1 <= parse_int col <= Header.num_cols header ->
        exists mirrored,
          read_data_line header line nonzeros
          = Ok (nonzeros
                ++ Nonzero.mk (parse_int row - 1) (parse_int col - 1) (parse_num value)
                   :: mirrored)).
Proof.
  split; [|split; [|split]].
  - intros format_line fmt sym comments dims rest Hl Ht Hfmt Hsym Hc Hd Hn. split.
    + intros rows cols nonzeros Hdims.
      exact (read_header_lines format_line fmt sym comments dims rows cols nonzeros rest
               Hl Ht Hfmt Hsym Hc Hd Hn Hdims).
    + intros Hlen. unfold header_text. rewrite !string_app_assoc.
      rewrite (read_header_text format_line fmt sym comments dims rest Hl Ht Hfmt Hsym Hc Hd Hn).
      unfold read_dimensions.
      destruct (Tokens dims space) as [|a [|b [|c [|d l]]]]; try reflexivity.
      now contradiction Hlen.
  - exact parse_int_not_a_number.
  - exact parse_int_blank.
  - intros header line row col value nonzeros Hp Ht Hr Hc.
    rewrite read_data_line_spec.
    assert (Hok : line_ok header line = true).
    { unfold line_ok, well_shaped, expected_tokens, row_in_bounds, col_in_bounds,
        line_row, line_col. rewrite Ht. cbn [nth List.length].
      destruct (Header.value_type header); try contradiction; simpl; lia. }
    rewrite Hok. unfold line_entries, mirror, line_entry, line_row, line_col, line_value.
    rewrite Ht. cbn [nth].
    destruct (Header.value_type header); try contradiction;
      (destruct (Header.symmetry header); [|destruct (off_diagonal line)]);
      eexists; reflexivity.
Qed.

End Dimensions.

(* ================================================================== *)
(** * The part of a file the decoder reads *)

Section Prefix.
Context {CT : CoordType} {VT : ValueType}.
Abbreviation Nonzero := (Nonzero.t value_t).

Lemma read_header_unfold (f : istream) :
  read_header f =
    let '(f1, line) := getline f EmptyString newline in
    '(value_fmt, symmetry) <- check_format_line line ;;
    match skip_comments (skip_comments_fuel f1) f1 line with
    | None => Hang
    | Some (f2, line2) => read_dimensions symmetry value_fmt f2 line2
    end.
Proof.
  unfold read_header, check_format_line.
  destruct (getline f EmptyString newline) as [f1 line].
  destruct (negb (size (Tokens line space) =? 5)); [reflexivity|].
  destruct (pop (Tokens line space)) as [t1 r1]. destruct (negb _); [reflexivity|].
  destruct (pop r1) as [t2 r2]. destruct (negb _); [reflexivity|].
  destruct (pop r2) as [t3 r3]. destruct (negb _); [reflexivity|].
  destruct (pop r3) as [t4 r4]. destruct (parse_value_fmt t4); try reflexivity.
  cbn [bind]. destruct (pop r4) as [t5 r5]. destruct (parse_symmetry t5); try reflexivity.
  cbn [bind]. destruct (skip_comments _ f1 line) as [[f2 line2]|]; [|reflexivity].
  unfold read_dimensions. rewrite (size_length _ 3).
  destruct (Tokens line2 space) as [|x1 [|x2 [|x3 [|x4 l]]]]; reflexivity.
Qed.

Lemma check_format_line_returns (line : string) : check_format_line line <> Hang.
Proof.
  unfold check_format_line, parse_value_fmt, parse_symmetry.
  repeat (match goal with
          | |- context [if ?b then _ else _] => destruct b
          | |- context [let '(_, _) := ?p in _] => destruct p
          end; cbn [bind]; try discriminate).
Qed.

(** [Hang] is only returned when the comment-skipping loop of the source
    never ends. *)
Lemma read_header_hang (f : istream) :
  read_header f = Hang ->
  forall fuel,
    skip_comments fuel (fst (getline f EmptyString newline))
      (snd (getline f EmptyString newline)) = None.
Proof.
  rewrite read_header_unfold.
  destruct (getline f EmptyString newline) as [f1 line]. cbn [fst snd].
  pose proof (check_format_line_returns line) as Hret.
  destruct (check_format_line line) as [[vf sy]|e|]; cbn [bind];
    try discriminate; try contradiction.
  destruct (skip_comments (skip_comments_fuel f1) f1 line) as [[f2 line2]|] eqn:Hskip.
  - unfold read_dimensions.
    destruct (Tokens line2 space) as [|x1 [|x2 [|x3 [|x4 l]]]]; discriminate.
  - intros _. unfold skip_comments_fuel in Hskip.
    apply (skip_comments_hangs (S (S (String.length (buf f1))))); [lia|exact Hskip].
Qed.

(** A file that ends in its format line, without a line feed: the loop
    reads the end of the file again and again with the format line, which
    begins with [%], still in [line]. *)
Lemma unterminated_format_line_hangs :
  read_header (open "%%MatrixMarket matrix coordinate real general") = Hang.
Proof. reflexivity. Qed.

Lemma read_nonzeros_lines (n : nat) (header : Header.t) :
  forall infile nonzeros,
    read_nonzeros n header infile nonzeros =
      (nonzeros' <- read_lines header (data_lines n infile) nonzeros ;;
       Ok (nonzeros', after_lines n infile)).
Proof.
  induction n as [|n IH]; intros infile nonzeros; [reflexivity|].
  cbn [read_nonzeros data_lines after_lines].
  destruct (getline infile EmptyString newline) as [f line]. cbn [read_lines fst].
  destruct (read_data_line header line nonzeros); cbn [bind]; [apply IH|reflexivity..].
Qed.

(** The outcome of [read_coo] on a file that begins with a format line,
    comment lines, a dimension line and the declared number of data
    lines: it is computed from these lines, and the stream is left at the
    first character after them. *)
Lemma read_coo_prefix (format_line : string) (comments : list string) (dims : string)
    (lines : list string) (rest : string) :
  one_line format_line ->
  Forall comment_line comments ->
  starts_with_percent dims = false -> one_line dims ->
  Forall one_line lines ->
  List.length lines = Z.to_nat (parse_int (nth 2 (Tokens dims space) EmptyString)) ->
  read_coo (Some (header_text format_line comments dims ++ text lines ++ rest)%string)
  = ('(header, nonzeros) <- decode_lines format_line dims lines ;;
     Ok (header, nonzeros, open rest)).
Proof.
  intros Hl Hc Hd Hn Hlines Hlen. unfold read_coo, decode_lines, header_text.
  rewrite read_header_unfold, !string_app_assoc, !LF_app.
  rewrite (getline_line _ _ _ Hl).
  destruct (check_format_line format_line) as [[vf sy]|e|]; cbn [bind]; try reflexivity.
  rewrite (skip_comments_more_fuel _ _ _ _
             (skip_comments_text comments dims (text lines ++ rest) format_line Hc Hd Hn)).
  2: { unfold skip_comments_fuel, open. cbn [buf].
       pose proof (text_length comments (dims ++ String newline (text lines ++ rest))). lia. }
  unfold read_dimensions.
  destruct (Tokens dims space) as [|a [|b [|c [|d l]]]]; cbn [bind]; try reflexivity.
  cbn [nth] in Hlen. cbn [Header.num_nonzeros]. rewrite <- Hlen.
  rewrite read_nonzeros_lines.
  destruct (data_lines_text lines rest Hlines) as [-> ->].
  destruct (read_lines _ lines []); reflexivity.
Qed.

Context {sorter : StdSort Nonzero}.

(** C10.  The result of the decode depends only on the header lines and
    on the first [num_nonzeros] data lines: for a file that begins with a
    format line, comment lines, a dimension line and as many data lines as
    the dimension line declares, each ended by a line feed, [read_csr] and
    [read_csc] return the same result whatever follows these lines, and a
    successful decode leaves the stream at the first character after the
    last data line: nothing that follows has been read. *)
Theorem trailing_content_ignored (format_line : string) (comments : list string)
    (dims : string) (lines : list string) (rest rest' : string) :
  one_line format_line ->
  Forall comment_line comments ->
  starts_with_percent dims = false -> one_line dims ->
  Forall one_line lines ->
  List.length lines = Z.to_nat (parse_int (nth 2 (Tokens dims space) EmptyString)) ->
  let prefix := (header_text format_line comments dims ++ text lines)%string in
  read_csr (Some (prefix ++ rest)%string) = read_csr (Some (prefix ++ rest')%string)
  /\ read_csc (Some (prefix ++ rest)%string) = read_csc (Some (prefix ++ rest')%string)
  /\ forall header coo infile,
       read_coo (Some (prefix ++ rest)%string) = Ok (header, coo, infile) ->
       infile = open rest
       /\ read_coo (Some (prefix ++ rest')%string) = Ok (header, coo, open rest').
Proof.
  intros Hl Hc Hd Hn Hlines Hlen prefix. unfold prefix.
  rewrite !string_app_assoc.
  pose proof (read_coo_prefix format_line comments dims lines rest Hl Hc Hd Hn Hlines Hlen)
    as H1.
  pose proof (read_coo_prefix format_line comments dims lines rest' Hl Hc Hd Hn Hlines Hlen)
    as H2.
  unfold read_csr, read_csc. rewrite H1, H2.
  destruct (decode_lines format_line dims lines) as [[h nz]|e|]; cbn [bind].
  - repeat split; try reflexivity; inversion H; subst; reflexivity.
  - repeat split; try reflexivity; discriminate.
  - repeat split; try reflexivity; discriminate.
Qed.

End Prefix.

(* ================================================================== *)
(** * A symmetric file with more entries than [unsigned int] can count *)

Lemma text_header (format_line dims : string) (lines : list string) :
  text (format_line :: dims :: lines)
  = (header_text format_line [] dims ++ text lines ++ "")%string.
Proof.
  unfold header_text. cbn [text]. rewrite !string_app_assoc, string_app_nil_r.
  reflexivity.
Qed.

Lemma filter_repeat {A : Type} (f : A -> bool) (x : A) (n : nat) :
  f x = true -> filter f (repeat x n) = repeat x n.
Proof. intros Hx. induction n; simpl; [reflexivity|]. now rewrite Hx, IHn. Qed.

Lemma filter_repeat_none {A : Type} (f : A -> bool) (x : A) (n : nat) :
  f x = false -> filter f (repeat x n) = [].
Proof. intros Hx. induction n; simpl; [reflexivity|]. now rewrite Hx. Qed.

Section BigSymmetric.
Context {VT : ValueType}.
Abbreviation Nonzero := (Nonzero.t value_t).
Context {sorter : StdSort Nonzero}.
Local Existing Instance coord_unsigned_int.

Lemma big_symmetric_header (n : nat) :
  read_header (open (big_symmetric n))
  = Ok (big_header, open (text (repeat "1 2" n) ++ "")).
Proof.
  unfold big_symmetric. rewrite text_header.
  rewrite (read_header_lines _ "pattern" "symmetric" [] _ "2" "2" "2147483648");
    try reflexivity; try (simpl; tauto). constructor.
Qed.

Lemma big_symmetric_lines (n : nat) :
  Z.of_nat n = 2147483648 ->
  file_lines big_header (open (text (repeat "1 2" n) ++ "")) = repeat "1 2" n.
Proof.
  intros Hn. unfold file_lines. cbn [big_header Header.num_nonzeros].
  replace (Z.to_nat 2147483648) with (List.length (repeat "1 2"%string n))
    by (rewrite repeat_length; lia).
  apply data_lines_text. now apply Forall_repeat.
Qed.

Lemma big_symmetric_coo (n : nat) :
  Z.of_nat n = 2147483648 ->
  read_coo (Some (big_symmetric n))
  = Ok (big_header, flat_map (fun _ => pair_12) (repeat "1 2"%string n), open "").
Proof.
  intros Hn. unfold big_symmetric. rewrite text_header.
  rewrite (read_coo_lines _ "pattern" "symmetric" [] _ "2" "2" "2147483648").
  - change (header_of "pattern" "symmetric" "2" "2" "2147483648") with big_header.
    rewrite (flat_map_ext_in (line_entries big_header) (fun _ => pair_12)); [reflexivity|].
    intros line Hin. apply repeat_spec in Hin. subst line. reflexivity.
  - reflexivity.
  - reflexivity.
  - simpl. tauto.
  - simpl. tauto.
  - constructor.
  - reflexivity.
  - reflexivity.
  - reflexivity.
  - rewrite repeat_length. change (parse_int "2147483648") with 2147483648. lia.
  - now apply Forall_repeat.
  - apply forallb_repeat. reflexivity.
Qed.

(** The matrix [read_csr] returns for it: [num_nonzeros] and the last row
    offset have wrapped around to 0. *)
Lemma big_symmetric_csr (n : nat) :
  Z.of_nat n = 2147483648 ->
  exists coo infile csr,
    read_coo (Some (big_symmetric n)) = Ok (big_header, coo, infile)
    /\ read_csr (Some (big_symmetric n)) = Ok csr
    /\ CSRMatrix.num_rows csr = 2
    /\ CSRMatrix.num_nonzeros csr = 0
    /\ List.length (CSRMatrix.values csr) = (2 * n)%nat
    /\ offset_at (CSRMatrix.row_offsets csr) 1 = 2147483648
    /\ offset_at (CSRMatrix.row_offsets csr) 2 = 0.
Proof.
  intros Hn. pose proof (big_symmetric_coo n Hn) as Hcoo.
  eexists _, _, _. split; [exact Hcoo|]. split.
  - apply (read_csr_spec _ _ _ _ Hcoo).
    + apply Forall_flat_map_repeat. repeat constructor; simpl; lia.
    + simpl. lia.
  - cbn [CSRMatrix.num_rows CSRMatrix.num_nonzeros CSRMatrix.values CSRMatrix.row_offsets
         big_header Header.num_rows].
    rewrite length_map, length_sorted, length_flat_map_repeat.
    rewrite !offset_at_offsets_of by lia.
    rewrite !(count_below_flat_map_repeat Nonzero.row _ (fun _ => pair_12)).
    change (count_below Nonzero.row 1 pair_12) with 1%nat.
    change (count_below Nonzero.row 2 pair_12) with 2%nat.
    change (List.length pair_12) with 2%nat.
    replace (Z.of_nat (n * 1)) with 2147483648 by lia.
    replace (Z.of_nat (n * 2)) with 4294967296 by lia.
    repeat split; try reflexivity. lia.
Qed.

(** Its data lines: all of them off the diagonal. *)
Lemma big_symmetric_off_diagonal (n : nat) :
  Z.of_nat n = 2147483648 ->
  let lines := file_lines big_header (open (text (repeat "1 2" n) ++ "")) in
  Z.of_nat (List.length (filter off_diagonal lines)) = 2147483648
  /\ Z.of_nat (List.length (filter (fun line => negb (off_diagonal line)) lines)) = 0.
Proof.
  intros Hn lines. unfold lines. rewrite (big_symmetric_lines n Hn).
  rewrite filter_repeat by reflexivity. rewrite filter_repeat_none by reflexivity.
  rewrite repeat_length. simpl. lia.
Qed.

(** The invariant fails on that matrix: the row offsets decrease. *)
Lemma big_symmetric_not_invariant (n : nat) :
  Z.of_nat n = 2147483648 ->
  exists header coo infile csr,
    read_coo (Some (big_symmetric n)) = Ok (header, coo, infile)
    /\ read_csr (Some (big_symmetric n)) = Ok csr
    /\ ~ compressed_invariant Nonzero.row Nonzero.col
           (CSRMatrix.num_rows csr) (CSRMatrix.num_nonzeros csr)
           (CSRMatrix.row_offsets csr) (CSRMatrix.col_indices csr)
           (CSRMatrix.values csr) coo.
Proof.
  intros Hn.
  destruct (big_symmetric_csr n Hn)
    as [coo [infile [csr [Hcoo [Hcsr [Hrows [_ [_ [H1 H2]]]]]]]]].
  exists big_header, coo, infile, csr. split; [exact Hcoo|]. split; [exact Hcsr|].
  intros [_ _ _ Hmono _ _ _]. rewrite Hrows in Hmono.
  assert (H12 : offset_at (CSRMatrix.row_offsets csr) 1
                <= offset_at (CSRMatrix.row_offsets csr) 2) by (apply Hmono; lia).
  rewrite H1, H2 in H12. clear - H12. lia.
Qed.

(** The number of nonzeros it reports is not the number of stored
    entries. *)
Lemma big_symmetric_count (n : nat) :
  Z.of_nat n = 2147483648 ->
  exists header f0 csr,
    read_header (open (big_symmetric n)) = Ok (header, f0)
    /\ Header.symmetry header = SYMMETRIC
    /\ read_csr (Some (big_symmetric n)) = Ok csr
    /\ let lines := file_lines header f0 in
       let k := Z.of_nat (List.length (filter off_diagonal lines)) in
       let d := Z.of_nat (List.length (filter (fun line => negb (off_diagonal line)) lines)) in
       k = 2147483648 /\ d = 0
       /\ CSRMatrix.num_nonzeros csr = 0
       /\ CSRMatrix.num_nonzeros csr <> 2 * k + d.
Proof.
  intros Hn.
  destruct (big_symmetric_csr n Hn)
    as [coo [infile [csr [Hcoo [Hcsr [_ [Hnnz _]]]]]]].
  destruct (big_symmetric_off_diagonal n Hn) as [Hk Hd].
  exists big_header, (open (text (repeat "1 2" n) ++ "")), csr.
  split; [apply big_symmetric_header|]. split; [reflexivity|]. split; [exact Hcsr|].
  cbv zeta. rewrite Hk, Hd, Hnnz. repeat split. discriminate.
Qed.

(** The triples the two results stand for: the CSR result has lost the
    entries of row 1, the CSC result those of column 1. *)
Lemma big_symmetric_triples (n : nat) :
  Z.of_nat n = 2147483648 ->
  exists csr csc,
    read_csr (Some (big_symmetric n)) = Ok csr
    /\ read_csc (Some (big_symmetric n)) = Ok csc
    /\ In (0, 1, value_one) (csr_triples csr)
    /\ ~ In (0, 1, value_one) (csc_triples csc).
Proof.
  intros Hn. pose proof (big_symmetric_coo n Hn) as Hcoo.
  set (coo := flat_map (fun _ : string => pair_12) (repeat "1 2"%string n)) in *.
  assert (Hb : Forall (fun nz : Nonzero => 0 <= Nonzero.row nz <= 2 /\ 0 <= Nonzero.col nz <= 2)
                 coo).
  { apply Forall_flat_map_repeat. repeat constructor; simpl; lia. }
  assert (Hoff : forall major, count_below major 0 pair_12 = 0%nat ->
            count_below major 1 pair_12 = 1%nat -> count_below major 2 pair_12 = 2%nat ->
            offset_at (offsets_of major 2 coo) 0 = 0
            /\ offset_at (offsets_of major 2 coo) 1 = 2147483648
            /\ offset_at (offsets_of major 2 coo) 2 = 0).
  { intros major H0 H1 H2. rewrite !offset_at_offsets_of by lia. unfold coo.
    rewrite !(count_below_flat_map_repeat major _ (fun _ => pair_12)), H0, H1, H2.
    replace (Z.of_nat (n * 0)) with 0 by lia.
    replace (Z.of_nat (n * 1)) with 2147483648 by lia.
    replace (Z.of_nat (n * 2)) with 4294967296 by lia.
    repeat split; reflexivity. }
  eexists _, _. split; [|split].
  - apply (read_csr_spec _ _ _ _ Hcoo).
    + eapply Forall_impl; [|exact Hb]. simpl. intros nz [H _]. exact H.
    + simpl. lia.
  - apply (read_csc_spec _ _ _ _ Hcoo).
    + eapply Forall_impl; [|exact Hb]. simpl. intros nz [_ H]. exact H.
    + simpl. lia.
  - cbn [big_header Header.num_rows Header.num_cols]. split.
    + unfold csr_triples.
      cbn [CSRMatrix.num_rows CSRMatrix.row_offsets CSRMatrix.col_indices CSRMatrix.values].
      apply in_flat_map. exists 0. split; [apply zrange_In; lia|].
      destruct (Hoff Nonzero.row eq_refl eq_refl eq_refl) as [H0 [H1 _]].
      change (0 + 1) with 1. rewrite H0, H1.
      rewrite combine_map, slice_map.
      assert (Hseg : slice (std_sort row_major_less coo) 0 2147483648
                     = with_major Nonzero.row 0 (std_sort row_major_less coo)).
      { rewrite <- (segment_by_major Nonzero.row 0 _
                      (sorted_by_major _ _ _ (sorted_rows coo))).
        rewrite <- !(count_below_perm Nonzero.row _ _ _ (std_sort_perm row_major_less coo)).
        unfold coo.
        rewrite !(count_below_flat_map_repeat Nonzero.row _ (fun _ => pair_12)).
        change (count_below Nonzero.row 0 pair_12) with 0%nat.
        change (count_below Nonzero.row (0 + 1) pair_12) with 1%nat.
        rewrite <- Hn. change 0 with (Z.of_nat 0). rewrite slice_nat.
        rewrite Nat.mul_0_r, Nat.mul_1_r. reflexivity. }
      rewrite Hseg, map_map.
      apply in_map_iff. exists (Nonzero.mk 0 1 value_one). split; [reflexivity|].
      apply filter_In. split; [|reflexivity].
      eapply Permutation_in; [apply std_sort_perm|].
      unfold coo. destruct n as [|n']; [discriminate Hn|]. simpl. now left.
    + unfold csc_triples.
      cbn [CSCMatrix.num_cols CSCMatrix.col_offsets CSCMatrix.row_indices CSCMatrix.values].
      destruct (Hoff Nonzero.col eq_refl eq_refl eq_refl) as [H0 [H1 H2]].
      intros Hin. apply in_flat_map in Hin as [j [Hj Hin]].
      apply zrange_In in Hj.
      assert (Hcases : j = 0 \/ j = 1) by lia. destruct Hcases; subst j.
      * apply in_map_iff in Hin as [rv [Heq _]]. inversion Heq.
      * change (1 + 1) with 2 in Hin. rewrite H1, H2 in Hin.
        rewrite slice_empty in Hin by lia. exact Hin.
Qed.

End BigSymmetric.

(* ================================================================== *)
(** * Further properties of the reader

    Properties of the functions of [matrixmarket.hpp] and of the
    demonstration program beyond those of the decoded format: how a line
    is cut into tokens, what [parse_int] accepts, which files are
    rejected, which ones are never finished, what the result owes to
    [std::sort], and what the program prints. *)

(** ** The tokens of a line *)

Lemma extract_until_split (delim : ascii) (s l rest : string) :
  extract_until delim s = (l, Some rest) ->
  s = (l ++ String delim rest)%string /\ lacks delim l = true.
Proof.
  revert l rest. induction s as [|c s IH]; intros l rest H; simpl in H; [discriminate|].
  destruct (Ascii.eqb c delim) eqn:E.
  - apply Ascii.eqb_eq in E. subst c. injection H as <- <-. now split.
  - destruct (extract_until delim s) as [l' r'] eqn:E'. injection H as <- ->.
    destruct (IH l' rest eq_refl) as [-> Hl]. simpl. rewrite E. now split.
Qed.

Lemma extract_until_lacks (delim : ascii) (s l : string) :
  extract_until delim s = (l, None) -> lacks delim s = true.
Proof.
  revert l. induction s as [|c s IH]; intros l H; simpl in *; [reflexivity|].
  destruct (Ascii.eqb c delim); [discriminate|].
  destruct (extract_until delim s) as [l' [r'|]]; [discriminate|].
  simpl. now apply (IH l').
Qed.

Lemma extract_until_none (delim : ascii) (s : string) :
  lacks delim s = true -> extract_until delim s = (s, None).
Proof.
  induction s as [|c s IH]; intros H; simpl in *; [reflexivity|].
  apply andb_prop in H. destruct H as [Hc Hs]. apply negb_true_iff in Hc.
  rewrite Hc, (IH Hs). reflexivity.
Qed.

Lemma Tokens_loop_acc (sep : ascii) (n : nat) :
  forall iss token acc,
    Tokens_loop n iss token sep acc = acc ++ Tokens_loop n iss token sep [].
Proof.
  induction n as [|n IH]; intros iss token acc; simpl.
  - now rewrite app_nil_r.
  - destruct (getline iss token sep) as [iss' token'].
    destruct (failbit iss'); [now rewrite app_nil_r|].
    rewrite IH, (IH _ _ ([] ++ [token'])). now rewrite app_assoc.
Qed.

Lemma Tokens_loop_token (sep : ascii) (n : nat) (iss : istream) (token token' : string)
    (acc : list string) :
  good iss = true ->
  Tokens_loop n iss token sep acc = Tokens_loop n iss token' sep acc.
Proof.
  intros Hg. destruct n as [|n]; [reflexivity|]. simpl. unfold getline. now rewrite Hg.
Qed.

Lemma Tokens_empty (sep : ascii) : Tokens EmptyString sep = [].
Proof. reflexivity. Qed.

Lemma Tokens_single (sep : ascii) (l : string) :
  lacks sep l = true -> l <> EmptyString -> Tokens l sep = [l].
Proof.
  intros Hl Hne. unfold Tokens. simpl. unfold getline. simpl.
  rewrite (extract_until_none _ _ Hl).
  destruct l as [|c l]; [congruence|]. simpl.
  destruct (String.length l); reflexivity.
Qed.

Lemma Tokens_cons (sep : ascii) (l rest : string) :
  lacks sep l = true ->
  Tokens (l ++ String sep rest) sep = l :: Tokens rest sep.
Proof.
  intros Hl. unfold Tokens.
  change (Tokens_loop (S (String.length (l ++ String sep rest))) (open (l ++ String sep rest))
            EmptyString sep [])
    with (let '(iss', token') := getline (open (l ++ String sep rest)) EmptyString sep in
          if failbit iss' then []
          else Tokens_loop (String.length (l ++ String sep rest)) iss' token' sep ([] ++ [token'])).
  unfold getline. change (good (open (l ++ String sep rest))) with true.
  cbn [buf open]. rewrite (extract_until_found _ _ _ Hl).
  cbn [failbit app]. rewrite Tokens_loop_acc. cbn [app]. f_equal.
  change {| buf := rest; eofbit := false; failbit := false |} with (open rest).
  rewrite (Tokens_loop_token sep _ _ l EmptyString) by reflexivity.
  apply (Tokens_loop_fuel sep _ _ (open rest));
    cbn [buf open]; rewrite ?string_app_length; simpl; lia.
Qed.

Lemma ends_with_lacks (c : ascii) (s : string) : lacks c s = true -> ends_with c s = false.
Proof.
  induction s as [|c' s IH]; intros H; simpl in *; [reflexivity|].
  apply andb_prop in H. destruct H as [Hc Hs]. apply negb_true_iff in Hc.
  destruct s; [exact Hc|]. now apply IH.
Qed.

Lemma ends_with_app (c : ascii) (l rest : string) :
  ends_with c (l ++ String c rest)
  = match rest with EmptyString => true | _ => ends_with c rest end.
Proof.
  induction l as [|c' l IH]; simpl.
  - destruct rest; [apply Ascii.eqb_refl|reflexivity].
  - rewrite <- IH. destruct (l ++ String c rest)%string eqn:E; [|reflexivity].
    destruct l; discriminate.
Qed.

Lemma join_cons (sep : ascii) (t : string) (ts : list string) :
  ts <> [] -> join sep (t :: ts) = (t ++ String sep (join sep ts))%string.
Proof. destruct ts; [congruence|reflexivity]. Qed.

(** A string is its tokens with the separator between them, and one more
    separator after them when it ends with one. *)
Lemma Tokens_rejoin (str : string) (sep : ascii) :
  str = (join sep (Tokens str sep)
         ++ (if ends_with sep str then String sep EmptyString else EmptyString))%string
  /\ (Tokens str sep = [] <-> str = EmptyString).
Proof.
  remember (String.length str) as n eqn:Hn.
  revert str Hn. induction n as [n IH] using lt_wf_ind. intros str Hn.
  destruct (extract_until sep str) as [l [rest|]] eqn:E.
  - destruct (extract_until_split _ _ _ _ E) as [-> Hl].
    rewrite (Tokens_cons _ _ _ Hl), ends_with_app.
    destruct (IH (String.length rest)) with (str := rest) as [H2 H3];
      [subst n; rewrite string_app_length; simpl; lia|reflexivity|].
    split.
    + destruct (Tokens rest sep) as [|t ts] eqn:Et.
      * rewrite (proj1 H3 eq_refl). simpl. reflexivity.
      * rewrite join_cons by discriminate.
        destruct rest as [|c rest]; [now destruct H3 as [_ H3]; specialize (H3 eq_refl)|].
        rewrite string_app_assoc. simpl. do 2 f_equal. exact H2.
    + split; [discriminate|]. intros H. destruct l; discriminate.
  - pose proof (extract_until_lacks _ _ _ E) as Hl.
    destruct str as [|c str]; [split; [reflexivity|split; reflexivity]|].
    rewrite (Tokens_single _ _ Hl) by discriminate.
    rewrite (ends_with_lacks _ _ Hl).
    split; [now rewrite string_app_nil_r|]. split; discriminate.
Qed.

(** X1.  The tokens of a string never contain the separator, and the
    string is its tokens joined by the separator, followed by one more
    separator exactly when the string ends with one; there is no token
    exactly when the string is empty. *)
Theorem Tokens_join (str : string) (sep : ascii) :
  Forall (fun token => lacks sep token = true) (Tokens str sep)
  /\ str = (join sep (Tokens str sep)
            ++ (if ends_with sep str then String sep EmptyString else EmptyString))%string
  /\ (Tokens str sep = [] <-> str = EmptyString).
Proof.
  split; [|apply Tokens_rejoin].
  remember (String.length str) as n eqn:Hn.
  revert str Hn. induction n as [n IH] using lt_wf_ind. intros str Hn.
  destruct (extract_until sep str) as [l [rest|]] eqn:E.
  - destruct (extract_until_split _ _ _ _ E) as [-> Hl].
    rewrite (Tokens_cons _ _ _ Hl). constructor; [exact Hl|].
    apply (IH (String.length rest)); [|reflexivity].
    subst n. rewrite string_app_length. simpl. lia.
  - pose proof (extract_until_lacks _ _ _ E) as Hl.
    destruct str as [|c str]; [constructor|].
    rewrite (Tokens_single _ _ Hl) by discriminate. now repeat constructor.
Qed.

(** X2.  Splitting what was joined.  For tokens that do not contain the
    separator, the tokens of their concatenation with separators are the
    tokens themselves when the last one is not empty; an empty last token
    is lost; and one separator after the last token changes nothing. *)
Theorem Tokens_of_join (sep : ascii) (tokens : list string) :
  Forall (fun token => lacks sep token = true) tokens ->
  (tokens = [] \/ last tokens EmptyString <> EmptyString ->
   Tokens (join sep tokens) sep = tokens)
  /\ (last tokens EmptyString = EmptyString ->
      Tokens (join sep tokens) sep = removelast tokens)
  /\ (tokens <> [] -> Tokens (join sep tokens ++ String sep EmptyString) sep = tokens).
Proof.
  induction tokens as [|t ts IH]; intros H.
  - split; [reflexivity|]. split; [reflexivity|congruence].
  - inversion H as [|? ? Ht Hts]; subst. destruct (IH Hts) as [IH1 [IH2 IH3]].
    destruct ts as [|t' ts].
    + split; [|split].
      * intros [Hd|Hd]; [discriminate|]. simpl in *. now apply Tokens_single.
      * simpl. now intros ->.
      * intros _. simpl. now rewrite Tokens_cons.
    + rewrite join_cons by discriminate.
      rewrite string_app_assoc. change (String sep (join sep (t' :: ts)) ++ String sep "")%string
        with (String sep (join sep (t' :: ts) ++ String sep "")).
      rewrite !Tokens_cons by assumption.
      change (last (t :: t' :: ts) "") with (last (t' :: ts) "").
      change (removelast (t :: t' :: ts)) with (t :: removelast (t' :: ts)).
      split; [|split].
      * intros [Hd|Hd]; [discriminate|]. now rewrite IH1 by now right.
      * intros Hd. now rewrite IH2.
      * intros _. now rewrite IH3.
Qed.

(** ** Spaces in a data line *)

(** A separator inside a string: the tokens before it and the tokens
    after it. *)
Lemma Tokens_app (sep : ascii) (a b : string) :
  Tokens (a ++ String sep b) sep = Tokens (a ++ String sep EmptyString) sep ++ Tokens b sep.
Proof.
  remember (String.length a) as n eqn:Hn.
  revert a Hn. induction n as [n IH] using lt_wf_ind. intros a Hn.
  destruct (extract_until sep a) as [l [rest|]] eqn:E.
  - destruct (extract_until_split _ _ _ _ E) as [-> Hl].
    rewrite !string_app_assoc.
    change (String sep rest ++ String sep b)%string with (String sep (rest ++ String sep b)).
    change (String sep rest ++ String sep "")%string with (String sep (rest ++ String sep "")).
    rewrite (Tokens_cons sep l (rest ++ String sep b) Hl).
    rewrite (Tokens_cons sep l (rest ++ String sep "") Hl).
    rewrite (IH (String.length rest)) with (a := rest);
      [reflexivity|subst n; rewrite string_app_length; simpl; lia|reflexivity].
  - pose proof (extract_until_lacks _ _ _ E) as Hl.
    now rewrite !Tokens_cons by assumption.
Qed.

(** One separator at the end of a string that does not end with one
    adds no token. *)
Lemma Tokens_trailing (sep : ascii) (str : string) :
  str <> EmptyString -> ends_with sep str = false ->
  Tokens (str ++ String sep EmptyString) sep = Tokens str sep.
Proof.
  remember (String.length str) as n eqn:Hn.
  revert str Hn. induction n as [n IH] using lt_wf_ind. intros str Hn Hne He.
  destruct (extract_until sep str) as [l [rest|]] eqn:E.
  - destruct (extract_until_split _ _ _ _ E) as [-> Hl].
    rewrite ends_with_app in He. rewrite string_app_assoc.
    change (String sep rest ++ String sep "")%string with (String sep (rest ++ String sep "")).
    rewrite (Tokens_cons sep l (rest ++ String sep "") Hl), (Tokens_cons sep l rest Hl).
    f_equal. destruct rest as [|c rest]; [discriminate|].
    apply (IH (String.length (String c rest)));
      [subst n; rewrite string_app_length; simpl; lia|reflexivity|discriminate|exact He].
  - pose proof (extract_until_lacks _ _ _ E) as Hl.
    rewrite (Tokens_cons sep str "" Hl), (Tokens_single sep str Hl Hne). reflexivity.
Qed.

Section Shape.
Context {CT : CoordType} {VT : ValueType}.
Abbreviation Nonzero := (Nonzero.t value_t).

Lemma ill_shaped_line (header : Header.t) (line : string) (nonzeros : list Nonzero) :
  well_shaped header line = false ->
  read_data_line header line nonzeros = Throw (ill_shaped header).
Proof.
  intros H. rewrite read_data_line_spec. unfold line_ok, line_error. rewrite H. reflexivity.
Qed.

Lemma well_shaped_length (header : Header.t) (line line' : string) :
  well_shaped header line = true ->
  List.length (Tokens line' space) <> List.length (Tokens line space) ->
  well_shaped header line' = false.
Proof.
  unfold well_shaped. intros H Hne. apply Nat.eqb_eq in H. apply Nat.eqb_neq. congruence.
Qed.

(** X3.  The reading loop splits a data line at every single space.  A
    line without any space (a blank line, a line separated by tabs) is
    ill-shaped; a space before a well-shaped line, or a second space next
    to one of its spaces, makes it ill-shaped; one space after a line that
    does not end with a space changes nothing. *)
Theorem separators_strict (header : Header.t) (line : string) (nonzeros : list Nonzero) :
  (lacks space line = true ->
   read_data_line header line nonzeros = Throw (ill_shaped header))
  /\ (well_shaped header line = true ->
      read_data_line header (String space line) nonzeros = Throw (ill_shaped header))
  /\ (forall a b, line = (a ++ String space b)%string -> well_shaped header line = true ->
      read_data_line header (a ++ String space (String space b)) nonzeros
      = Throw (ill_shaped header))
  /\ (line <> EmptyString -> ends_with space line = false ->
      read_data_line header (line ++ String space EmptyString) nonzeros
      = read_data_line header line nonzeros).
Proof.
  split; [|split; [|split]].
  - intros Hl. apply ill_shaped_line. unfold well_shaped, expected_tokens.
    destruct line as [|c line].
    + rewrite Tokens_empty. now destruct (Header.value_type header).
    + rewrite (Tokens_single _ _ Hl) by discriminate. now destruct (Header.value_type header).
  - intros Hw. apply ill_shaped_line. apply (well_shaped_length _ _ _ Hw).
    change (String space line) with ("" ++ String space line)%string.
    rewrite (Tokens_cons space EmptyString line eq_refl). simpl. lia.
  - intros a b -> Hw. apply ill_shaped_line. apply (well_shaped_length _ _ _ Hw).
    rewrite (Tokens_app space a b), (Tokens_app space a (String space b)).
    change (String space b) with ("" ++ String space b)%string.
    rewrite (Tokens_cons space EmptyString b eq_refl). rewrite !length_app. simpl. lia.
  - intros Hne He. unfold read_data_line. now rewrite (Tokens_trailing space line Hne He).
Qed.

End Shape.

(** ** What [parse_int] accepts *)

Lemma skipws_app (s suffix : string) :
  skipws s <> EmptyString -> skipws (s ++ suffix) = (skipws s ++ suffix)%string.
Proof.
  induction s as [|c s IH]; simpl; [congruence|].
  destruct (isspace c); [exact IH|reflexivity].
Qed.

Lemma accumulate_digits_app (s suffix : string) :
  starts_with_digit suffix = false ->
  forall acc, accumulate_digits (s ++ suffix) acc = accumulate_digits s acc.
Proof.
  intros Hs. induction s as [|c s IH]; intros acc; simpl.
  - destruct suffix as [|c suffix]; [reflexivity|]. simpl in *.
    now destruct (digit_of c).
  - destruct (digit_of c); [apply IH|reflexivity].
Qed.

Lemma digit_prefix_app (s suffix : string) :
  starts_with_digit suffix = false -> digit_prefix (s ++ suffix) = digit_prefix s.
Proof.
  intros Hs. destruct s as [|c s].
  - destruct suffix as [|c suffix]; [reflexivity|]. simpl in *. now destruct (digit_of c).
  - unfold digit_prefix. cbn [append]. destruct (digit_of c) eqn:E; [|reflexivity].
    change (String c (s ++ suffix)) with (String c s ++ suffix)%string.
    now rewrite accumulate_digits_app.
Qed.

Lemma skipws_blank (ws s : string) :
  skipws ws = EmptyString -> skipws (ws ++ s) = skipws s.
Proof.
  induction ws as [|c ws IH]; intros H; [reflexivity|].
  simpl in *. destruct (isspace c); [now apply IH|discriminate].
Qed.

Lemma skipws_digit (s : string) : starts_with_digit s = true -> skipws s = s.
Proof.
  destruct s as [|c s]; [reflexivity|]. unfold starts_with_digit, digit_of. simpl.
  unfold isspace.
  destruct (Z.leb_spec 48 (Z.of_N (N_of_ascii c))); cbn [andb]; [|discriminate].
  intros _. destruct (Z.eqb_spec (Z.of_N (N_of_ascii c)) 32); [lia|].
  destruct (Z.leb_spec 9 (Z.of_N (N_of_ascii c))); [|reflexivity].
  destruct (Z.leb_spec (Z.of_N (N_of_ascii c)) 13); [lia|reflexivity].
Qed.

(** X4.  [parse_int] reads the number at the start of the token and
    never looks at the rest: what follows a token that is not blank is
    ignored as long as it does not begin with a digit (so [2.9] is read as
    [2]), white space before the token is skipped, and a plus sign before
    the digits is accepted. *)
Theorem parse_int_lenient `{CoordType} (token : string) :
  (forall suffix,
     skipws token <> EmptyString -> starts_with_digit suffix = false ->
     parse_int (token ++ suffix) = parse_int token)
  /\ (forall blank, skipws blank = EmptyString -> parse_int (blank ++ token) = parse_int token)
  /\ (starts_with_digit token = true -> parse_int (String "+" token) = parse_int token).
Proof.
  split; [|split].
  - intros suffix Ht Hs. unfold parse_int, extract_int. rewrite (skipws_app _ _ Ht).
    destruct (skipws token) as [|c rest]; [congruence|]. cbn [append].
    destruct (Ascii.eqb c "-" || Ascii.eqb c "+").
    + now rewrite (digit_prefix_app rest suffix Hs).
    + change (String c (rest ++ suffix)) with (String c rest ++ suffix)%string.
      now rewrite (digit_prefix_app (String c rest) suffix Hs).
  - intros blank Hb. unfold parse_int, extract_int. now rewrite (skipws_blank _ _ Hb).
  - intros Hd. unfold parse_int, extract_int. rewrite (skipws_digit _ Hd).
    change (skipws (String "+" token)) with (String "+"%char token).
    cbn [Ascii.eqb Bool.eqb orb andb].
    destruct token as [|c token]; [discriminate|].
    unfold starts_with_digit in Hd. destruct (digit_of c) eqn:Ec; [|discriminate].
    destruct (digit_of_not_sign _ _ Ec) as [-> ->]. reflexivity.
Qed.

(** ** Comments among the data lines *)

Section DataComments.
Context {CT : CoordType} {VT : ValueType}.
Abbreviation Nonzero := (Nonzero.t value_t).
Context {sorter : StdSort Nonzero}.

Lemma Tokens_first (c : ascii) (line : string) :
  Ascii.eqb c space = false ->
  exists first others, Tokens (String c line) space = String c first :: others.
Proof.
  intros Hc. destruct (extract_until space (String c line)) as [l [rest|]] eqn:E.
  - destruct (extract_until_split _ _ _ _ E) as [Hs Hl]. rewrite Hs, (Tokens_cons _ _ _ Hl).
    destruct l as [|c' l].
    + simpl in Hs. injection Hs as -> _. now rewrite Ascii.eqb_refl in Hc.
    + simpl in Hs. injection Hs as -> _. now exists l, (Tokens rest space).
  - pose proof (extract_until_lacks _ _ _ E) as Hl.
    rewrite (Tokens_single _ _ Hl) by discriminate. now exists line, [].
Qed.

Lemma comment_not_ok (header : Header.t) (line : string) :
  starts_with_percent line = true \/ line = EmptyString -> line_ok header line = false.
Proof.
  intros [Hp| ->].
  - destruct line as [|c line]; [discriminate|]. simpl in Hp. apply Ascii.eqb_eq in Hp. subst c.
    destruct (Tokens_first "%" line eq_refl) as [first [others Ht]].
    unfold line_ok, row_in_bounds, line_row. rewrite Ht. cbn [nth].
    rewrite (parse_int_not_a_number (String "%" first) eq_refl).
    now rewrite andb_false_r.
  - unfold line_ok, well_shaped, expected_tokens. rewrite Tokens_empty.
    now destruct (Header.value_type header).
Qed.

(** X5.  Comments are skipped before the dimension line only: among the
    data lines, a line that begins with [%] and an empty line are format
    errors, for [read_csr] and [read_csc] alike. *)
Theorem comment_in_data_rejected :
  (forall header line (nonzeros : list Nonzero),
     starts_with_percent line = true \/ line = EmptyString ->
     is_format_error (read_data_line header line nonzeros))
  /\ (forall contents header f0 line,
        read_header (open contents) = Ok (header, f0) ->
        In line (file_lines header f0) ->
        starts_with_percent line = true \/ line = EmptyString ->
        is_format_error (read_csr (Some contents))
        /\ is_format_error (read_csc (Some contents))).
Proof.
  split.
  - intros header line nonzeros H. rewrite read_data_line_spec, (comment_not_ok _ _ H).
    destruct (line_error_format header line) as [what ->]. now exists what.
  - intros contents header f0 line Hh Hin H.
    apply (read_coo_header contents header f0 Hh).
    apply not_true_is_false. intros Hall. rewrite forallb_forall in Hall.
    specialize (Hall line Hin). rewrite (comment_not_ok _ _ H) in Hall. discriminate.
Qed.

End DataComments.

(** ** Reading past the end of the file *)

Lemma data_lines_not_good (n : nat) :
  forall f, good f = false -> data_lines n f = repeat EmptyString n.
Proof.
  induction n as [|n IH]; intros f Hf; [reflexivity|].
  cbn [data_lines repeat]. rewrite (getline_not_good _ _ _ Hf). f_equal.
  apply IH. unfold good. cbn [failbit]. now rewrite orb_true_r.
Qed.

Lemma data_lines_last (k : nat) (last : string) :
  lacks newline last = true ->
  data_lines (List.length (unterminated last) + k) (open last)
  = unterminated last ++ repeat EmptyString k.
Proof.
  intros Hl. destruct last as [|c last].
  - destruct k as [|k]; [reflexivity|]. cbn [unterminated List.length Nat.add app].
    cbn [data_lines repeat]. unfold getline. cbn. f_equal.
    now apply data_lines_not_good.
  - cbn [unterminated List.length Nat.add app data_lines]. unfold getline.
    change (good (open (String c last))) with true. cbn [buf open].
    rewrite (extract_until_none _ _ Hl). f_equal. now apply data_lines_not_good.
Qed.

Lemma data_lines_app (lines : list string) (k : nat) (rest : string) :
  Forall one_line lines ->
  data_lines (List.length lines + k) (open (text lines ++ rest))
  = lines ++ data_lines k (open rest).
Proof.
  induction 1 as [|l lines Hl _ IH]; [reflexivity|].
  cbn [List.length Nat.add data_lines text app].
  rewrite !string_app_assoc, LF_app, (getline_line _ _ _ Hl). now rewrite IH.
Qed.

Section Truncated.
Context {CT : CoordType} {VT : ValueType}.
Abbreviation Nonzero := (Nonzero.t value_t).
Context {sorter : StdSort Nonzero}.

Lemma read_lines_stop (header : Header.t) (lines more : list string) (line : string) :
  forall nonzeros : list Nonzero,
    forallb (line_ok header) lines = true -> line_ok header line = false ->
    read_lines header (lines ++ line :: more) nonzeros = Throw (line_error header line).
Proof.
  induction lines as [|l lines IH]; intros nonzeros Hok Hbad; cbn [app read_lines].
  - now rewrite read_data_line_spec, Hbad.
  - cbn [forallb] in Hok. apply andb_prop in Hok. destruct Hok as [Hl Hok].
    rewrite read_data_line_spec, Hl. cbn [bind]. now apply IH.
Qed.

(** X6.  A file that ends before the declared number of data lines is a
    format error: the reading loop goes on reading at the end of the file,
    gets an empty line and rejects it.  When the lines that are present
    are accepted, the error is that of an ill-shaped line. *)
Theorem truncated_file (format_line fmt sym : string) (comments : list string)
    (dims rows cols nonzeros : string) (lines : list string) (last : string) :
  one_line format_line ->
  Tokens format_line space = ["%%MatrixMarket"; "matrix"; "coordinate"; fmt; sym] ->
  In fmt ["real"; "integer"; "pattern"] -> In sym ["general"; "symmetric"] ->
  Forall comment_line comments ->
  starts_with_percent dims = false -> one_line dims ->
  Tokens dims space = [rows; cols; nonzeros] ->
  Forall one_line lines -> one_line last ->
  let header := header_of fmt sym rows cols nonzeros in
  let contents := (header_text format_line comments dims ++ text lines ++ last)%string in
  (List.length (lines ++ unterminated last) < Z.to_nat (Header.num_nonzeros header))%nat ->
  is_format_error (read_csr (Some contents))
  /\ is_format_error (read_csc (Some contents))
  /\ (forallb (line_ok header) (lines ++ unterminated last) = true ->
      read_csr (Some contents) = Throw (ill_shaped header)
      /\ read_csc (Some contents) = Throw (ill_shaped header)).
Proof.
  intros Hf Ht Hfmt Hsym Hc Hd Hdl Hdt Hlines Hlast header contents Hlen.
  pose proof (read_header_lines format_line fmt sym comments dims rows cols nonzeros
                (text lines ++ last) Hf Ht Hfmt Hsym Hc Hd Hdl Hdt) as Hh.
  fold header contents in Hh.
  assert (Hdata : exists k,
             file_lines header (open (text lines ++ last))
             = (lines ++ unterminated last) ++ EmptyString :: repeat EmptyString k).
  { unfold file_lines. rewrite length_app in Hlen.
    exists (Z.to_nat (Header.num_nonzeros header)
            - S (List.length lines + List.length (unterminated last)))%nat.
    replace (Z.to_nat (Header.num_nonzeros header))
      with (List.length lines
            + (List.length (unterminated last)
               + S (Z.to_nat (Header.num_nonzeros header)
                    - S (List.length lines + List.length (unterminated last)))))%nat at 1 by lia.
    rewrite (data_lines_app _ _ _ Hlines), (data_lines_last _ _ Hlast).
    now rewrite <- app_assoc. }
  destruct Hdata as [k Hdata].
  assert (Hbad : line_ok header EmptyString = false) by (apply comment_not_ok; now right).
  assert (Hall : forallb (line_ok header) (file_lines header (open (text lines ++ last))) = false).
  { rewrite Hdata, forallb_app. cbn [forallb]. rewrite Hbad. now rewrite andb_false_r. }
  destruct (proj2 (read_coo_header contents header _ Hh) Hall) as [E1 E2].
  split; [exact E1|]. split; [exact E2|]. intros Hok.
  assert (Hcoo : read_coo (Some contents) = Throw (ill_shaped header)).
  { unfold read_coo. rewrite Hh. cbn [bind]. rewrite read_nonzeros_lines.
    fold (file_lines header (open (text lines ++ last))). rewrite Hdata.
    rewrite (read_lines_stop _ _ _ _ _ Hok Hbad). cbn [bind].
    unfold line_error, ill_shaped, well_shaped, expected_tokens. rewrite Tokens_empty.
    now destruct (Header.value_type header). }
  split; [now apply read_csr_error|now apply read_csc_error].
Qed.

End Truncated.

(** ** Exceptions, empty matrices and sizes *)

Lemma check_format_line_throws (line : string) (e : exception) :
  check_format_line line = Throw e -> exists what, e = invalid_argument what.
Proof.
  unfold check_format_line, parse_value_fmt, parse_symmetry.
  repeat (match goal with
          | |- context [if ?b then _ else _] => destruct b
          | |- context [let '(_, _) := ?p in _] => destruct p
          end; cbn [bind]; try discriminate);
    intros H; injection H as <-; eexists; reflexivity.
Qed.

Lemma data_lines_length (n : nat) : forall f, List.length (data_lines n f) = n.
Proof.
  induction n as [|n IH]; intros f; [reflexivity|]. cbn [data_lines].
  destruct (getline f EmptyString newline). cbn [List.length]. now rewrite IH.
Qed.

Section Failures.
Context {CT : CoordType} {VT : ValueType}.
Abbreviation Nonzero := (Nonzero.t value_t).

Lemma read_header_throws (f : istream) (e : exception) :
  read_header f = Throw e -> exists what, e = invalid_argument what.
Proof.
  rewrite read_header_unfold. destruct (getline f EmptyString newline) as [f1 line].
  pose proof (check_format_line_throws line) as Hc.
  destruct (check_format_line line) as [[vf sy]|e'|]; cbn [bind]; try discriminate.
  - destruct (skip_comments _ f1 line) as [[f2 line2]|]; [|discriminate].
    unfold read_dimensions.
    destruct (Tokens line2 space) as [|x1 [|x2 [|x3 [|x4 l]]]]; try discriminate;
      intros H; injection H as <-; eexists; reflexivity.
  - intros H. injection H as <-. now apply Hc.
Qed.

Lemma read_coo_throws (contents : string) (e : exception) :
  @read_coo CT VT (Some contents) = Throw e -> exists what, e = invalid_argument what.
Proof.
  unfold read_coo. destruct (read_header (open contents)) as [[header f0]|e'|] eqn:Hh;
    cbn [bind]; try discriminate.
  - destruct (forallb (line_ok header) (file_lines header f0)) eqn:Hall.
    + unfold file_lines in Hall. rewrite (read_nonzeros_ok _ _ _ _ Hall). discriminate.
    + destruct (read_nonzeros_error _ header f0 (@nil Nonzero) Hall) as [what Hw].
      rewrite Hw. cbn [bind]. intros H. injection H as <-. now exists what.
  - intros H. injection H as <-. now apply (read_header_throws _ _ Hh).
Qed.

Context {sorter : StdSort Nonzero}.

(** X7.  [read_csr] and [read_csc] throw a pointer
    ([throw new std::invalid_argument]) exactly when the file cannot be
    opened: a handler for [std::invalid_argument] does not catch it, and
    every other exception of the decoder is thrown by value. *)
Theorem open_failure (file : option string) :
  (file = None ->
   read_csr file = Throw (new_invalid_argument "Could not open file for reading")
   /\ read_csc file = Throw (new_invalid_argument "Could not open file for reading")
   /\ ~ is_format_error (read_csr file) /\ ~ is_format_error (read_csc file))
  /\ (forall what, read_csr file = Throw (new_invalid_argument what) -> file = None)
  /\ (forall what, read_csc file = Throw (new_invalid_argument what) -> file = None).
Proof.
  split; [|split].
  - intros ->. repeat split; try reflexivity; intros [what H]; discriminate H.
  - intros what H. destruct file as [contents|]; [|reflexivity]. exfalso.
    destruct (read_coo (Some contents)) as [[[header coo] infile]|e|] eqn:Hcoo.
    + destruct (read_csr_arrays _ _ _ _ Hcoo) as [offsets Hr]. congruence.
    + rewrite (read_csr_error _ _ Hcoo) in H. injection H as ->.
      destruct (read_coo_throws _ _ Hcoo) as [w Hw]. discriminate Hw.
    + unfold read_csr in H. rewrite Hcoo in H. discriminate H.
  - intros what H. destruct file as [contents|]; [|reflexivity]. exfalso.
    destruct (read_coo (Some contents)) as [[[header coo] infile]|e|] eqn:Hcoo.
    + destruct (read_csc_arrays _ _ _ _ Hcoo) as [offsets Hr]. congruence.
    + rewrite (read_csc_error _ _ Hcoo) in H. injection H as ->.
      destruct (read_coo_throws _ _ Hcoo) as [w Hw]. discriminate Hw.
    + unfold read_csc in H. rewrite Hcoo in H. discriminate H.
Qed.

Lemma std_sort_nil (comp : Nonzero -> Nonzero -> bool) : std_sort comp [] = [].
Proof. apply Permutation_nil, std_sort_perm. Qed.

Lemma compress_nil (major minor : Nonzero -> Z) (dimension : Z) :
  dimension <= max_value coord_type ->
  compress major minor dimension []
  = (repeat 0 (S (Z.to_nat dimension)), [], []).
Proof.
  intros Hd. unfold compress. cbn [compress_loop List.length].
  assert (H0 : to_coord (Z.of_nat 0) = 0).
  { apply to_coord_id. pose proof (min_value_nonpos coord_type).
    pose proof (max_value_nonneg coord_type). unfold in_range. simpl. lia. }
  rewrite H0. destruct (Z.le_gt_cases 0 dimension) as [Hpos|Hneg].
  - rewrite advance_run; [|pose proof (min_value_nonpos coord_type); lia|exact Hd].
    now rewrite Z.sub_0_r.
  - unfold advance. replace (Z.to_nat (dimension - 0)) with 0%nat by lia.
    replace (Z.to_nat dimension) with 0%nat by lia. reflexivity.
Qed.

(** X8.  A file whose dimension line declares no entry (a count of zero,
    or a negative one for a signed coordinate type) is decoded without
    reading any data line: no index, no value, and the offset 0 once per
    row (per column for [read_csc]) and once more. *)
Theorem no_entries (contents : string) (header : Header.t) (f0 : istream) :
  read_header (open contents) = Ok (header, f0) ->
  Header.num_nonzeros header <= 0 ->
  read_csr (Some contents)
  = Ok (CSRMatrix.mk (Header.num_rows header) (Header.num_cols header) 0
          (repeat 0 (S (Z.to_nat (Header.num_rows header)))) [] [])
  /\ read_csc (Some contents)
     = Ok (CSCMatrix.mk (Header.num_rows header) (Header.num_cols header) 0
             (repeat 0 (S (Z.to_nat (Header.num_cols header)))) [] []).
Proof.
  intros Hh Hn. destruct (read_header_in_range _ _ _ Hh) as [Hr [Hc _]].
  assert (Hcoo : read_coo (Some contents) = Ok (header, @nil Nonzero, f0)).
  { unfold read_coo. rewrite Hh. cbn [bind].
    replace (Z.to_nat (Header.num_nonzeros header)) with 0%nat by lia. reflexivity. }
  assert (H0 : to_coord (Z.of_nat 0) = 0).
  { apply to_coord_id. pose proof (min_value_nonpos coord_type).
    pose proof (max_value_nonneg coord_type). unfold in_range. simpl. lia. }
  split.
  - rewrite (read_csr_unfold _ _ _ _ Hcoo), std_sort_nil, compress_nil by apply Hr.
    cbn [List.length]. now rewrite H0.
  - rewrite (read_csc_unfold _ _ _ _ Hcoo), std_sort_nil, compress_nil by apply Hc.
    cbn [List.length]. now rewrite H0.
Qed.

(** X9.  In the result of a general file, or of a symmetric file that
    declares a square matrix, every stored column index of [read_csr] lies
    in [0, num_cols), every stored row index of [read_csc] in
    [0, num_rows), and there are as many values as indices. *)
Theorem stored_indices_in_bounds (file : option string) (header : Header.t)
    (coo : list Nonzero) (infile : istream) :
  read_coo file = Ok (header, coo, infile) ->
  square_if_symmetric header ->
  (forall csr, read_csr file = Ok csr ->
     Forall (fun col => 0 <= col < CSRMatrix.num_cols csr) (CSRMatrix.col_indices csr)
     /\ List.length (CSRMatrix.values csr) = List.length (CSRMatrix.col_indices csr))
  /\ (forall csc, read_csc file = Ok csc ->
        Forall (fun row => 0 <= row < CSCMatrix.num_rows csc) (CSCMatrix.row_indices csc)
        /\ List.length (CSCMatrix.values csc) = List.length (CSCMatrix.row_indices csc)).
Proof.
  intros Hcoo Hsq. pose proof (read_coo_in_bounds _ _ _ _ Hcoo Hsq) as Hb.
  split.
  - intros csr Hr. destruct (read_csr_arrays _ _ _ _ Hcoo) as [offsets Ha].
    rewrite Ha in Hr. injection Hr as <-. cbn. rewrite !length_map. split; [|reflexivity].
    apply Forall_map. apply Forall_sorted. revert Hb. apply Forall_impl.
    intros nz [_ H]. exact H.
  - intros csc Hr. destruct (read_csc_arrays _ _ _ _ Hcoo) as [offsets Ha].
    rewrite Ha in Hr. injection Hr as <-. cbn. rewrite !length_map. split; [|reflexivity].
    apply Forall_map. apply Forall_sorted. revert Hb. apply Forall_impl.
    intros nz [H _]. exact H.
Qed.

Lemma filter_partition_length {A : Type} (f : A -> bool) (l : list A) :
  (List.length (filter f l) + List.length (filter (fun a => negb (f a)) l))%nat
  = List.length l.
Proof.
  induction l as [|a l IH]; [reflexivity|]. cbn [filter].
  destruct (f a); cbn [negb List.length]; lia.
Qed.

(** X10.  The number of stored entries against the declared number of
    data lines: equal for a general file (so that [num_nonzeros] is the
    declared count, whatever the coordinate type), between the declared
    count and its double for a symmetric file. *)
Theorem entry_count (file : option string) (header : Header.t)
    (coo : list Nonzero) (infile : istream) :
  read_coo file = Ok (header, coo, infile) ->
  let declared := Z.max 0 (Header.num_nonzeros header) in
  (Header.symmetry header = GENERAL -> Z.of_nat (List.length coo) = declared)
  /\ (Header.symmetry header = SYMMETRIC ->
      declared <= Z.of_nat (List.length coo) <= 2 * declared)
  /\ (forall csr, read_csr file = Ok csr ->
        Z.of_nat (List.length (CSRMatrix.values csr)) = Z.of_nat (List.length coo)
        /\ (Header.symmetry header = GENERAL -> CSRMatrix.num_nonzeros csr = declared))
  /\ (forall csc, read_csc file = Ok csc ->
        Z.of_nat (List.length (CSCMatrix.values csc)) = Z.of_nat (List.length coo)
        /\ (Header.symmetry header = GENERAL -> CSCMatrix.num_nonzeros csc = declared)).
Proof.
  intros Hcoo declared.
  destruct (read_coo_inv _ _ _ _ Hcoo) as [contents [f0 [-> [Hh [_ [Hl _]]]]]].
  destruct (read_header_in_range _ _ _ Hh) as [_ [_ Hn]].
  assert (Hlines : Z.of_nat (List.length (file_lines header f0)) = declared).
  { unfold file_lines. rewrite data_lines_length. subst declared. lia. }
  assert (Hg : Header.symmetry header = GENERAL -> Z.of_nat (List.length coo) = declared).
  { intros Hg. now rewrite Hl, (general_entries_length _ _ Hg). }
  assert (Hc : Header.symmetry header = GENERAL ->
               to_coord (Z.of_nat (List.length coo)) = declared).
  { intros H. rewrite (Hg H). apply to_coord_id. pose proof (min_value_nonpos coord_type).
    pose proof (max_value_nonneg coord_type). unfold in_range in *. subst declared. lia. }
  split; [exact Hg|]. split; [|split].
  - intros Hs. rewrite Hl, (symmetric_entries_length _ _ Hs).
    pose proof (filter_partition_length off_diagonal (file_lines header f0)). lia.
  - intros csr Hr. destruct (read_csr_arrays _ _ _ _ Hcoo) as [offsets Ha].
    rewrite Ha in Hr. injection Hr as <-. cbn. rewrite length_map, length_sorted.
    split; [reflexivity|exact Hc].
  - intros csc Hr. destruct (read_csc_arrays _ _ _ _ Hcoo) as [offsets Ha].
    rewrite Ha in Hr. injection Hr as <-. cbn. rewrite length_map, length_sorted.
    split; [reflexivity|exact Hc].
Qed.

End Failures.

(** ** The comparators *)

Section Comparators.
Context {VT : ValueType}.
Abbreviation Nonzero := (Nonzero.t value_t).

(** X11.  The two comparators given to [std::sort] are strict weak
    orderings, as [std::sort] requires; two entries are equivalent for
    them exactly when they have the same row and the same column (the
    value is not compared); and the comparator of [read_csc] is that of
    [read_csr] on the mirrored entries. *)
Theorem comparators_valid :
  strict_weak_order (@row_major_less VT)
  /\ strict_weak_order (@col_major_less VT)
  /\ (forall a b : Nonzero,
        row_major_less a b = false /\ row_major_less b a = false
        <-> Nonzero.row a = Nonzero.row b /\ Nonzero.col a = Nonzero.col b)
  /\ (forall a b : Nonzero,
        col_major_less a b = false /\ col_major_less b a = false
        <-> Nonzero.row a = Nonzero.row b /\ Nonzero.col a = Nonzero.col b)
  /\ (forall a b : Nonzero, col_major_less a b = row_major_less (mirror a) (mirror b)).
Proof.
  split; [exact (lex_less_swo Nonzero.row Nonzero.col)|].
  split; [exact (lex_less_swo Nonzero.col Nonzero.row)|].
  split; [|split].
  - intros a b. unfold row_major_less.
    destruct (Z.ltb_spec (Nonzero.row a) (Nonzero.row b));
      destruct (Z.ltb_spec (Nonzero.row b) (Nonzero.row a));
      destruct (Z.ltb_spec (Nonzero.col a) (Nonzero.col b));
      destruct (Z.ltb_spec (Nonzero.col b) (Nonzero.col a)); cbn; split;
      intros [? ?]; try discriminate; try lia; split; try reflexivity; lia.
  - intros a b. unfold col_major_less.
    destruct (Z.ltb_spec (Nonzero.row a) (Nonzero.row b));
      destruct (Z.ltb_spec (Nonzero.row b) (Nonzero.row a));
      destruct (Z.ltb_spec (Nonzero.col a) (Nonzero.col b));
      destruct (Z.ltb_spec (Nonzero.col b) (Nonzero.col a)); cbn; split;
      intros [? ?]; try discriminate; try lia; split; try reflexivity; lia.
  - intros a b. reflexivity.
Qed.

End Comparators.

(** ** The comment-skipping loop that never ends *)

Lemma Tokens_head (sep : ascii) (line token : string) (others : list string) :
  Tokens line sep = token :: others -> exists rest, line = (token ++ rest)%string.
Proof.
  intros H. destruct (extract_until sep line) as [l [rest|]] eqn:E.
  - destruct (extract_until_split _ _ _ _ E) as [-> Hl].
    rewrite (Tokens_cons _ _ _ Hl) in H. injection H as <- _. now eexists.
  - pose proof (extract_until_lacks _ _ _ E) as Hl. destruct line as [|c line].
    + discriminate H.
    + rewrite (Tokens_single _ _ Hl) in H by discriminate. injection H as <- _.
      exists EmptyString. now rewrite string_app_nil_r.
Qed.

Lemma accepted_starts_with_percent (line : string) :
  format_line_accepted line -> starts_with_percent line = true.
Proof.
  intros [fmt [sym [Ht _]]]. destruct (Tokens_head _ _ _ _ Ht) as [rest ->]. reflexivity.
Qed.

Lemma check_format_line_ok (line : string) (r : ValueFormat * SymmetryType) :
  check_format_line line = Ok r -> format_line_accepted line.
Proof.
  unfold check_format_line, format_line_accepted. rewrite (size_length _ 5).
  destruct (Tokens line space) as [|a [|b [|c [|d [|e [|g l]]]]]];
    cbn [List.length Nat.eqb negb]; try discriminate.
  cbn [pop].
  destruct (String.eqb_spec a "%%MatrixMarket"); [subst a|discriminate].
  destruct (String.eqb_spec b "matrix"); [subst b|discriminate].
  destruct (String.eqb_spec c "coordinate"); [subst c|discriminate].
  cbn [negb].
  destruct (parse_value_fmt_cases d) as [Hd| ->]; [|discriminate].
  destruct (parse_symmetry_cases e) as [He| ->].
  - intros _. exists d, e. auto.
  - rewrite (parse_value_fmt_ok _ Hd). discriminate.
Qed.

Lemma skip_comments_loops (lines : list string) (last : string) :
  Forall comment_line lines -> comment_line last ->
  forall fuel line, skip_comments fuel (open (text lines ++ last)) line = None.
Proof.
  intros Hlines [Hp Hl]. induction Hlines as [|l lines [Hlp Hll] _ IH]; intros fuel line.
  - destruct fuel as [|fuel]; [reflexivity|]. cbn [text append skip_comments].
    unfold getline. change (good (open last)) with true. cbn [buf open].
    rewrite (extract_until_none _ _ Hl). rewrite Hp.
    apply skip_comments_stuck; [|exact Hp]. unfold good. cbn. reflexivity.
  - destruct fuel as [|fuel]; [reflexivity|]. cbn [text skip_comments].
    rewrite !string_app_assoc, LF_app, (getline_line _ _ _ Hll), Hlp. apply IH.
Qed.

Lemma skip_comments_loops_inv (n : nat) :
  forall s line,
    (String.length s < n)%nat ->
    skip_comments (S n) (open s) line = None ->
    exists lines last,
      s = (text lines ++ last)%string /\ Forall comment_line lines /\ comment_line last.
Proof.
  induction n as [|n IH]; intros s line Hn H; [lia|].
  cbn [skip_comments] in H. unfold getline in H. change (good (open s)) with true in H.
  cbn [buf open] in H.
  destruct (extract_until newline s) as [l [rest|]] eqn:E.
  - destruct (extract_until_split _ _ _ _ E) as [-> Hl].
    destruct (starts_with_percent l) eqn:Hp; [|discriminate].
    change {| buf := rest; eofbit := false; failbit := false |} with (open rest) in H.
    rewrite string_app_length in Hn. simpl in Hn.
    destruct n as [|n]; [lia|].
    destruct (IH rest l) as [lines [last [-> [Hc Hlast]]]]; [lia|exact H|].
    exists (l :: lines), last. split; [|split].
    + cbn [text]. now rewrite !string_app_assoc, LF_app.
    + constructor; [now split|exact Hc].
    + exact Hlast.
  - pose proof (extract_until_end _ _ _ E) as ->.
    pose proof (extract_until_lacks _ _ _ E) as Hl.
    destruct (starts_with_percent s) eqn:Hp; [|discriminate].
    exists [], s. split; [reflexivity|]. split; [constructor|now split].
Qed.

Lemma ends_with_app_last (c : ascii) (s last : string) :
  last <> EmptyString -> ends_with c (s ++ last) = ends_with c last.
Proof.
  intros Hne. induction s as [|c' s IH]; [reflexivity|].
  cbn [append ends_with]. rewrite <- IH.
  destruct (s ++ last)%string eqn:E; [|reflexivity].
  destruct s; [simpl in E; congruence|discriminate].
Qed.

Section Hanging.
Context {CT : CoordType} {VT : ValueType}.
Abbreviation Nonzero := (Nonzero.t value_t).
Context {sorter : StdSort Nonzero}.

Lemma read_coo_hang (contents : string) :
  @read_coo CT VT (Some contents) = Hang <-> read_header (open contents) = Hang.
Proof.
  unfold read_coo. destruct (read_header (open contents)) as [[header f0]|e|];
    cbn [bind]; [|split; discriminate|split; reflexivity].
  split; [|discriminate].
  destruct (forallb (line_ok header) (file_lines header f0)) eqn:Hall.
  - unfold file_lines in Hall. rewrite (read_nonzeros_ok _ _ _ _ Hall). discriminate.
  - destruct (read_nonzeros_error _ header f0 (@nil Nonzero) Hall) as [what ->]. discriminate.
Qed.

Lemma read_csr_hang (file : option string) : read_csr file = Hang <-> read_coo file = Hang.
Proof.
  destruct (read_coo file) as [[[header coo] infile]|e|] eqn:Hcoo.
  - destruct (read_csr_arrays _ _ _ _ Hcoo) as [offsets ->]. split; discriminate.
  - rewrite (read_csr_error _ _ Hcoo). split; discriminate.
  - unfold read_csr. rewrite Hcoo. split; reflexivity.
Qed.

Lemma read_csc_hang (file : option string) : read_csc file = Hang <-> read_coo file = Hang.
Proof.
  destruct (read_coo file) as [[[header coo] infile]|e|] eqn:Hcoo.
  - destruct (read_csc_arrays _ _ _ _ Hcoo) as [offsets ->]. split; discriminate.
  - rewrite (read_csc_error _ _ Hcoo). split; discriminate.
  - unfold read_csc. rewrite Hcoo. split; reflexivity.
Qed.

Lemma read_header_hang_iff (contents : string) :
  read_header (open contents) = Hang
  <-> format_line_accepted (first_line contents)
      /\ exists lines last,
           contents = (text lines ++ last)%string
           /\ Forall comment_line lines /\ comment_line last.
Proof.
  unfold first_line. split.
  - rewrite read_header_unfold. unfold getline. change (good (open contents)) with true.
    cbn [buf open].
    destruct (extract_until newline contents) as [l [rest|]] eqn:E; cbn [snd].
    + destruct (extract_until_split _ _ _ _ E) as [Hs Hl].
      destruct (check_format_line l) as [r|e|] eqn:Hc; cbn [bind]; try discriminate.
      * pose proof (check_format_line_ok _ _ Hc) as Hacc. destruct r as [vf sy].
        change {| buf := rest; eofbit := false; failbit := false |} with (open rest).
        destruct (skip_comments (skip_comments_fuel (open rest)) (open rest) l)
          as [[f2 line2]|] eqn:Hskip.
        { unfold read_dimensions.
          destruct (Tokens line2 space) as [|x1 [|x2 [|x3 [|x4 t]]]]; discriminate. }
        intros _. split; [exact Hacc|].
        destruct (skip_comments_loops_inv (S (String.length rest)) rest l)
          as [lines [last [-> [Hlines Hlast]]]]; [lia|exact Hskip|].
        exists (l :: lines), last. split; [|split].
        -- rewrite Hs. cbn [text]. now rewrite !string_app_assoc, LF_app.
        -- constructor; [|exact Hlines]. split; [|exact Hl].
           now apply accepted_starts_with_percent.
        -- exact Hlast.
      * intros H. now destruct (check_format_line_returns l).
    + pose proof (extract_until_end _ _ _ E) as ->.
      pose proof (extract_until_lacks _ _ _ E) as Hl.
      destruct (check_format_line contents) as [r|e|] eqn:Hc; cbn [bind]; try discriminate.
      * pose proof (check_format_line_ok _ _ Hc) as Hacc. intros _. split; [exact Hacc|].
        exists [], contents. split; [reflexivity|]. split; [constructor|].
        split; [now apply accepted_starts_with_percent|exact Hl].
      * intros H. now destruct (check_format_line_returns contents).
  - intros [Hacc [lines [last [-> [Hlines [Hp Hl]]]]]].
    pose proof Hacc as [fmt [sym [Ht [Hfmt Hsym]]]].
    destruct lines as [|l lines].
    + cbn [text append] in *.
      assert (Hg : getline (open last) EmptyString newline
                   = ({| buf := EmptyString; eofbit := true;
                         failbit := match last with EmptyString => true | _ => false end |},
                      last)).
      { unfold getline. change (good (open last)) with true. cbn [buf open].
        now rewrite (extract_until_none _ _ Hl). }
      rewrite Hg in Ht. cbn [snd] in Ht.
      rewrite (read_header_accepts _ _ _ fmt sym Hg Ht Hfmt Hsym).
      rewrite skip_comments_stuck; [reflexivity|reflexivity|exact Hp].
    + inversion Hlines as [|? ? [Hlp Hll] Hrest]; subst. cbn [text] in *.
      rewrite !string_app_assoc, LF_app in *.
      rewrite (getline_line _ _ _ Hll) in Ht. cbn [snd] in Ht.
      rewrite (read_header_accepts _ _ _ fmt sym (getline_line _ _ _ Hll) Ht Hfmt Hsym).
      rewrite (skip_comments_loops lines last Hrest (conj Hp Hl)). reflexivity.
Qed.

(** X12.  [read_header] never returns exactly on the files whose format
    line is accepted and in which every line begins with [%], the last
    one having no line feed: the comment-skipping loop then reads the end
    of the file for ever.  [read_csr] and [read_csc] do not return exactly
    then, and a file that ends with a line feed is always decoded or
    rejected. *)
Theorem hang_iff (contents : string) :
  (read_header (open contents) = Hang
   <-> format_line_accepted (first_line contents)
       /\ exists lines last,
            contents = (text lines ++ last)%string
            /\ Forall comment_line lines /\ comment_line last)
  /\ (read_csr (Some contents) = Hang <-> read_header (open contents) = Hang)
  /\ (read_csc (Some contents) = Hang <-> read_header (open contents) = Hang)
  /\ (ends_with newline contents = true ->
      read_header (open contents) <> Hang
      /\ read_csr (Some contents) <> Hang /\ read_csc (Some contents) <> Hang).
Proof.
  split; [apply read_header_hang_iff|].
  split; [now rewrite read_csr_hang, read_coo_hang|].
  split; [now rewrite read_csc_hang, read_coo_hang|].
  intros He.
  assert (Hh : read_header (open contents) <> Hang).
  { intros H. apply read_header_hang_iff in H.
    destruct H as [_ [lines [last [-> [_ [Hp Hl]]]]]].
    rewrite ends_with_app_last in He by (destruct last; [discriminate|congruence]).
    now rewrite (ends_with_lacks _ _ Hl) in He. }
  split; [exact Hh|].
  split; [now rewrite read_csr_hang, read_coo_hang|now rewrite read_csc_hang, read_coo_hang].
Qed.

End Hanging.

(** ** Sorted permutations *)

Lemma sorted_perm_unique {A : Type} (R : A -> A -> Prop) (l : list A) :
  (forall a b, In a l -> In b l -> R a b -> R b a -> a = b) ->
  StronglySorted R l ->
  forall l', Permutation l l' -> StronglySorted R l' -> l = l'.
Proof.
  induction l as [|x xs IH]; intros Hanti Hs l' Hp Hs'.
  - apply Permutation_nil in Hp. now subst.
  - destruct l' as [|y ys]; [apply Permutation_sym, Permutation_nil in Hp; discriminate|].
    inversion Hs as [|? ? Hxs Hx]; subst. inversion Hs' as [|? ? Hys Hy]; subst.
    assert (Hxy : x = y).
    { assert (Hin : In x (y :: ys)) by (apply (Permutation_in _ Hp); now left).
      assert (Hin' : In y (x :: xs))
        by (apply (Permutation_in _ (Permutation_sym Hp)); now left).
      destruct Hin as [->|Hin]; [reflexivity|].
      destruct Hin' as [->|Hin']; [reflexivity|].
      rewrite Forall_forall in Hx, Hy.
      apply Hanti; [now left|now right|now apply Hx|now apply Hy]. }
    subst y. f_equal. apply IH; [|exact Hxs|now apply Permutation_cons_inv in Hp|exact Hys].
    intros a b Ha Hb. apply Hanti; now right.
Qed.

Lemma pair_le_antisym (p q : Z * Z) : pair_le p q -> pair_le q p -> p = q.
Proof.
  destruct p as [a b], q as [c d]. unfold pair_le. cbn. intros H1 H2.
  f_equal; lia.
Qed.

Lemma NoDup_map_in {A B : Type} (f : A -> B) (l : list A) (a b : A) :
  NoDup (map f l) -> In a l -> In b l -> f a = f b -> a = b.
Proof.
  induction l as [|x xs IH]; intros Hnd Ha Hb Hf; [contradiction|].
  cbn [map] in Hnd. inversion Hnd as [|? ? Hx Hxs]; subst.
  destruct Ha as [->|Ha], Hb as [->|Hb]; [reflexivity| | |now apply IH].
  - exfalso. apply Hx. rewrite Hf. now apply in_map.
  - exfalso. apply Hx. rewrite <- Hf. now apply in_map.
Qed.

Section SortedKeys.
Context {CT : CoordType} {VT : ValueType}.
Abbreviation Nonzero := (Nonzero.t value_t).

Section TwoLists.
Variables key1 key2 key1' key2' : Nonzero -> Z.
Variables l l' : list Nonzero.
Hypothesis Hl : sorted_by (lex_less key1 key2) l.
Hypothesis Hl' : sorted_by (lex_less key1' key2') l'.

Lemma sorted_keys_unique :
  Permutation (map (fun nz => (key1 nz, key2 nz)) l) (map (fun nz => (key1' nz, key2' nz)) l') ->
  map key1 l = map key1' l' /\ map key2 l = map key2' l'.
Proof.
  intros Hp.
  assert (H : map (fun nz => (key1 nz, key2 nz)) l = map (fun nz => (key1' nz, key2' nz)) l').
  { apply (sorted_perm_unique pair_le).
    - intros a b _ _. apply pair_le_antisym.
    - apply StronglySorted_map. apply (sorted_key_le key1 key2 l Hl).
    - exact Hp.
    - apply StronglySorted_map. apply (sorted_key_le key1' key2' l' Hl'). }
  split.
  - transitivity (map fst (map (fun nz => (key1 nz, key2 nz)) l)); [now rewrite map_map|].
    rewrite H, map_map. reflexivity.
  - transitivity (map snd (map (fun nz => (key1 nz, key2 nz)) l)); [now rewrite map_map|].
    rewrite H, map_map. reflexivity.
Qed.

Lemma sorted_entries_unique :
  Permutation (map (keyed key1 key2) l) (map (keyed key1' key2') l') ->
  NoDup (map (fun nz => (key1 nz, key2 nz)) l) ->
  map Nonzero.value l = map Nonzero.value l'.
Proof.
  intros Hp Hnd.
  assert (H : map (keyed key1 key2) l = map (keyed key1' key2') l').
  { apply (sorted_perm_unique (fun t u => pair_le (fst t) (fst u))).
    - intros a b Ha Hb H1 H2. apply (NoDup_map_in fst (map (keyed key1 key2) l)).
      + now rewrite map_map.
      + exact Ha.
      + exact Hb.
      + now apply pair_le_antisym.
    - apply StronglySorted_map. apply (sorted_key_le key1 key2 l Hl).
    - exact Hp.
    - apply StronglySorted_map. apply (sorted_key_le key1' key2' l' Hl'). }
  transitivity (map snd (map (keyed key1 key2) l)); [now rewrite map_map|].
  rewrite H, map_map. reflexivity.
Qed.

End TwoLists.

(** ** The compressor reads the keys and the values only *)

Lemma compress_loop_keys (major minor major' minor' : Nonzero -> Z) (l : list Nonzero) :
  forall l' current offsets indices values values',
    map major l = map major' l' -> map minor l = map minor' l' ->
    fst (compress_loop major minor l current offsets indices values)
    = fst (compress_loop major' minor' l' current offsets indices values').
Proof.
  induction l as [|nz l IH]; intros [|nz' l'] current offsets indices values values' H1 H2;
    try discriminate; [reflexivity|].
  cbn [map] in H1, H2. injection H1 as Hm H1. injection H2 as Hn H2.
  cbn [compress_loop]. rewrite Hm, Hn.
  destruct (advance current (major' nz') offsets (to_coord (Z.of_nat (List.length indices))))
    as [c o].
  now apply IH.
Qed.

Lemma compress_keys (major minor major' minor' : Nonzero -> Z) (dimension : Z)
    (l l' : list Nonzero) :
  map major l = map major' l' -> map minor l = map minor' l' ->
  fst (compress major minor dimension l) = fst (compress major' minor' dimension l').
Proof.
  intros H1 H2. unfold compress.
  pose proof (compress_loop_keys major minor major' minor' l l' 0 [0] [] [] [] H1 H2) as H.
  destruct (compress_loop major minor l 0 [0] [] []) as [[[c o] i] v].
  destruct (compress_loop major' minor' l' 0 [0] [] []) as [[[c' o'] i'] v'].
  cbn [fst] in H. injection H as -> -> ->.
  destruct (advance c' dimension o' (to_coord (Z.of_nat (List.length i')))) as [c'' o''].
  reflexivity.
Qed.

Lemma compress_values (major minor : Nonzero -> Z) (dimension : Z) (l : list Nonzero) :
  snd (compress major minor dimension l) = map Nonzero.value l.
Proof.
  pose proof (compress_arrays major minor dimension l) as H.
  destruct (compress major minor dimension l) as [[o i] v]. now destruct H.
Qed.

End SortedKeys.

(** ** Two implementations of [std::sort] *)

Section SortIndependence.
Context {CT : CoordType} {VT : ValueType}.
Abbreviation Nonzero := (Nonzero.t value_t).
Variables sorter1 sorter2 : StdSort Nonzero.

Lemma compress_two_sorts (major minor : Nonzero -> Z) (dimension : Z)
    (comp : Nonzero -> Nonzero -> bool) (coo : list Nonzero) :
  comp = lex_less major minor ->
  let r1 := compress major minor dimension (@std_sort _ sorter1 comp coo) in
  let r2 := compress major minor dimension (@std_sort _ sorter2 comp coo) in
  fst r1 = fst r2
  /\ Permutation (snd r1) (snd r2)
  /\ (NoDup (map (fun nz => (major nz, minor nz)) coo) -> r1 = r2).
Proof.
  intros -> r1 r2. subst r1 r2.
  set (l1 := @std_sort _ sorter1 (lex_less major minor) coo).
  set (l2 := @std_sort _ sorter2 (lex_less major minor) coo).
  assert (Hs1 : sorted_by (lex_less major minor) l1)
    by apply std_sort_sorted, lex_less_swo.
  assert (Hs2 : sorted_by (lex_less major minor) l2)
    by apply std_sort_sorted, lex_less_swo.
  assert (Hp : Permutation l1 l2).
  { transitivity coo; [apply Permutation_sym|]; apply std_sort_perm. }
  destruct (sorted_keys_unique major minor major minor l1 l2 Hs1 Hs2
              (Permutation_map _ Hp)) as [Hk1 Hk2].
  pose proof (compress_keys major minor major minor dimension l1 l2 Hk1 Hk2) as Hf.
  split; [exact Hf|]. split.
  - rewrite !compress_values. now apply Permutation_map.
  - intros Hnd.
    assert (Hv : map Nonzero.value l1 = map Nonzero.value l2).
    { apply (sorted_entries_unique major minor major minor l1 l2 Hs1 Hs2).
      - now apply Permutation_map.
      - revert Hnd. apply Permutation_NoDup. apply Permutation_map, std_sort_perm. }
    rewrite <- (compress_values major minor dimension l1),
      <- (compress_values major minor dimension l2) in Hv.
    destruct (compress major minor dimension l1) as [p1 v1].
    destruct (compress major minor dimension l2) as [p2 v2].
    cbn [fst snd] in *. now subst.
Qed.

(** X13.  What [std::sort] is free to choose is the order of the values
    of entries with the same position, and nothing else.  For two
    implementations of [std::sort] the offsets and the indices of the
    result are the same and the values are a permutation of each other;
    when no two entries have the same position the results are equal. *)
Theorem sort_independent (file : option string) (header : Header.t)
    (coo : list Nonzero) (infile : istream) :
  read_coo file = Ok (header, coo, infile) ->
  (exists csr1 csr2,
     @read_csr CT VT sorter1 file = Ok csr1 /\ @read_csr CT VT sorter2 file = Ok csr2
     /\ CSRMatrix.row_offsets csr1 = CSRMatrix.row_offsets csr2
     /\ CSRMatrix.col_indices csr1 = CSRMatrix.col_indices csr2
     /\ Permutation (CSRMatrix.values csr1) (CSRMatrix.values csr2)
     /\ (NoDup (map position coo) -> csr1 = csr2))
  /\ (exists csc1 csc2,
        @read_csc CT VT sorter1 file = Ok csc1 /\ @read_csc CT VT sorter2 file = Ok csc2
        /\ CSCMatrix.col_offsets csc1 = CSCMatrix.col_offsets csc2
        /\ CSCMatrix.row_indices csc1 = CSCMatrix.row_indices csc2
        /\ Permutation (CSCMatrix.values csc1) (CSCMatrix.values csc2)
        /\ (NoDup (map position coo) -> csc1 = csc2)).
Proof.
  intros Hcoo. split.
  - rewrite (@read_csr_unfold CT VT sorter1 _ _ _ _ Hcoo),
      (@read_csr_unfold CT VT sorter2 _ _ _ _ Hcoo).
    destruct (compress_two_sorts Nonzero.row Nonzero.col (Header.num_rows header)
                row_major_less coo eq_refl) as [Hf [Hv Hnd]].
    destruct (compress Nonzero.row Nonzero.col (Header.num_rows header)
                (@std_sort _ sorter1 row_major_less coo)) as [[o1 i1] v1].
    destruct (compress Nonzero.row Nonzero.col (Header.num_rows header)
                (@std_sort _ sorter2 row_major_less coo)) as [[o2 i2] v2].
    cbn [fst snd] in *. injection Hf as -> ->.
    do 2 eexists. split; [reflexivity|]. split; [reflexivity|]. cbn.
    split; [reflexivity|]. split; [reflexivity|]. split; [exact Hv|].
    intros H. specialize (Hnd H). injection Hnd as ->. reflexivity.
  - rewrite (@read_csc_unfold CT VT sorter1 _ _ _ _ Hcoo),
      (@read_csc_unfold CT VT sorter2 _ _ _ _ Hcoo).
    destruct (compress_two_sorts Nonzero.col Nonzero.row (Header.num_cols header)
                col_major_less coo eq_refl) as [Hf [Hv Hnd]].
    destruct (compress Nonzero.col Nonzero.row (Header.num_cols header)
                (@std_sort _ sorter1 col_major_less coo)) as [[o1 i1] v1].
    destruct (compress Nonzero.col Nonzero.row (Header.num_cols header)
                (@std_sort _ sorter2 col_major_less coo)) as [[o2 i2] v2].
    cbn [fst snd] in *. injection Hf as -> ->.
    do 2 eexists. split; [reflexivity|]. split; [reflexivity|]. cbn.
    split; [reflexivity|]. split; [reflexivity|]. split; [exact Hv|].
    intros H. assert (Hnd' : NoDup (map (fun nz => (Nonzero.col nz, Nonzero.row nz)) coo)).
    { clear -H. unfold position in H.
      replace (map (fun nz : Nonzero => (Nonzero.col nz, Nonzero.row nz)) coo)
        with (map (fun p : Z * Z => (snd p, fst p))
                  (map (fun nz : Nonzero => (Nonzero.row nz, Nonzero.col nz)) coo))
        by (rewrite map_map; reflexivity).
      apply Finite.Injective_map_NoDup; [|exact H].
      intros [a b] [c d] E. cbn in E. congruence. }
    specialize (Hnd Hnd'). injection Hnd as ->. reflexivity.
Qed.

End SortIndependence.

(** ** The transposed matrix *)

Section Transposition.
Context {CT : CoordType} {VT : ValueType}.
Abbreviation Nonzero := (Nonzero.t value_t).

Lemma swapped_ok (header : Header.t) (line line' : string) :
  swapped line line' -> line_ok (transposed header) line' = line_ok header line.
Proof.
  intros [a [b [rest [Ht Ht']]]].
  unfold line_ok, well_shaped, row_in_bounds, col_in_bounds, line_row, line_col,
    expected_tokens, transposed.
  rewrite Ht, Ht'. cbn [nth List.length Header.value_type Header.num_rows Header.num_cols].
  destruct (Nat.eqb _ _); cbn [andb]; [|reflexivity]. apply andb_comm.
Qed.

Lemma swapped_entries (header : Header.t) (line line' : string) :
  swapped line line' ->
  line_entries (transposed header) line' = map mirror (line_entries header line).
Proof.
  intros [a [b [rest [Ht Ht']]]].
  assert (He : line_entry (transposed header) line' = mirror (line_entry header line)).
  { unfold line_entry, mirror, line_row, line_col, line_value, transposed.
    rewrite Ht, Ht'. reflexivity. }
  assert (Hd : off_diagonal line' = off_diagonal line).
  { unfold off_diagonal, line_row, line_col. rewrite Ht, Ht'. cbn [nth].
    now rewrite Z.eqb_sym. }
  unfold line_entries. rewrite He, Hd. cbn [transposed Header.symmetry].
  destruct (Header.symmetry header); [reflexivity|].
  destruct (off_diagonal line); reflexivity.
Qed.

Lemma swapped_lines (header : Header.t) (lines lines' : list string) :
  Forall2 swapped lines lines' ->
  forallb (line_ok (transposed header)) lines' = forallb (line_ok header) lines
  /\ flat_map (line_entries (transposed header)) lines'
     = map mirror (flat_map (line_entries header) lines).
Proof.
  induction 1 as [|l l' ls ls' Hs _ [IH1 IH2]]; [split; reflexivity|].
  cbn [forallb flat_map]. rewrite map_app, IH1, IH2, (swapped_ok _ _ _ Hs),
    (swapped_entries _ _ _ Hs). split; reflexivity.
Qed.

Context {sorter : StdSort Nonzero}.

(** The compressed columns of the mirrored entries are the compressed
    rows of the entries. *)
Lemma compress_mirror (dimension : Z) (coo : list Nonzero) :
  let rows := compress Nonzero.row Nonzero.col dimension (std_sort row_major_less coo) in
  let cols := compress Nonzero.col Nonzero.row dimension
                (std_sort col_major_less (map mirror coo)) in
  fst cols = fst rows
  /\ Permutation (snd cols) (snd rows)
  /\ (NoDup (map position coo) -> cols = rows).
Proof.
  intros rows cols. subst rows cols.
  set (l := std_sort row_major_less coo).
  set (l' := std_sort col_major_less (map mirror coo)).
  pose proof (sorted_rows coo) as Hs. fold l in Hs.
  pose proof (sorted_cols (map mirror coo)) as Hs'. fold l' in Hs'.
  assert (Hp : Permutation (map (keyed Nonzero.col Nonzero.row) l')
                           (map (keyed Nonzero.row Nonzero.col) l)).
  { transitivity (map (keyed Nonzero.col Nonzero.row) (map mirror coo)).
    - apply Permutation_map, Permutation_sym, std_sort_perm.
    - rewrite map_map. apply (Permutation_map (keyed Nonzero.row Nonzero.col)).
      apply std_sort_perm. }
  assert (Hk : Permutation (map (fun nz => (Nonzero.col nz, Nonzero.row nz)) l')
                           (map (fun nz => (Nonzero.row nz, Nonzero.col nz)) l)).
  { apply (Permutation_map fst) in Hp. now rewrite !map_map in Hp. }
  destruct (sorted_keys_unique Nonzero.col Nonzero.row Nonzero.row Nonzero.col l' l Hs' Hs Hk)
    as [Hk1 Hk2].
  pose proof (compress_keys Nonzero.col Nonzero.row Nonzero.row Nonzero.col dimension
                l' l Hk1 Hk2) as Hf.
  split; [exact Hf|]. split.
  - rewrite !compress_values. apply (Permutation_map snd) in Hp. now rewrite !map_map in Hp.
  - intros Hnd.
    assert (Hv : map Nonzero.value l' = map Nonzero.value l).
    { apply (sorted_entries_unique Nonzero.col Nonzero.row Nonzero.row Nonzero.col l' l Hs' Hs Hp).
      apply (Permutation_NoDup (Permutation_sym Hk)).
      revert Hnd. apply Permutation_NoDup. apply Permutation_map, std_sort_perm. }
    rewrite <- (compress_values Nonzero.col Nonzero.row dimension l'),
      <- (compress_values Nonzero.row Nonzero.col dimension l) in Hv.
    destruct (compress Nonzero.col Nonzero.row dimension l') as [p1 v1].
    destruct (compress Nonzero.row Nonzero.col dimension l) as [p2 v2].
    cbn [fst snd] in *. now subst.
Qed.

(** X14.  [read_csc] on the file of the transposed matrix (rows and
    columns exchanged on the dimension line and on every data line)
    succeeds exactly when [read_csr] succeeds on the file, and its column
    offsets and row indices are then the row offsets and column indices of
    [read_csr]; the values are the same when no two entries have the same
    position, a permutation of each other otherwise. *)
Theorem transposition (format_line fmt sym : string) (comments : list string)
    (dims dims' rows cols nonzeros : string) (lines lines' : list string)
    (rest rest' : string) :
  one_line format_line ->
  Tokens format_line space = ["%%MatrixMarket"; "matrix"; "coordinate"; fmt; sym] ->
  In fmt ["real"; "integer"; "pattern"] -> In sym ["general"; "symmetric"] ->
  Forall comment_line comments ->
  starts_with_percent dims = false -> one_line dims ->
  Tokens dims space = [rows; cols; nonzeros] ->
  starts_with_percent dims' = false -> one_line dims' ->
  Tokens dims' space = [cols; rows; nonzeros] ->
  List.length lines = Z.to_nat (parse_int nonzeros) ->
  Forall one_line lines -> Forall one_line lines' ->
  Forall2 swapped lines lines' ->
  let header := header_of fmt sym rows cols nonzeros in
  let file := (header_text format_line comments dims ++ text lines ++ rest)%string in
  let file' := (header_text format_line comments dims' ++ text lines' ++ rest')%string in
  (succeeds (read_csr (Some file)) <-> succeeds (read_csc (Some file')))
  /\ forall csr csc',
       read_csr (Some file) = Ok csr -> read_csc (Some file') = Ok csc' ->
       CSCMatrix.num_rows csc' = CSRMatrix.num_cols csr
       /\ CSCMatrix.num_cols csc' = CSRMatrix.num_rows csr
       /\ CSCMatrix.num_nonzeros csc' = CSRMatrix.num_nonzeros csr
       /\ CSCMatrix.col_offsets csc' = CSRMatrix.row_offsets csr
       /\ CSCMatrix.row_indices csc' = CSRMatrix.col_indices csr
       /\ Permutation (CSCMatrix.values csc') (CSRMatrix.values csr)
       /\ (NoDup (map position (flat_map (line_entries header) lines)) ->
           CSCMatrix.values csc' = CSRMatrix.values csr).
Proof.
  intros Hf Ht Hfmt Hsym Hc Hd Hdl Hdt Hd' Hdl' Hdt' Hlen Hlines Hlines' Hsw
    header file file'.
  destruct (swapped_lines header lines lines' Hsw) as [Hok Hent].
  assert (Hlen' : List.length lines' = Z.to_nat (parse_int nonzeros))
    by now rewrite <- (Forall2_length Hsw).
  change (transposed header) with (header_of fmt sym cols rows nonzeros) in Hok, Hent.
  destruct (forallb (line_ok header) lines) eqn:Hall.
  - pose proof (read_coo_lines format_line fmt sym comments dims rows cols nonzeros lines rest
                  Hf Ht Hfmt Hsym Hc Hd Hdl Hdt Hlen Hlines Hall) as Hcoo.
    pose proof (read_coo_lines format_line fmt sym comments dims' cols rows nonzeros lines' rest'
                  Hf Ht Hfmt Hsym Hc Hd' Hdl' Hdt' Hlen' Hlines' Hok) as Hcoo'.
    fold header file in Hcoo. fold file' in Hcoo'. rewrite Hent in Hcoo'.
    set (coo := flat_map (line_entries header) lines) in *.
    rewrite (read_csr_unfold _ _ _ _ Hcoo), (read_csc_unfold _ _ _ _ Hcoo').
    destruct (compress_mirror (Header.num_rows header) coo) as [Hfst [Hperm Hnd]].
    change (Header.num_cols (header_of fmt sym cols rows nonzeros))
      with (Header.num_rows header).
    destruct (compress Nonzero.row Nonzero.col (Header.num_rows header)
                (std_sort row_major_less coo)) as [[o i] v].
    destruct (compress Nonzero.col Nonzero.row (Header.num_rows header)
                (std_sort col_major_less (map mirror coo))) as [[o' i'] v'].
    cbn [fst snd] in Hfst, Hperm, Hnd. injection Hfst as -> ->.
    split; [split; intros _; eexists; reflexivity|].
    intros csr csc' Hr Hr'. injection Hr as <-. injection Hr' as <-. cbn.
    repeat split; try reflexivity.
    + now rewrite (Permutation_length Hperm).
    + exact Hperm.
    + intros H. specialize (Hnd H). now injection Hnd.
  - assert (Hall' : forallb (line_ok (header_of fmt sym cols rows nonzeros)) lines' = false)
      by now rewrite Hok.
    pose proof (read_header_lines format_line fmt sym comments dims rows cols nonzeros
                  (text lines ++ rest) Hf Ht Hfmt Hsym Hc Hd Hdl Hdt) as Hh.
    pose proof (read_header_lines format_line fmt sym comments dims' cols rows nonzeros
                  (text lines' ++ rest') Hf Ht Hfmt Hsym Hc Hd' Hdl' Hdt') as Hh'.
    assert (E : is_format_error (read_csr (Some file))).
    { apply (read_coo_header _ _ _ Hh). unfold file_lines.
      cbn [header_of Header.num_nonzeros]. rewrite <- Hlen.
      now rewrite (proj1 (data_lines_text lines rest Hlines)). }
    assert (E' : is_format_error (read_csc (Some file'))).
    { apply (read_coo_header _ _ _ Hh'). unfold file_lines.
      cbn [header_of Header.num_nonzeros]. rewrite <- Hlen'.
      now rewrite (proj1 (data_lines_text lines' rest' Hlines')). }
    destruct E as [what E], E' as [what' E'].
    split.
    + split; intros [x Hx]; congruence.
    + intros csr csc' Hr. congruence.
Qed.

End Transposition.

(** ** The rows of any decoded file *)

Section CompressAny.
Context {CT : CoordType} {VT : ValueType}.
Abbreviation Nonzero := (Nonzero.t value_t).
Variables major minor : Nonzero -> Z.

Lemma major_bound_le (dimension : Z) (l : list Nonzero) :
  dimension <= major_bound major dimension l
  /\ Forall (fun nz => major nz <= major_bound major dimension l) l.
Proof.
  induction l as [|nz l [IH1 IH2]]; cbn [major_bound fold_right].
  - split; [lia|constructor].
  - fold (major_bound major dimension l). split; [lia|].
    constructor; [lia|]. revert IH2. apply Forall_impl. intros a Ha. lia.
Qed.

Lemma major_bound_cases (dimension : Z) (l : list Nonzero) :
  major_bound major dimension l = dimension
  \/ exists nz, In nz l /\ major_bound major dimension l = major nz.
Proof.
  induction l as [|nz l IH]; cbn [major_bound fold_right]; [now left|].
  fold (major_bound major dimension l).
  destruct (Z.max_spec (major nz) (major_bound major dimension l)) as [[_ ->]|[_ ->]].
  - destruct IH as [IH|[x [Hx IH]]]; [now left|]. right. exists x. split; [now right|exact IH].
  - right. exists nz. split; [now left|reflexivity].
Qed.

Lemma advance_stay (current bound size : Z) (offsets : list Z) :
  bound <= current -> advance current bound offsets size = (current, offsets).
Proof.
  intros H. unfold advance. replace (Z.to_nat (bound - current)) with 0%nat by lia.
  reflexivity.
Qed.

Lemma advance_current (current bound size : Z) (offsets : list Z) :
  min_value coord_type <= current -> bound <= max_value coord_type ->
  let c := fst (advance current bound offsets size) in
  current <= c /\ bound <= c /\ c <= Z.max current bound.
Proof.
  intros Hc Hb. destruct (Z.le_gt_cases current bound).
  - rewrite advance_run by lia. cbn. lia.
  - rewrite advance_stay by lia. cbn. lia.
Qed.

(** The loop leaves [current] at the largest major index met. *)
Lemma compress_loop_current (l : list Nonzero) :
  forall current offsets indices values,
    min_value coord_type <= current ->
    Forall (fun nz => major nz <= max_value coord_type) l ->
    let c := fst (fst (fst (compress_loop major minor l current offsets indices values))) in
    current <= c /\ Forall (fun nz => major nz <= c) l.
Proof.
  induction l as [|nz l IH]; intros current offsets indices values Hc Hb.
  - cbn. split; [lia|constructor].
  - inversion Hb as [|? ? Hnz Hb']; subst. cbn [compress_loop].
    pose proof (advance_current current (major nz) (to_coord (Z.of_nat (List.length indices)))
                  offsets Hc Hnz) as Ha.
    destruct (advance current (major nz) offsets (to_coord (Z.of_nat (List.length indices))))
      as [c' o'].
    cbn [fst] in Ha. destruct Ha as [H1 [H2 _]].
    destruct (IH c' o' (indices ++ [minor nz]) (values ++ [Nonzero.value nz])
                ltac:(lia) Hb') as [H3 H4].
    split; [lia|]. constructor; [lia|exact H4].
Qed.

(** The compressor on any list sorted by major index: the offsets go up
    to the largest major index when it exceeds the dimension. *)
Lemma compress_any (dimension : Z) (l : list Nonzero) :
  major_sorted major l ->
  Forall (fun nz => 0 <= major nz <= max_value coord_type) l ->
  0 <= dimension <= max_value coord_type ->
  compress major minor dimension l
  = (offsets_of major (major_bound major dimension l) l, map minor l, map Nonzero.value l).
Proof.
  intros Hs Hb Hd.
  destruct (major_bound_le dimension l) as [Hle Hall].
  destruct (major_bound_cases dimension l) as [Heq|[x [Hx Heq]]].
  - rewrite Heq. apply compress_sorted; [exact Hs| |exact Hd].
    rewrite Heq in Hall. rewrite Forall_forall in *. intros nz Hnz.
    specialize (Hb nz Hnz). specialize (Hall nz Hnz). lia.
  - set (D := major_bound major dimension l) in *.
    assert (HD : 0 <= D <= max_value coord_type).
    { rewrite Forall_forall in Hb. specialize (Hb x Hx). lia. }
    assert (Hb' : Forall (fun nz => 0 <= major nz <= D) l).
    { rewrite Forall_forall in *. intros nz Hnz.
      specialize (Hb nz Hnz). specialize (Hall nz Hnz). lia. }
    rewrite <- (compress_sorted major minor D l Hs Hb' HD).
    unfold compress.
    pose proof (min_value_nonpos coord_type) as Hmin.
    assert (Hmax : Forall (fun nz => major nz <= max_value coord_type) l).
    { revert Hb. apply Forall_impl. intros; lia. }
    pose proof (compress_loop_current l 0 [0] [] [] ltac:(lia) Hmax) as [_ Hc].
    destruct (compress_loop major minor l 0 [0] [] []) as [[[c o] i] v].
    cbn [fst] in Hc. rewrite Forall_forall in Hc. specialize (Hc x Hx).
    rewrite !advance_stay by lia. reflexivity.
Qed.

End CompressAny.

Section AnyFile.
Context {CT : CoordType} {VT : ValueType}.
Abbreviation Nonzero := (Nonzero.t value_t).

Lemma line_entries_in_range (header : Header.t) (line : string) :
  header_in_range header ->
  line_ok header line = true ->
  Forall entry_in_range (line_entries header line)
  /\ (Header.symmetry header = GENERAL ->
      Forall (entry_in_bounds header) (line_entries header line)).
Proof.
  unfold header_in_range, in_range, line_ok, row_in_bounds, col_in_bounds, line_entries,
    mirror, line_entry, entry_in_range, entry_in_bounds. intros [Hr [Hc _]] Hok.
  apply andb_prop in Hok as [Hok Hc']. apply andb_prop in Hok as [_ Hr'].
  apply andb_prop in Hr' as [Hr1 Hr2]. apply andb_prop in Hc' as [Hc1 Hc2].
  apply Z.leb_le in Hr1, Hr2, Hc1, Hc2.
  destruct (Header.symmetry header).
  - split; [|intros _]; repeat constructor; simpl; lia.
  - split; [|discriminate]. destruct (off_diagonal line); repeat constructor; simpl; lia.
Qed.

Lemma read_coo_in_range (file : option string) (header : Header.t) (coo : list Nonzero)
    (infile : istream) :
  read_coo file = Ok (header, coo, infile) -> Forall entry_in_range coo.
Proof.
  intros Hcoo.
  destruct (read_coo_inv _ _ _ _ Hcoo) as [contents [f0 [_ [Hh [Hall [-> _]]]]]].
  pose proof (read_header_in_range _ _ _ Hh) as Hr.
  rewrite forallb_forall in Hall. revert Hall.
  generalize (file_lines header f0). intros lines.
  induction lines as [|line lines IH]; intros Hall; [constructor|].
  cbn [flat_map]. apply Forall_app. split.
  - apply (line_entries_in_range header line Hr). apply Hall. now left.
  - apply IH. intros x Hx. apply Hall. now right.
Qed.

Section Groups.
Variables major minor : Nonzero -> Z.

(** Row after row (column after column) of the compressed arrays of any
    sorted list, up to the dimension. *)
Lemma compressed_groups (dimension m : Z) (l : list Nonzero) :
  major_sorted major l ->
  Z.of_nat (List.length l) <= max_value coord_type ->
  let bound := major_bound major dimension l in
  let offsets := offsets_of major bound l in
  dimension + 1 <= Z.of_nat (List.length offsets)
  /\ (0 <= m < dimension ->
      0 <= offset_at offsets m <= offset_at offsets (m + 1)
      /\ offset_at offsets (m + 1) <= Z.of_nat (List.length (map minor l))
      /\ slice (combine (map minor l) (map Nonzero.value l))
           (offset_at offsets m) (offset_at offsets (m + 1))
         = entries_of major minor m l).
Proof.
  intros Hs Hfit bound offsets. subst offsets.
  destruct (major_bound_le major dimension l) as [Hle _]. fold bound in Hle.
  pose proof (min_value_nonpos coord_type) as Hmin.
  split.
  - unfold offsets_of. rewrite length_map, zrange_length. lia.
  - intros Hm. rewrite !offset_at_offsets_of by lia.
    pose proof (count_below_le_length major m l) as H1.
    pose proof (count_below_le_length major (m + 1) l) as H2.
    pose proof (count_below_mono major m (m + 1) l ltac:(lia)) as H3.
    rewrite !to_coord_id by (unfold in_range; lia).
    rewrite length_map. split; [lia|]. split; [lia|].
    rewrite combine_map, slice_map, slice_nat, segment_by_major by exact Hs.
    reflexivity.
Qed.

End Groups.

Context {sorter : StdSort Nonzero}.

Lemma read_csr_any (file : option string) (header : Header.t) (coo : list Nonzero)
    (infile : istream) :
  read_coo file = Ok (header, coo, infile) ->
  0 <= Header.num_rows header ->
  let sorted := std_sort row_major_less coo in
  read_csr file =
    Ok (CSRMatrix.mk (Header.num_rows header) (Header.num_cols header)
          (to_coord (Z.of_nat (List.length coo)))
          (offsets_of Nonzero.row (major_bound Nonzero.row (Header.num_rows header) sorted)
             sorted)
          (map Nonzero.col sorted) (map Nonzero.value sorted)).
Proof.
  intros Hcoo Hd sorted.
  destruct (read_coo_inv _ _ _ _ Hcoo) as [contents [f0 [_ [Hh _]]]].
  destruct (read_header_in_range _ _ _ Hh) as [[_ Hr] _].
  rewrite (read_csr_unfold _ _ _ _ Hcoo). subst sorted.
  rewrite compress_any.
  - cbv beta iota. now rewrite length_map, length_sorted.
  - apply (sorted_by_major Nonzero.row Nonzero.col), sorted_rows.
  - apply Forall_sorted. generalize (read_coo_in_range _ _ _ _ Hcoo).
    apply Forall_impl. intros nz [H _]. exact H.
  - lia.
Qed.

Lemma read_csc_any (file : option string) (header : Header.t) (coo : list Nonzero)
    (infile : istream) :
  read_coo file = Ok (header, coo, infile) ->
  0 <= Header.num_cols header ->
  let sorted := std_sort col_major_less coo in
  read_csc file =
    Ok (CSCMatrix.mk (Header.num_rows header) (Header.num_cols header)
          (to_coord (Z.of_nat (List.length coo)))
          (offsets_of Nonzero.col (major_bound Nonzero.col (Header.num_cols header) sorted)
             sorted)
          (map Nonzero.row sorted) (map Nonzero.value sorted)).
Proof.
  intros Hcoo Hd sorted.
  destruct (read_coo_inv _ _ _ _ Hcoo) as [contents [f0 [_ [Hh _]]]].
  destruct (read_header_in_range _ _ _ Hh) as [_ [[_ Hc] _]].
  rewrite (read_csc_unfold _ _ _ _ Hcoo). subst sorted.
  rewrite compress_any.
  - cbv beta iota. now rewrite length_map, length_sorted.
  - apply (sorted_by_major Nonzero.col Nonzero.row), sorted_cols.
  - apply Forall_sorted. generalize (read_coo_in_range _ _ _ _ Hcoo).
    apply Forall_impl. intros nz [_ H]. exact H.
  - lia.
Qed.

(** X20.  What holds of every decoded file, square or not, as long as
    the number of stored entries is representable in the coordinate type:
    [row_offsets] has at least [num_rows + 1] elements, and for every row
    below [num_rows] its two offsets are in order and within the index
    array, and the entries between them are exactly the columns and values
    of that row, in the order of the sorted coordinate list.  (The
    mirrored entries of a symmetric file that is not square lie beyond
    them.)  The same holds of [read_csc], column by column. *)
Theorem rows_readable (file : option string) (header : Header.t) (coo : list Nonzero)
    (infile : istream) :
  read_coo file = Ok (header, coo, infile) ->
  Z.of_nat (List.length coo) <= max_value coord_type ->
  (0 <= Header.num_rows header ->
   forall csr, read_csr file = Ok csr ->
     let offsets := CSRMatrix.row_offsets csr in
     CSRMatrix.num_rows csr + 1 <= Z.of_nat (List.length offsets)
     /\ forall m, 0 <= m < CSRMatrix.num_rows csr ->
          0 <= offset_at offsets m <= offset_at offsets (m + 1)
          /\ offset_at offsets (m + 1) <= Z.of_nat (List.length (CSRMatrix.col_indices csr))
          /\ slice (combine (CSRMatrix.col_indices csr) (CSRMatrix.values csr))
               (offset_at offsets m) (offset_at offsets (m + 1))
             = entries_of Nonzero.row Nonzero.col m (std_sort row_major_less coo))
  /\ (0 <= Header.num_cols header ->
      forall csc, read_csc file = Ok csc ->
        let offsets := CSCMatrix.col_offsets csc in
        CSCMatrix.num_cols csc + 1 <= Z.of_nat (List.length offsets)
        /\ forall m, 0 <= m < CSCMatrix.num_cols csc ->
             0 <= offset_at offsets m <= offset_at offsets (m + 1)
             /\ offset_at offsets (m + 1) <= Z.of_nat (List.length (CSCMatrix.row_indices csc))
             /\ slice (combine (CSCMatrix.row_indices csc) (CSCMatrix.values csc))
                  (offset_at offsets m) (offset_at offsets (m + 1))
                = entries_of Nonzero.col Nonzero.row m (std_sort col_major_less coo)).
Proof.
  intros Hcoo Hfit. split.
  - intros Hd csr Hr. rewrite (read_csr_any _ _ _ _ Hcoo Hd) in Hr. injection Hr as <-.
    cbn [CSRMatrix.row_offsets CSRMatrix.num_rows CSRMatrix.col_indices CSRMatrix.values].
    assert (Hl : Z.of_nat (List.length (std_sort row_major_less coo)) <= max_value coord_type)
      by now rewrite length_sorted.
    pose proof (sorted_by_major Nonzero.row Nonzero.col _ (sorted_rows coo)) as Hs.
    split.
    + apply (compressed_groups Nonzero.row Nonzero.col (Header.num_rows header) 0 _ Hs Hl).
    + intros m Hm.
      apply (proj2 (compressed_groups Nonzero.row Nonzero.col (Header.num_rows header) m _ Hs Hl) Hm).
  - intros Hd csc Hr. rewrite (read_csc_any _ _ _ _ Hcoo Hd) in Hr. injection Hr as <-.
    cbn [CSCMatrix.col_offsets CSCMatrix.num_cols CSCMatrix.row_indices CSCMatrix.values].
    assert (Hl : Z.of_nat (List.length (std_sort col_major_less coo)) <= max_value coord_type)
      by now rewrite length_sorted.
    pose proof (sorted_by_major Nonzero.col Nonzero.row _ (sorted_cols coo)) as Hs.
    split.
    + apply (compressed_groups Nonzero.col Nonzero.row (Header.num_cols header) 0 _ Hs Hl).
    + intros m Hm.
      apply (proj2 (compressed_groups Nonzero.col Nonzero.row (Header.num_cols header) m _ Hs Hl) Hm).
Qed.

End AnyFile.

(** ** Pattern files *)

Section PatternFiles.
Context {CT : CoordType} {VT : ValueType}.
Abbreviation Nonzero := (Nonzero.t value_t).
Context {sorter : StdSort Nonzero}.

Lemma first_rejected_line (contents : string) (header : Header.t) (f0 : istream)
    (accepted rest : list string) (line : string) :
  read_header (open contents) = Ok (header, f0) ->
  file_lines header f0 = accepted ++ line :: rest ->
  forallb (line_ok header) accepted = true -> line_ok header line = false ->
  read_csr (Some contents) = Throw (line_error header line)
  /\ read_csc (Some contents) = Throw (line_error header line).
Proof.
  intros Hh Hl Hok Hbad.
  assert (Hcoo : read_coo (Some contents) = Throw (line_error header line)).
  { unfold read_coo. rewrite Hh. cbn [bind]. rewrite read_nonzeros_lines.
    fold (file_lines header f0). rewrite Hl.
    now rewrite (read_lines_stop _ _ _ _ _ Hok Hbad). }
  split; [now apply read_csr_error|now apply read_csc_error].
Qed.

Lemma wrong_count_rejected (header : Header.t) (line : string) :
  List.length (Tokens line space) <> expected_tokens header ->
  line_ok header line = false
  /\ line_error header line = ill_shaped header.
Proof.
  intros Hn. unfold line_ok, line_error, well_shaped, ill_shaped.
  destruct (Nat.eqb_spec (List.length (Tokens line space)) (expected_tokens header));
    [contradiction|]. split; reflexivity.
Qed.

Lemma wrong_count_file (contents : string) (header : Header.t) (f0 : istream) :
  read_header (open contents) = Ok (header, f0) ->
  Exists (fun line => List.length (Tokens line space) <> expected_tokens header)
    (file_lines header f0) ->
  is_format_error (read_csr (Some contents)) /\ is_format_error (read_csc (Some contents)).
Proof.
  intros Hh Hex. apply (read_coo_header contents header f0 Hh).
  apply not_true_is_false. intros Hall. rewrite forallb_forall in Hall.
  apply Exists_exists in Hex as [line [Hin Hn]].
  destruct (wrong_count_rejected header line Hn) as [Hbad _].
  rewrite (Hall line Hin) in Hbad. discriminate.
Qed.

Lemma pattern_values (header : Header.t) (lines : list string) :
  Header.value_type header = PATTERN ->
  map Nonzero.value (flat_map (line_entries header) lines)
  = repeat value_one (List.length (flat_map (line_entries header) lines)).
Proof.
  intros Hp. induction lines as [|line lines IH]; [reflexivity|].
  cbn [flat_map]. rewrite map_app, length_app, repeat_app, IH. f_equal.
  unfold line_entries, mirror, line_entry, line_value. rewrite Hp.
  destruct (Header.symmetry header); [|destruct (off_diagonal line)]; reflexivity.
Qed.

Lemma values_sorted (comp : Nonzero -> Nonzero -> bool) (coo : list Nonzero) :
  map Nonzero.value coo = repeat value_one (List.length coo) ->
  map Nonzero.value (std_sort comp coo) = repeat value_one (List.length coo).
Proof.
  intros H. rewrite <- (length_sorted comp coo), <- (length_map Nonzero.value).
  apply Forall_eq_repeat. apply Forall_map. apply Forall_sorted.
  apply Forall_map. rewrite H. apply Forall_forall. intros v Hv.
  now apply repeat_spec in Hv.
Qed.

Lemma entries_counted (header : Header.t) (lines : list string) :
  (List.length lines <= List.length (flat_map (line_entries header) lines))%nat.
Proof.
  induction lines as [|line lines IH]; [reflexivity|].
  cbn [flat_map List.length]. rewrite length_app.
  assert (1 <= List.length (line_entries header line))%nat; [|lia].
  unfold line_entries. destruct (Header.symmetry header); [|destruct (off_diagonal line)];
    cbn; lia.
Qed.

Lemma line_2_3 (header : Header.t) :
  3 <= max_value coord_type ->
  line_row "2 3" = 2 /\ line_col "2 3" = 3.
Proof.
  intros Hmax. unfold line_row, line_col. eval_tokens. cbn [nth]. eval_literals.
  split; reflexivity.
Qed.


(** C6.  In a file of value format [pattern] a data line must have
    exactly 2 tokens, in the other value formats exactly 3: a line with
    another number of tokens is refused with the error of an ill-shaped
    line, and a file with such a line among its declared data lines makes
    [read_csr] and [read_csc] fail with a format error (that very error
    when the lines before it are accepted).  Every entry stored from a
    pattern file has the value 1 (converted to the value type): the value
    arrays of [read_csr] and [read_csc] are 1 repeated once per stored
    entry, and there is at least one entry per declared data line.  The
    pattern line "2 3" stores the value 1 at row 1, column 2: in the
    arrays of [read_csr] the pair (column 2, value 1) lies between the
    offsets of row 1, and in those of [read_csc] the pair (row 1, value 1)
    between the offsets of column 2. *)
Theorem pattern_lines :
  (forall header line (nonzeros : list Nonzero),
     Header.value_type header = PATTERN ->
     List.length (Tokens line space) <> 2%nat ->
     read_data_line header line nonzeros
     = Throw (invalid_argument "Bad Matrix: ill-shaped pattern line"))
  /\ (forall header line (nonzeros : list Nonzero),
        Header.value_type header <> PATTERN ->
        List.length (Tokens line space) <> 3%nat ->
        read_data_line header line nonzeros
        = Throw (invalid_argument "Bad Matrix: ill-shaped value line"))
  /\ (forall header line (nonzeros result : list Nonzero),
        Header.value_type header = PATTERN ->
        read_data_line header line nonzeros = Ok result ->
        List.length (Tokens line space) = 2%nat
        /\ exists entries,
             result = nonzeros ++ entries
             /\ Forall (fun nz => Nonzero.value nz = value_one) entries)
  /\ (forall contents header f0,
        read_header (open contents) = Ok (header, f0) ->
        let lines := file_lines header f0 in
        let tokens line := List.length (Tokens line space) in
        (Header.value_type header = PATTERN ->
         (Exists (fun line => tokens line <> 2%nat) lines ->
          is_format_error (read_csr (Some contents))
          /\ is_format_error (read_csc (Some contents)))
         /\ (forall accepted line rest,
               lines = accepted ++ line :: rest ->
               forallb (line_ok header) accepted = true -> tokens line <> 2%nat ->
               read_csr (Some contents)
               = Throw (invalid_argument "Bad Matrix: ill-shaped pattern line")
               /\ read_csc (Some contents)
                  = Throw (invalid_argument "Bad Matrix: ill-shaped pattern line")))
        /\ (Header.value_type header <> PATTERN ->
            (Exists (fun line => tokens line <> 3%nat) lines ->
             is_format_error (read_csr (Some contents))
             /\ is_format_error (read_csc (Some contents)))
            /\ (forall accepted line rest,
                  lines = accepted ++ line :: rest ->
                  forallb (line_ok header) accepted = true -> tokens line <> 3%nat ->
                  read_csr (Some contents)
                  = Throw (invalid_argument "Bad Matrix: ill-shaped value line")
                  /\ read_csc (Some contents)
                     = Throw (invalid_argument "Bad Matrix: ill-shaped value line"))))
  /\ (forall file header coo infile,
        read_coo file = Ok (header, coo, infile) ->
        Header.value_type header = PATTERN ->
        (Z.to_nat (Header.num_nonzeros header) <= List.length coo)%nat
        /\ Forall (fun nz => Nonzero.value nz = value_one) coo
        /\ exists csr csc,
             read_csr file = Ok csr /\ read_csc file = Ok csc
             /\ CSRMatrix.values csr = repeat value_one (List.length coo)
             /\ CSCMatrix.values csc = repeat value_one (List.length coo)
             /\ List.length (CSRMatrix.col_indices csr) = List.length coo
             /\ List.length (CSCMatrix.row_indices csc) = List.length coo)
  /\ (forall header (nonzeros : list Nonzero),
        Header.value_type header = PATTERN ->
        2 <= Header.num_rows header -> 3 <= Header.num_cols header ->
        3 <= max_value coord_type ->
        exists mirrored,
          read_data_line header "2 3" nonzeros
          = Ok (nonzeros ++ Nonzero.mk 1 2 value_one :: mirrored))
  /\ (forall contents header f0 coo infile,
        read_header (open contents) = Ok (header, f0) ->
        read_coo (Some contents) = Ok (header, coo, infile) ->
        Header.value_type header = PATTERN ->
        In "2 3"%string (file_lines header f0) ->
        3 <= max_value coord_type ->
        In (Nonzero.mk 1 2 value_one) coo
        /\ exists csr csc,
             read_csr (Some contents) = Ok csr /\ read_csc (Some contents) = Ok csc
             /\ In (2, value_one)
                  (combine (CSRMatrix.col_indices csr) (CSRMatrix.values csr))
             /\ In (1, value_one)
                  (combine (CSCMatrix.row_indices csc) (CSCMatrix.values csc))
             /\ (Z.of_nat (List.length coo) <= max_value coord_type ->
                 In (2, value_one)
                   (slice (combine (CSRMatrix.col_indices csr) (CSRMatrix.values csr))
                      (offset_at (CSRMatrix.row_offsets csr) 1)
                      (offset_at (CSRMatrix.row_offsets csr) 2))
                 /\ In (1, value_one)
                      (slice (combine (CSCMatrix.row_indices csc) (CSCMatrix.values csc))
                         (offset_at (CSCMatrix.col_offsets csc) 2)
                         (offset_at (CSCMatrix.col_offsets csc) 3)))).
Proof.
  assert (Hentries : forall header line,
            Header.value_type header = PATTERN ->
            Forall (fun nz : Nonzero => Nonzero.value nz = value_one)
              (line_entries header line)).
  { intros header line Hp. unfold line_entries, mirror, line_entry, line_value. rewrite Hp.
    destruct (Header.symmetry header); [|destruct (off_diagonal line)];
      repeat constructor. }
  assert (Hline : forall header (nonzeros : list Nonzero),
            Header.value_type header = PATTERN ->
            2 <= Header.num_rows header -> 3 <= Header.num_cols header ->
            3 <= max_value coord_type ->
            exists mirrored,
              read_data_line header "2 3" nonzeros
              = Ok (nonzeros ++ Nonzero.mk 1 2 value_one :: mirrored)).
  { intros header nonzeros Hp Hr Hc Hmax. rewrite read_data_line_spec.
    assert (Hok : line_ok header "2 3" = true).
    { unfold line_ok, well_shaped, expected_tokens, row_in_bounds, col_in_bounds,
        line_row, line_col. rewrite Hp. eval_tokens. cbn [nth List.length Nat.eqb andb].
      eval_literals.
      destruct (Z.leb_spec 2 (Header.num_rows header)),
        (Z.leb_spec 3 (Header.num_cols header)); try lia; reflexivity. }
    rewrite Hok. unfold line_entries, mirror, line_entry, line_row, line_col, line_value.
    rewrite Hp. eval_tokens. cbn [nth]. eval_literals.
    destruct (Header.symmetry header); [|destruct (off_diagonal "2 3")];
      eexists; reflexivity. }
  split; [|split; [|split; [|split; [|split; [|split; [exact Hline|]]]]]].
  - intros header line nonzeros Hp Hn. rewrite read_data_line_spec.
    unfold line_ok, line_error, well_shaped, expected_tokens. rewrite Hp.
    destruct (Nat.eqb_spec (List.length (Tokens line space)) 2); [contradiction|reflexivity].
  - intros header line nonzeros Hp Hn. rewrite read_data_line_spec.
    unfold line_ok, line_error, well_shaped, expected_tokens.
    destruct (Header.value_type header); try contradiction;
      destruct (Nat.eqb_spec (List.length (Tokens line space)) 3);
      try contradiction; reflexivity.
  - intros header line nonzeros result Hp. rewrite read_data_line_spec.
    destruct (line_ok header line) eqn:Hok; [|discriminate].
    intros H. inversion H; subst. split.
    + unfold line_ok, well_shaped, expected_tokens in Hok. rewrite Hp in Hok.
      apply andb_prop in Hok as [Hok _]. apply andb_prop in Hok as [Hok _].
      now apply Nat.eqb_eq in Hok.
    + eexists. split; [reflexivity|]. now apply Hentries.
  - intros contents header f0 Hh lines tokens. subst lines tokens. split.
    + intros Hp.
      assert (He : expected_tokens header = 2%nat) by (unfold expected_tokens; now rewrite Hp).
      assert (Hi : ill_shaped header = invalid_argument "Bad Matrix: ill-shaped pattern line")
        by (unfold ill_shaped; now rewrite Hp).
      split.
      * intros Hex. apply (wrong_count_file contents header f0 Hh). now rewrite He.
      * intros accepted line rest Hl Hok Hn. rewrite <- He in Hn.
        destruct (wrong_count_rejected header line Hn) as [Hbad Herr].
        rewrite <- Hi, <- Herr.
        exact (first_rejected_line contents header f0 accepted rest line Hh Hl Hok Hbad).
    + intros Hp.
      assert (He : expected_tokens header = 3%nat)
        by (unfold expected_tokens; destruct (Header.value_type header); congruence).
      assert (Hi : ill_shaped header = invalid_argument "Bad Matrix: ill-shaped value line")
        by (unfold ill_shaped; destruct (Header.value_type header); congruence).
      split.
      * intros Hex. apply (wrong_count_file contents header f0 Hh). now rewrite He.
      * intros accepted line rest Hl Hok Hn. rewrite <- He in Hn.
        destruct (wrong_count_rejected header line Hn) as [Hbad Herr].
        rewrite <- Hi, <- Herr.
        exact (first_rejected_line contents header f0 accepted rest line Hh Hl Hok Hbad).
  - intros file header coo infile Hcoo Hp.
    destruct (read_coo_inv _ _ _ _ Hcoo) as [c [f0 [_ [_ [_ [Hc _]]]]]].
    assert (Hv : map Nonzero.value coo = repeat value_one (List.length coo))
      by (rewrite Hc; now apply pattern_values).
    split.
    { rewrite Hc. rewrite <- (data_lines_length (Z.to_nat (Header.num_nonzeros header)) f0).
      apply entries_counted. }
    split.
    { rewrite Hc. clear Hc Hv. induction (file_lines header f0) as [|line lines IH];
        cbn [flat_map]; [constructor|].
      apply Forall_app. split; [now apply Hentries|exact IH]. }
    destruct (read_csr_arrays _ _ _ _ Hcoo) as [ro Hr].
    destruct (read_csc_arrays _ _ _ _ Hcoo) as [co Hcs].
    eexists; eexists. split; [exact Hr|]. split; [exact Hcs|].
    cbn [CSRMatrix.values CSCMatrix.values CSRMatrix.col_indices CSCMatrix.row_indices].
    rewrite !length_map, !length_sorted.
    split; [now apply values_sorted|]. split; [now apply values_sorted|]. split; reflexivity.
  - intros contents header f0 coo infile Hh Hcoo Hp Hin Hmax.
    destruct (read_coo_inv _ _ _ _ Hcoo) as [c [f0' [Hc [Hh' [Hall [Hcoo' _]]]]]].
    injection Hc as <-. rewrite Hh in Hh'. injection Hh' as <-.
    rewrite forallb_forall in Hall. pose proof (Hall _ Hin) as Hok.
    destruct (line_2_3 header Hmax) as [Hrow Hcol].
    unfold line_ok, row_in_bounds, col_in_bounds in Hok. rewrite Hrow, Hcol in Hok.
    apply andb_prop in Hok as [Hok Hc2]. apply andb_prop in Hok as [_ Hr2].
    apply andb_prop in Hr2 as [_ Hr2]. apply andb_prop in Hc2 as [_ Hc2].
    apply Z.leb_le in Hr2, Hc2.
    assert (He : In (Nonzero.mk 1 2 value_one) coo).
    { rewrite Hcoo'. apply in_flat_map. exists "2 3"%string. split; [exact Hin|].
      assert (E : line_entry header "2 3" = Nonzero.mk 1 2 value_one).
      { unfold line_entry, line_value. now rewrite Hrow, Hcol, Hp. }
      unfold line_entries. rewrite E.
      destruct (Header.symmetry header); [|destruct (off_diagonal "2 3")]; now left. }
    split; [exact He|].
    rewrite (read_csr_any _ _ _ _ Hcoo ltac:(lia)), (read_csc_any _ _ _ _ Hcoo ltac:(lia)).
    eexists; eexists. split; [reflexivity|]. split; [reflexivity|].
    cbn [CSRMatrix.values CSCMatrix.values CSRMatrix.col_indices CSCMatrix.row_indices
         CSRMatrix.row_offsets CSCMatrix.col_offsets].
    assert (Hr : In (Nonzero.mk 1 2 value_one) (std_sort row_major_less coo))
      by (apply (Permutation_in _ (std_sort_perm row_major_less coo)), He).
    assert (Hcs : In (Nonzero.mk 1 2 value_one) (std_sort col_major_less coo))
      by (apply (Permutation_in _ (std_sort_perm col_major_less coo)), He).
    split; [rewrite combine_map; exact (in_map (fun a => (Nonzero.col a, Nonzero.value a)) _ _ Hr)|].
    split; [rewrite combine_map; exact (in_map (fun a => (Nonzero.row a, Nonzero.value a)) _ _ Hcs)|].
    intros Hfit.
    assert (Hl1 : Z.of_nat (List.length (std_sort row_major_less coo)) <= max_value coord_type)
      by now rewrite length_sorted.
    assert (Hl2 : Z.of_nat (List.length (std_sort col_major_less coo)) <= max_value coord_type)
      by now rewrite length_sorted.
    pose proof (sorted_by_major Nonzero.row Nonzero.col _ (sorted_rows coo)) as Hs1.
    pose proof (sorted_by_major Nonzero.col Nonzero.row _ (sorted_cols coo)) as Hs2.
    destruct (proj2 (compressed_groups Nonzero.row Nonzero.col (Header.num_rows header) 1
                       _ Hs1 Hl1) ltac:(lia)) as [_ [_ E1]].
    destruct (proj2 (compressed_groups Nonzero.col Nonzero.row (Header.num_cols header) 2
                       _ Hs2 Hl2) ltac:(lia)) as [_ [_ E2]].
    change (1 + 1) with 2 in E1. change (2 + 1) with 3 in E2. rewrite E1, E2.
    unfold entries_of, with_major. split.
    + apply (in_map (fun nz => (Nonzero.col nz, Nonzero.value nz)) _ (Nonzero.mk 1 2 value_one)).
      apply filter_In. split; [exact Hr|reflexivity].
    + apply (in_map (fun nz => (Nonzero.row nz, Nonzero.value nz)) _ (Nonzero.mk 1 2 value_one)).
      apply filter_In. split; [exact Hcs|reflexivity].
Qed.

End PatternFiles.

(** ** The program on a file that can be read *)

Section Programs.
Context {VT : ValueType}.
Abbreviation Nonzero := (Nonzero.t value_t).
Context {sorter : StdSort Nonzero}.
Variable uninit : Z.
Variable files : string -> option string.

Lemma two_arguments (argv : list string) :
  (Z.of_nat (List.length argv) =? 2) = true ->
  exists program name, argv = [program; name].
Proof.
  destruct argv as [|a [|b [|c argv]]]; try discriminate.
  - intros _. now exists a, b.
  - intros H. apply Z.eqb_eq in H. cbn [List.length] in H. lia.
Qed.

Lemma usage_status (argv : list string) :
  snd (usage argv) <> Return 0
  /\ (forall e, snd (usage argv) <> Terminate e)
  /\ (snd (usage argv) = Return 1 <-> argv <> []).
Proof.
  destruct argv as [|program argv]; cbn; repeat split; try discriminate; congruence.
Qed.

Lemma summary_success (program name : string) (header : Header.t)
    (coo : list Nonzero) (infile : istream) :
  @read_coo (demo_coord uninit) VT (files name) = Ok (header, coo, infile) ->
  Summary.main uninit files [program; name]
  = ([printf ("CSR:" ++ LF) [];
      printf ("%u x %u, %u nnz" ++ LF)
        [Int (Header.num_rows header); Int (Header.num_cols header);
         Int (match Header.symmetry header with
              | GENERAL => Header.num_nonzeros header
              | SYMMETRIC => static_cast unsigned_int (Z.of_nat (List.length coo))
              end)]],
     Return 0).
Proof.
  intros Hcoo. unfold Summary.main.
  cbn [List.length Z.of_nat Pos.of_succ_nat Pos.succ Z.eqb Pos.eqb negb nth].
  destruct (@read_csr_arrays (demo_coord uninit) VT sorter _ _ _ _ Hcoo) as [offsets ->].
  cbn [CSRMatrix.num_rows CSRMatrix.num_cols CSRMatrix.num_nonzeros app].
  assert (Hnnz : @to_coord (demo_coord uninit) (Z.of_nat (List.length coo))
                 = match Header.symmetry header with
                   | GENERAL => Header.num_nonzeros header
                   | SYMMETRIC => static_cast unsigned_int (Z.of_nat (List.length coo))
                   end).
  { destruct (Header.symmetry header) eqn:Hsym; [|reflexivity].
    destruct (@read_coo_inv (demo_coord uninit) VT _ _ _ _ Hcoo)
      as [contents [f0 [_ [Hh [_ [Hl _]]]]]].
    destruct (@read_header_in_range (demo_coord uninit) _ _ _ Hh) as [_ [_ Hn]].
    rewrite Hl, (general_entries_length _ _ Hsym). unfold file_lines.
    rewrite data_lines_length. unfold in_range in Hn.
    change (min_value (@coord_type (demo_coord uninit))) with 0 in Hn.
    rewrite Z2Nat.id by lia. now apply (@to_coord_id (demo_coord uninit)). }
  now rewrite Hnnz.
Qed.

(** X16.  The demonstration program.  Given one file name, it prints its
    banner and then, if the file is decoded, the declared numbers of rows
    and columns and the number of stored entries (for a general file the
    declared count: the three numbers of the dimension line), and returns
    0.  It returns 0 only if the file was decoded.  It catches no
    exception: when [read_csr] throws, the banner is all that has been
    printed and the run ends in [std::terminate].  It returns 1 exactly
    when the number of arguments is wrong and [argv[0]] is there (with no
    argument at all, a null [argv[0]] would be given to [%s]). *)
Theorem summary_program (argv : list string) :
  (forall program name header coo infile,
     argv = [program; name] ->
     @read_coo (demo_coord uninit) VT (files name) = Ok (header, coo, infile) ->
     Summary.main uninit files argv
     = ([printf ("CSR:" ++ LF) [];
         printf ("%u x %u, %u nnz" ++ LF)
           [Int (Header.num_rows header); Int (Header.num_cols header);
            Int (match Header.symmetry header with
                 | GENERAL => Header.num_nonzeros header
                 | SYMMETRIC => static_cast unsigned_int (Z.of_nat (List.length coo))
                 end)]],
        Return 0))
  /\ (snd (Summary.main uninit files argv) = Return 0 ->
      exists program name csr,
        argv = [program; name]
        /\ @read_csr (demo_coord uninit) VT sorter (files name) = Ok csr)
  /\ (forall e, snd (Summary.main uninit files argv) = Terminate e ->
      fst (Summary.main uninit files argv) = [printf ("CSR:" ++ LF) []]
      /\ exists program name,
           argv = [program; name]
           /\ @read_csr (demo_coord uninit) VT sorter (files name) = Throw e)
  /\ (snd (Summary.main uninit files argv) = Return 1
      <-> argv <> [] /\ List.length argv <> 2%nat).
Proof.
  split; [intros program name header coo infile ->; apply summary_success|].
  destruct (usage_status argv) as [U0 [Ue U1]].
  unfold Summary.main.
  destruct (Z.of_nat (List.length argv) =? 2) eqn:Hargc; cbn [negb].
  - destruct (two_arguments argv Hargc) as [program [name ->]]. cbn [nth List.length].
    destruct (@read_csr (demo_coord uninit) VT sorter (files name)) as [csr|e|] eqn:Hr;
      cbn [fst snd].
    + split; [intros _; now exists program, name, csr|].
      split; [discriminate|]. split; [discriminate|]. intros [_ H]. now contradiction H.
    + split; [discriminate|]. split.
      * intros e' H. injection H as <-. split; [reflexivity|]. now exists program, name.
      * split; [discriminate|]. intros [_ H]. now contradiction H.
    + split; [discriminate|]. split; [discriminate|].
      split; [discriminate|]. intros [_ H]. now contradiction H.
  - split; [intros H; now contradiction U0|].
    split; [intros e H; now contradiction (Ue e)|].
    rewrite U1. apply Z.eqb_neq in Hargc. split; [intros H; split; [exact H|lia]|tauto].
Qed.

End Programs.

(** ** Windows line endings *)

Lemma ends_with_token (c sep : ascii) (token rest : string) :
  rest <> EmptyString ->
  ends_with c (token ++ String sep rest) = ends_with c rest.
Proof.
  intros Hr. rewrite ends_with_app_last by discriminate.
  destruct rest; [congruence|reflexivity].
Qed.

Lemma accepted_last_character (line : string) :
  format_line_accepted line -> ends_with carriage_return line = false.
Proof.
  intros [fmt [sym [Ht [_ Hsym]]]].
  destruct (Tokens_rejoin line space) as [Hj _]. rewrite Ht in Hj.
  destruct (ends_with space line).
  - rewrite Hj. rewrite ends_with_app_last by discriminate. reflexivity.
  - rewrite string_app_nil_r in Hj. rewrite Hj.
    assert (Hne : sym <> EmptyString) by (destruct Hsym as [<-|[<-|[]]]; discriminate).
    unfold join.
    rewrite !ends_with_token;
      try (intros H; destruct fmt; discriminate H); try discriminate; try exact Hne.
    destruct Hsym as [<-|[<-|[]]]; reflexivity.
Qed.

Section LineEndings.
Context {CT : CoordType} {VT : ValueType}.
Abbreviation Nonzero := (Nonzero.t value_t).
Context {sorter : StdSort Nonzero}.

(** X17.  A file with Windows line endings is rejected: when the first
    line ends with a carriage return, [read_header], [read_csr] and
    [read_csc] throw a format error (the last token of the format line is
    then neither [general] nor [symmetric]). *)
Theorem crlf_rejected (contents : string) :
  ends_with carriage_return (first_line contents) = true ->
  is_format_error (read_header (open contents))
  /\ is_format_error (read_csr (Some contents))
  /\ is_format_error (read_csc (Some contents)).
Proof.
  intros He.
  assert (Hh : is_format_error (read_header (open contents))).
  { apply read_header_rejects. intros Hacc.
    apply accepted_last_character in Hacc. unfold first_line in He. congruence. }
  split; [exact Hh|]. destruct Hh as [what Hh].
  pose proof (read_coo_header_error (VT := VT) _ _ Hh) as Hcoo.
  split; exists what; [now apply read_csr_error|now apply read_csc_error].
Qed.

End LineEndings.

(** ** Numbers beyond the coordinate type *)

Lemma extract_int_saturates (t : int_type) (s : string) (old n : Z) :
  literal_value s = Some n -> max_value t < n -> extract_int t s old = max_value t.
Proof.
  unfold literal_value, extract_int. destruct s as [|c rest]; [discriminate|].
  simpl skipws. destruct (isspace c); [discriminate|]. intros Hd Hn.
  assert (Hc : exists d, digit_of c = Some d).
  { simpl in Hd. destruct (digit_of c) as [d|]; [eauto|discriminate]. }
  destruct Hc as [d Hc]. destruct (digit_of_not_sign _ _ Hc) as [-> ->]. cbv zeta. simpl orb.
  cbv iota. rewrite Hd. simpl andb. cbv iota.
  destruct (Z.ltb_spec (max_value t) n); [reflexivity|lia].
Qed.

Section Saturation.
Context {CT : CoordType} {VT : ValueType}.
Abbreviation Nonzero := (Nonzero.t value_t).

(** X18.  A number too large for the coordinate type is not rejected:
    [parse_int] returns the largest value of the type for it.  So when
    the number of rows is that largest value (as it is when the dimension
    line itself was too large), a data line whose row number is beyond
    the type is accepted and stored in the last row. *)
Theorem out_of_range_clamped :
  (forall token n,
     literal_value token = Some n -> max_value coord_type < n ->
     parse_int token = max_value coord_type)
  /\ (forall header line row col value n (nonzeros : list Nonzero),
        Header.value_type header <> PATTERN ->
        Tokens line space = [row; col; value] ->
        literal_value row = Some n -> max_value coord_type < n ->
        Header.num_rows header = max_value coord_type -> 1 <= max_value coord_type ->
        1 <= parse_int col <= Header.num_cols header ->
        exists mirrored,
          read_data_line header line nonzeros
          = Ok (nonzeros
                ++ Nonzero.mk (max_value coord_type - 1) (parse_int col - 1) (parse_num value)
                   :: mirrored)).
Proof.
  split; [intros token n; apply extract_int_saturates|].
  intros header line row col value n nonzeros Hp Ht Hd Hn Hrows Hmax Hc.
  pose proof (extract_int_saturates coord_type row (static_cast coord_type indeterminate) n Hd Hn)
    as Hrow.
  fold (parse_int row) in Hrow.
  rewrite read_data_line_spec.
  assert (Hok : line_ok header line = true).
  { unfold line_ok, well_shaped, expected_tokens, row_in_bounds, col_in_bounds,
      line_row, line_col. rewrite Ht. cbn [nth List.length]. rewrite Hrow, Hrows.
    destruct (Header.value_type header); try contradiction; simpl; lia. }
  rewrite Hok. unfold line_entries, mirror, line_entry, line_row, line_col, line_value.
  rewrite Ht. cbn [nth]. rewrite Hrow.
  destruct (Header.value_type header); try contradiction;
    (destruct (Header.symmetry header); [|destruct (off_diagonal line)]);
    eexists; reflexivity.
Qed.

End Saturation.

(** ** The assertions of [pop] *)

Section AssertingFacts.
Context {CT : CoordType} {VT : ValueType}.
Abbreviation Nonzero := (Nonzero.t value_t).

(** X19.  The assertion of [pop] never fails: [read_header] and the
    reading loop of [read_csr] and [read_csc] take a token only from a
    deque whose size they have just checked, so with the assertion made
    explicit they give the results of the functions without it, on every
    stream and on every line. *)
Theorem assertions_hold :
  (forall f, read_header_asserting f = Some (read_header f))
  /\ (forall header line nonzeros,
        read_data_line_asserting header line nonzeros
        = Some (read_data_line header line nonzeros)).
Proof.
  split.
  - intros f. unfold read_header_asserting, read_header.
    destruct (getline f EmptyString newline) as [f1 line].
    rewrite (size_length _ 5).
    destruct (Tokens line space) as [|a [|b [|c [|d [|e [|g l]]]]]];
      cbn [List.length Nat.eqb negb]; try reflexivity.
    cbn [pop pop_asserting].
    destruct (negb (String.eqb a "%%MatrixMarket")); [reflexivity|].
    destruct (negb (String.eqb b "matrix")); [reflexivity|].
    destruct (negb (String.eqb c "coordinate")); [reflexivity|].
    destruct (parse_value_fmt d); cbn [bind]; try reflexivity.
    destruct (parse_symmetry e); cbn [bind]; try reflexivity.
    destruct (skip_comments (skip_comments_fuel f1) f1 line) as [[f2 line2]|]; [|reflexivity].
    rewrite (size_length _ 3).
    destruct (Tokens line2 space) as [|x1 [|x2 [|x3 [|x4 l]]]];
      cbn [List.length Nat.eqb negb]; reflexivity.
  - intros header line nonzeros. unfold read_data_line_asserting, read_data_line.
    rewrite (size_length _ 2), (size_length _ 3).
    destruct (Header.value_type header); cbn [ValueFormat_eqb andb negb];
      destruct (Tokens line space) as [|x1 [|x2 [|x3 [|x4 l]]]];
      cbn [List.length Nat.eqb negb pop pop_asserting fst]; try reflexivity;
      repeat match goal with |- context [if ?b then _ else _] => destruct b end;
      reflexivity.
Qed.

End AssertingFacts.

(* ================================================================== *)
(** * The theorems at work on concrete files *)

(** C1, at work on the general 3 x 3 file. *)
Lemma decode_invariant_witness :
  exists csr,
    @read_csr coord_unsigned_int value_int demo_sort (Some general_3x3) = Ok csr
    /\ compressed_invariant Nonzero.row Nonzero.col
         (CSRMatrix.num_rows csr) (CSRMatrix.num_nonzeros csr)
         (CSRMatrix.row_offsets csr) (CSRMatrix.col_indices csr) (CSRMatrix.values csr)
         [Nonzero.mk 0 0 5; Nonzero.mk 1 2 7].
Proof.
  destruct (@decode_invariant coord_unsigned_int value_int demo_sort (Some general_3x3)
              (Header.mk GENERAL REAL 3 3 2) [Nonzero.mk 0 0 5; Nonzero.mk 1 2 7] (open ""))
    as [H _].
  - vm_compute. reflexivity.
  - intros H. discriminate H.
  - vm_compute. discriminate.
  - destruct H as [csr [H1 [_ H3]]]; [vm_compute; discriminate|].
    exists csr. split; assumption.
Defined.

(** C1 as stated fails in three ways.  A symmetric file that is not
    square stores a mirrored entry beyond the last row: [read_csr] returns
    5 row offsets for 2 rows.  A symmetric file with 2^31 lines off the
    diagonal stores 2^32 entries: the offsets of [read_csr<unsigned int>]
    wrap around and decrease.  A negative number of rows, read by
    [read_csr<int>], gives 1 row offset for -1 rows. *)
Lemma decode_invariant_counterexample :
  (exists header coo infile csr,
     @read_coo coord_unsigned_int value_int (Some symmetric_2x5) = Ok (header, coo, infile)
     /\ @read_csr coord_unsigned_int value_int demo_sort (Some symmetric_2x5) = Ok csr
     /\ ~ compressed_invariant Nonzero.row Nonzero.col
            (CSRMatrix.num_rows csr) (CSRMatrix.num_nonzeros csr)
            (CSRMatrix.row_offsets csr) (CSRMatrix.col_indices csr) (CSRMatrix.values csr)
            coo)
  /\ (exists header coo infile csr,
        @read_coo coord_unsigned_int value_int
          (Some (big_symmetric (Z.to_nat 2147483648))) = Ok (header, coo, infile)
        /\ @read_csr coord_unsigned_int value_int demo_sort
             (Some (big_symmetric (Z.to_nat 2147483648))) = Ok csr
        /\ ~ compressed_invariant Nonzero.row Nonzero.col
               (CSRMatrix.num_rows csr) (CSRMatrix.num_nonzeros csr)
               (CSRMatrix.row_offsets csr) (CSRMatrix.col_indices csr)
               (CSRMatrix.values csr) coo)
  /\ (exists header coo infile csr,
        @read_coo coord_int value_int (Some negative_rows) = Ok (header, coo, infile)
        /\ @read_csr coord_int value_int demo_sort (Some negative_rows) = Ok csr
        /\ ~ compressed_invariant Nonzero.row Nonzero.col
               (CSRMatrix.num_rows csr) (CSRMatrix.num_nonzeros csr)
               (CSRMatrix.row_offsets csr) (CSRMatrix.col_indices csr)
               (CSRMatrix.values csr) coo).
Proof.
  split; [|split].
  - do 4 eexists. split; [vm_compute; reflexivity|]. split; [vm_compute; reflexivity|].
    intros [Hlen _ _ _ _ _ _]. vm_compute in Hlen. discriminate Hlen.
  - apply (@big_symmetric_not_invariant value_int demo_sort (Z.to_nat 2147483648)).
    apply Z2Nat.id. discriminate.
  - do 4 eexists. split; [vm_compute; reflexivity|]. split; [vm_compute; reflexivity|].
    intros [Hlen _ _ _ _ _ _]. vm_compute in Hlen. discriminate Hlen.
Qed.

(** C2, at work on the symmetric 3 x 3 file: one line off the diagonal,
    two stored entries. *)
Lemma symmetric_doubling_witness :
  exists csr,
    @read_csr coord_unsigned_int value_int demo_sort (Some symmetric_3x3) = Ok csr
    /\ CSRMatrix.num_nonzeros csr = 2.
Proof.
  destruct (@symmetric_doubling coord_unsigned_int value_int demo_sort) as [H _].
  destruct (H symmetric_3x3 (Header.mk SYMMETRIC REAL 3 3 1)
              (open (text ["1 2 4.0"])) (open "")
              [Nonzero.mk 0 1 4; Nonzero.mk 1 0 4])
    as [_ [[csr [Hcsr [_ [_ [_ Hfit]]]]] _]].
  - vm_compute. reflexivity.
  - vm_compute. reflexivity.
  - reflexivity.
  - exists csr. split; [exact Hcsr|]. apply Hfit. vm_compute. discriminate.
Defined.

(** C2 as stated fails when [2k + d] is not representable in the
    coordinate type: with [k = 2^31] and [d = 0], [read_csr<unsigned int>]
    reports 0 nonzeros. *)
Lemma symmetric_doubling_counterexample :
  exists header f0 csr,
    @read_header coord_unsigned_int (open (big_symmetric (Z.to_nat 2147483648)))
    = Ok (header, f0)
    /\ Header.symmetry header = SYMMETRIC
    /\ @read_csr coord_unsigned_int value_int demo_sort
         (Some (big_symmetric (Z.to_nat 2147483648))) = Ok csr
    /\ let lines := file_lines header f0 in
       let k := Z.of_nat (List.length (filter (@off_diagonal coord_unsigned_int) lines)) in
       let d := Z.of_nat (List.length
                  (filter (fun line => negb (@off_diagonal coord_unsigned_int line)) lines)) in
       k = 2147483648 /\ d = 0
       /\ CSRMatrix.num_nonzeros csr = 0
       /\ CSRMatrix.num_nonzeros csr <> 2 * k + d.
Proof.
  apply (@big_symmetric_count value_int demo_sort (Z.to_nat 2147483648)).
  apply Z2Nat.id. discriminate.
Qed.

(** C3, at work for [read_csr<unsigned int, int>]. *)
Lemma general_3x3_csr_witness :
  3 <= max_value unsigned_int
  /\ @read_csr coord_unsigned_int value_int demo_sort (Some general_3x3)
     = Ok (CSRMatrix.mk 3 3 2 [0; 1; 2; 2] [0; 2] [5; 7]).
Proof.
  split; [vm_compute; discriminate|].
  apply (@general_3x3_csr coord_unsigned_int value_int demo_sort).
  vm_compute. discriminate.
Defined.

(** C3 as stated fails: the row offsets are not [0,1,1,2].  Row 1 holds
    the second entry, so the third offset is 2. *)
Lemma general_3x3_counterexample :
  exists csr,
    @read_csr coord_unsigned_int value_int demo_sort (Some general_3x3) = Ok csr
    /\ CSRMatrix.row_offsets csr = [0; 1; 2; 2]
    /\ CSRMatrix.row_offsets csr <> [0; 1; 1; 2].
Proof.
  eexists. split; [vm_compute; reflexivity|]. split; [reflexivity|].
  cbn [CSRMatrix.row_offsets]. discriminate.
Qed.

(** C4, at work on a file that lists the coordinate (1, 1) twice: both
    entries are stored. *)
Lemma sort_keeps_entries_witness :
  exists row_offsets,
    @read_csr coord_unsigned_int value_int demo_sort (Some duplicates_3x3)
    = Ok (CSRMatrix.mk 3 3 3 row_offsets [0; 0; 2] [5; 9; 7]).
Proof.
  destruct (@sort_keeps_entries coord_unsigned_int value_int demo_sort
              (Some duplicates_3x3) (Header.mk GENERAL INTEGER 3 3 3)
              [Nonzero.mk 0 0 5; Nonzero.mk 1 2 7; Nonzero.mk 0 0 9] (open ""))
    as [[row_offsets [H _]] _].
  - vm_compute. reflexivity.
  - exists row_offsets. exact H.
Defined.

(** C4 as stated fails: the GNU library divides a range of more than 16
    elements by exchanging elements around a pivot, whatever their order
    of arrival.  Of the twenty entries that the file lists at (1, 1),
    with the values 1 to 20, the one listed eleventh is stored first and
    the one listed first is stored eleventh; the others are stored in the
    opposite order. *)
Lemma arrival_order_counterexample :
  @read_coo coord_unsigned_int value_int (Some twenty_at_1_1)
  = Ok (Header.mk GENERAL INTEGER 3 3 20, map (Nonzero.mk 0 0) in_arrival_order, open "")
  /\ sort (@row_major_less value_int) (map (Nonzero.mk 0 0) in_arrival_order)
     = Some (map (Nonzero.mk 0 0) as_stored)
  /\ @read_csr coord_unsigned_int value_int library_sort (Some twenty_at_1_1)
     = Ok (CSRMatrix.mk 3 3 20 [0; 20; 20; 20] (repeat 0 20%nat) as_stored)
  /\ as_stored <> in_arrival_order.
Proof. repeat split; try (vm_compute; reflexivity). discriminate. Qed.

(** The three entries of the file of the witness are few enough to be
    sorted by insertion alone, which keeps the two at (1, 1) in order. *)
Lemma three_in_arrival_order :
  @read_csr coord_unsigned_int value_int library_sort (Some duplicates_3x3)
  = Ok (CSRMatrix.mk 3 3 3 [0; 2; 3; 3] [0; 0; 2] [5; 9; 7]).
Proof. vm_compute. reflexivity. Qed.

(** C5, at work on a file whose second data line has row 0. *)
Lemma bounds_check_witness :
  is_format_error (@read_csr coord_unsigned_int value_int demo_sort (Some row_zero))
  /\ is_format_error (@read_csc coord_unsigned_int value_int demo_sort (Some row_zero)).
Proof.
  destruct (@bounds_check coord_unsigned_int value_int demo_sort) as [_ [_ H]].
  apply (H row_zero (Header.mk GENERAL INTEGER 3 3 2) (open (text ["1 1 5"; "0 3 7"]))
           "0 3 7"%string).
  - vm_compute. reflexivity.
  - vm_compute. auto.
  - left. vm_compute. reflexivity.
Defined.

(** C6, at work on a pattern file with the line [2 3], and on one whose
    second line has three tokens. *)
Lemma pattern_lines_witness :
  (exists csr csc,
     @read_csr coord_unsigned_int value_int demo_sort (Some commented_3x3) = Ok csr
     /\ @read_csc coord_unsigned_int value_int demo_sort (Some commented_3x3) = Ok csc
     /\ In (2, @value_one value_int)
          (slice (combine (CSRMatrix.col_indices csr) (CSRMatrix.values csr))
             (offset_at (CSRMatrix.row_offsets csr) 1)
             (offset_at (CSRMatrix.row_offsets csr) 2))
     /\ In (1, @value_one value_int)
          (slice (combine (CSCMatrix.row_indices csc) (CSCMatrix.values csc))
             (offset_at (CSCMatrix.col_offsets csc) 2)
             (offset_at (CSCMatrix.col_offsets csc) 3)))
  /\ @read_csr coord_unsigned_int value_int demo_sort (Some pattern_with_value)
     = Throw (invalid_argument "Bad Matrix: ill-shaped pattern line")
  /\ @read_csc coord_unsigned_int value_int demo_sort (Some pattern_with_value)
     = Throw (invalid_argument "Bad Matrix: ill-shaped pattern line").
Proof.
  destruct (@pattern_lines coord_unsigned_int value_int demo_sort)
    as [_ [_ [_ [Hshape [_ [_ Hstored]]]]]].
  split.
  - destruct (Hstored commented_3x3 (Header.mk GENERAL PATTERN 3 3 1) (open (text ["2 3"]))
                [Nonzero.mk 1 2 (@value_one value_int)] (open ""))
      as [_ [csr [csc [Hr [Hc [_ [_ Hs]]]]]]].
    + reflexivity.
    + reflexivity.
    + reflexivity.
    + left. reflexivity.
    + vm_compute. discriminate.
    + exists csr, csc. split; [exact Hr|]. split; [exact Hc|]. apply Hs.
      vm_compute. discriminate.
  - destruct (Hshape pattern_with_value (Header.mk GENERAL PATTERN 3 3 2)
                (open (text ["1 1"; "2 3 1"])) eq_refl) as [Hpattern _].
    destruct (Hpattern eq_refl) as [_ Hfirst].
    apply (Hfirst ["1 1"%string] "2 3 1"%string []).
    + reflexivity.
    + reflexivity.
    + vm_compute. discriminate.
Defined.

(** C7, at work on the header of a dense (array) file. *)
Lemma format_line_check_witness :
  is_format_error (@read_header coord_unsigned_int (open array_header))
  /\ is_format_error (@read_csr coord_unsigned_int value_int demo_sort (Some array_header))
  /\ is_format_error (@read_csc coord_unsigned_int value_int demo_sort (Some array_header)).
Proof.
  destruct (@format_line_check coord_unsigned_int value_int demo_sort array_header) as [H _].
  apply H. intros [fmt [sym [Ht _]]]. vm_compute in Ht. discriminate Ht.
Defined.

(** C8, at work on a header with two comment lines. *)
Lemma dimension_line_witness :
  @read_header coord_unsigned_int (open commented_3x3)
  = Ok (Header.mk GENERAL PATTERN 3 3 1, open (text ["2 3"])).
Proof.
  destruct (@dimension_line coord_unsigned_int value_int) as [H _].
  destruct (H "%%MatrixMarket matrix coordinate pattern general"%string
              "pattern"%string "general"%string ["% a comment"; "%"]%string
              "3 3 1"%string (text ["2 3"]))
    as [Hok _].
  - reflexivity.
  - reflexivity.
  - simpl. tauto.
  - simpl. tauto.
  - repeat constructor.
  - reflexivity.
  - reflexivity.
  - exact (Hok "3"%string "3"%string "1"%string eq_refl).
Defined.

(** C9, at work on the general 3 x 3 file. *)
Lemma csr_csc_agree_witness :
  exists csr csc,
    @read_csr coord_unsigned_int value_int demo_sort (Some general_3x3) = Ok csr
    /\ @read_csc coord_unsigned_int value_int demo_sort (Some general_3x3) = Ok csc
    /\ Permutation (csr_triples csr) (csc_triples csc).
Proof.
  destruct (@csr_csc_agree coord_unsigned_int value_int demo_sort (Some general_3x3))
    as [_ [_ [_ H]]].
  exists (CSRMatrix.mk 3 3 2 [0; 1; 2; 2] [0; 2] [5; 7]),
         (CSCMatrix.mk 3 3 2 [0; 1; 1; 2] [0; 1] [5; 7]).
  split; [vm_compute; reflexivity|]. split; [vm_compute; reflexivity|].
  destruct (H (CSRMatrix.mk 3 3 2 [0; 1; 2; 2] [0; 2] [5; 7])
              (CSCMatrix.mk 3 3 2 [0; 1; 1; 2] [0; 1] [5; 7]))
    as [_ [_ [_ [header [coo [infile [Hcoo [_ [_ [_ [_ Hperm]]]]]]]]]]].
  - vm_compute. reflexivity.
  - vm_compute. reflexivity.
  - vm_compute in Hcoo. inversion Hcoo; subst. apply Hperm.
    + intros Hs. discriminate Hs.
    + vm_compute. discriminate.
Defined.

(** C9 as stated fails on a symmetric file that is not square: the CSR
    result stands for one triple, the CSC result for two.  It also fails
    on the symmetric file of 2^31 lines: the entry (0, 1) is among the
    triples of the CSR result and not among those of the CSC result. *)
Lemma triples_counterexample :
  (exists csr csc,
     @read_csr coord_unsigned_int value_int demo_sort (Some symmetric_2x5) = Ok csr
     /\ @read_csc coord_unsigned_int value_int demo_sort (Some symmetric_2x5) = Ok csc
     /\ csr_triples csr = [(0, 4, 7)]
     /\ csc_triples csc = [(4, 0, 7); (0, 4, 7)]
     /\ ~ Permutation (csr_triples csr) (csc_triples csc))
  /\ (exists csr csc,
        @read_csr coord_unsigned_int value_int demo_sort
          (Some (big_symmetric (Z.to_nat 2147483648))) = Ok csr
        /\ @read_csc coord_unsigned_int value_int demo_sort
             (Some (big_symmetric (Z.to_nat 2147483648))) = Ok csc
        /\ ~ Permutation (csr_triples csr) (csc_triples csc)).
Proof.
  split.
  - do 2 eexists. split; [vm_compute; reflexivity|]. split; [vm_compute; reflexivity|].
    split; [vm_compute; reflexivity|]. split; [vm_compute; reflexivity|].
    intros Hp. apply Permutation_length in Hp. vm_compute in Hp. discriminate Hp.
  - destruct (@big_symmetric_triples value_int demo_sort (Z.to_nat 2147483648))
      as [csr [csc [Hr [Hc [Hin Hout]]]]].
    + apply Z2Nat.id. discriminate.
    + exists csr, csc. split; [exact Hr|]. split; [exact Hc|].
      intros Hp. apply Hout. eapply Permutation_in; [exact Hp|exact Hin].
Qed.

(** C10, at work: the general 3 x 3 file followed by anything. *)
Lemma trailing_content_ignored_witness :
  @read_csr coord_unsigned_int value_int demo_sort
    (Some (general_3x3 ++ "")%string)
  = @read_csr coord_unsigned_int value_int demo_sort
      (Some (general_3x3 ++ "9 9 9" ++ LF ++ "not a matrix line")%string).
Proof.
  destruct (@trailing_content_ignored coord_unsigned_int value_int demo_sort
              "%%MatrixMarket matrix coordinate real general"%string []
              "3 3 2"%string ["1 1 5.0"; "2 3 7.0"]%string
              ""%string ("9 9 9" ++ LF ++ "not a matrix line")%string)
    as [H _].
  - reflexivity.
  - constructor.
  - reflexivity.
  - reflexivity.
  - repeat constructor.
  - vm_compute. reflexivity.
  - exact H.
Defined.

(* ================================================================== *)
(** * The further properties at work *)

(** X2, at work on the tokens of a data line. *)
Lemma Tokens_of_join_witness :
  Tokens "1 2 3.5" space = ["1"; "2"; "3.5"]
  /\ Tokens "1 2 3.5 " space = ["1"; "2"; "3.5"].
Proof.
  assert (H : Forall (fun token => lacks space token = true) ["1"; "2"; "3.5"])
    by (repeat constructor).
  destruct (Tokens_of_join space ["1"; "2"; "3.5"] H) as [H1 [_ H3]].
  split; [apply H1; right; discriminate|apply H3; discriminate].
Defined.

(** X3, at work on the line [1 2 3.5] of a 3 x 3 real matrix. *)
Lemma separators_strict_witness :
  let header := Header.mk GENERAL REAL 3 3 2 in
  let bad := Throw (invalid_argument "Bad Matrix: ill-shaped value line") in
  @read_data_line coord_unsigned_int value_int header
    ("1" ++ String "009" ("2" ++ String "009" "3.5"))%string [] = bad
  /\ @read_data_line coord_unsigned_int value_int header " 1 2 3.5" [] = bad
  /\ @read_data_line coord_unsigned_int value_int header "1  2 3.5" [] = bad
  /\ @read_data_line coord_unsigned_int value_int header "1 2 3.5 " []
     = @read_data_line coord_unsigned_int value_int header "1 2 3.5" [].
Proof.
  cbv zeta.
  split; [|split; [|split]].
  - apply (proj1 (@separators_strict coord_unsigned_int value_int
                    (Header.mk GENERAL REAL 3 3 2)
                    ("1" ++ String "009" ("2" ++ String "009" "3.5"))%string [])). reflexivity.
  - apply (proj1 (proj2 (@separators_strict coord_unsigned_int value_int
                           (Header.mk GENERAL REAL 3 3 2) "1 2 3.5" []))). reflexivity.
  - apply (proj1 (proj2 (proj2 (@separators_strict coord_unsigned_int value_int
                                  (Header.mk GENERAL REAL 3 3 2) "1 2 3.5" [])))
             "1" "2 3.5"); reflexivity.
  - apply (proj2 (proj2 (proj2 (@separators_strict coord_unsigned_int value_int
                                  (Header.mk GENERAL REAL 3 3 2) "1 2 3.5" []))));
      [discriminate|reflexivity].
Defined.

(** X4, at work: [2.9] is read as [2], and so are [2] after a tab and
    [+2]. *)
Lemma parse_int_lenient_witness :
  @parse_int coord_unsigned_int "2.9" = @parse_int coord_unsigned_int "2"
  /\ @parse_int coord_unsigned_int (String "009" "2") = @parse_int coord_unsigned_int "2"
  /\ @parse_int coord_unsigned_int "+2" = @parse_int coord_unsigned_int "2".
Proof.
  destruct (@parse_int_lenient coord_unsigned_int "2") as [H1 [H2 H3]].
  split; [|split].
  - apply (H1 ".9"); [discriminate|reflexivity].
  - apply (H2 (String "009" "")). reflexivity.
  - apply H3. reflexivity.
Defined.

(** X5, at work on a comment in the place of a data line. *)
Lemma comment_in_data_rejected_witness :
  is_format_error
    (@read_data_line coord_unsigned_int value_int (Header.mk GENERAL REAL 3 3 2)
       "% not a data line" [])
  /\ is_format_error
       (@read_csr coord_unsigned_int value_int demo_sort
          (Some (text ["%%MatrixMarket matrix coordinate real general"; "3 3 2";
                       "1 1 5.0"; "% not a data line"; "2 3 7.0"]))).
Proof.
  destruct (@comment_in_data_rejected coord_unsigned_int value_int demo_sort) as [H1 H2].
  split.
  - apply H1. left. reflexivity.
  - apply (H2 _ (Header.mk GENERAL REAL 3 3 2) (open (text ["1 1 5.0"; "% not a data line"; "2 3 7.0"]))
             "% not a data line").
    + reflexivity.
    + right. left. reflexivity.
    + left. reflexivity.
Defined.

(** X6, at work on the general 3 x 3 file without its last line. *)
Lemma truncated_file_witness :
  @read_csr coord_unsigned_int value_int demo_sort
    (Some (text ["%%MatrixMarket matrix coordinate real general"; "3 3 2"; "1 1 5.0"]))
  = Throw (invalid_argument "Bad Matrix: ill-shaped value line").
Proof.
  refine (proj1 (proj2 (proj2
    (@truncated_file coord_unsigned_int value_int demo_sort
       "%%MatrixMarket matrix coordinate real general" "real" "general" []
       "3 3 2" "3" "3" "2" ["1 1 5.0"] "" _ _ _ _ _ _ _ _ _ _ _)) _)).
  - reflexivity.
  - reflexivity.
  - left. reflexivity.
  - left. reflexivity.
  - constructor.
  - reflexivity.
  - reflexivity.
  - reflexivity.
  - repeat constructor.
  - reflexivity.
  - vm_compute. lia.
  - reflexivity.
Defined.

(** X7, at work on a file that cannot be opened. *)
Lemma open_failure_witness :
  @read_csr coord_unsigned_int value_int demo_sort None
  = Throw (new_invalid_argument "Could not open file for reading")
  /\ ~ is_format_error (@read_csr coord_unsigned_int value_int demo_sort None).
Proof.
  destruct (proj1 (@open_failure coord_unsigned_int value_int demo_sort None) eq_refl)
    as [H1 [_ [H3 _]]].
  split; assumption.
Defined.

(** X8, at work on a 3 x 4 file without entries. *)
Lemma no_entries_witness :
  @read_csr coord_unsigned_int value_int demo_sort
    (Some (text ["%%MatrixMarket matrix coordinate real general"; "3 4 0"]))
  = Ok (CSRMatrix.mk 3 4 0 [0; 0; 0; 0] [] [])
  /\ @read_csc coord_unsigned_int value_int demo_sort
       (Some (text ["%%MatrixMarket matrix coordinate real general"; "3 4 0"]))
     = Ok (CSCMatrix.mk 3 4 0 [0; 0; 0; 0; 0] [] []).
Proof.
  apply (@no_entries coord_unsigned_int value_int demo_sort
           (text ["%%MatrixMarket matrix coordinate real general"; "3 4 0"])
           (Header.mk GENERAL REAL 3 4 0) (open "")).
  - reflexivity.
  - cbn. lia.
Defined.

(** X9, at work on the general 3 x 3 file. *)
Lemma stored_indices_in_bounds_witness :
  exists csr,
    @read_csr coord_unsigned_int value_int demo_sort (Some general_3x3) = Ok csr
    /\ Forall (fun col => 0 <= col < CSRMatrix.num_cols csr) (CSRMatrix.col_indices csr)
    /\ List.length (CSRMatrix.values csr) = List.length (CSRMatrix.col_indices csr).
Proof.
  eexists. split; [reflexivity|].
  apply (@stored_indices_in_bounds coord_unsigned_int value_int demo_sort (Some general_3x3)
           (Header.mk GENERAL REAL 3 3 2) [Nonzero.mk 0 0 5; Nonzero.mk 1 2 7] (open "")).
  - reflexivity.
  - intros H. discriminate H.
  - reflexivity.
Defined.

(** X10, at work on the general 3 x 3 file (two entries declared and
    stored) and on the symmetric one (one declared, two stored). *)
Lemma entry_count_witness :
  (exists csr,
     @read_csr coord_unsigned_int value_int demo_sort (Some general_3x3) = Ok csr
     /\ CSRMatrix.num_nonzeros csr = 2)
  /\ 1 <= Z.of_nat (List.length [@Nonzero.mk Z 0 1 4; Nonzero.mk 1 0 4]) <= 2 * 1.
Proof.
  split.
  - eexists. split; [reflexivity|].
    apply (proj1 (proj2 (proj2
             (@entry_count coord_unsigned_int value_int demo_sort (Some general_3x3)
                (Header.mk GENERAL REAL 3 3 2) [Nonzero.mk 0 0 5; Nonzero.mk 1 2 7] (open "")
                eq_refl))) _ eq_refl); reflexivity.
  - apply (proj1 (proj2
             (@entry_count coord_unsigned_int value_int demo_sort (Some symmetric_3x3)
                (Header.mk SYMMETRIC REAL 3 3 1) [Nonzero.mk 0 1 4; Nonzero.mk 1 0 4] (open "")
                eq_refl))). reflexivity.
Defined.

(** X12, at work: after the format line, a comment that is not ended by
    a line feed. *)
Lemma hang_iff_witness :
  @read_csr coord_unsigned_int value_int demo_sort
    (Some ("%%MatrixMarket matrix coordinate real general" ++ LF ++ "% the end")%string) = Hang
  /\ @read_csr coord_unsigned_int value_int demo_sort
       (Some ("%%MatrixMarket matrix coordinate real general" ++ LF ++ "% the end" ++ LF)%string)
     <> Hang.
Proof.
  split.
  - destruct (@hang_iff coord_unsigned_int value_int demo_sort
                ("%%MatrixMarket matrix coordinate real general" ++ LF ++ "% the end")%string)
      as [H1 [H2 _]].
    apply H2, H1. split.
    + exists "real", "general". split; [reflexivity|]. split; left; reflexivity.
    + exists ["%%MatrixMarket matrix coordinate real general"], "% the end".
      split; [reflexivity|]. split; repeat constructor.
  - apply (proj2 (proj2 (proj2
             (@hang_iff coord_unsigned_int value_int demo_sort
                ("%%MatrixMarket matrix coordinate real general" ++ LF ++ "% the end" ++ LF)%string)))).
    reflexivity.
Defined.

(** X13, at work on the file with a duplicated entry: the two sorts
    disagree on the order of the values 5 and 9 only. *)
Lemma sort_independent_witness :
  exists csr1 csr2,
    @read_csr coord_unsigned_int value_int demo_sort (Some duplicates_3x3) = Ok csr1
    /\ @read_csr coord_unsigned_int value_int other_sort (Some duplicates_3x3) = Ok csr2
    /\ CSRMatrix.row_offsets csr1 = CSRMatrix.row_offsets csr2
    /\ CSRMatrix.col_indices csr1 = CSRMatrix.col_indices csr2
    /\ Permutation (CSRMatrix.values csr1) (CSRMatrix.values csr2).
Proof.
  destruct (@sort_independent coord_unsigned_int value_int demo_sort other_sort
              (Some duplicates_3x3) (Header.mk GENERAL INTEGER 3 3 3)
              [Nonzero.mk 0 0 5; Nonzero.mk 1 2 7; Nonzero.mk 0 0 9] (open "") eq_refl)
    as [[csr1 [csr2 [H1 [H2 [H3 [H4 [H5 _]]]]]]] _].
  exists csr1, csr2. repeat split; assumption.
Defined.

(** X14, at work on a 2 x 3 matrix and its transpose. *)
Lemma transposition_witness :
  exists csr csc',
    @read_csr coord_unsigned_int value_int demo_sort
      (Some (text ["%%MatrixMarket matrix coordinate integer general"; "2 3 2";
                   "2 3 7"; "1 2 5"])) = Ok csr
    /\ @read_csc coord_unsigned_int value_int demo_sort
         (Some (text ["%%MatrixMarket matrix coordinate integer general"; "3 2 2";
                      "3 2 7"; "2 1 5"])) = Ok csc'
    /\ CSCMatrix.col_offsets csc' = CSRMatrix.row_offsets csr
    /\ CSCMatrix.row_indices csc' = CSRMatrix.col_indices csr
    /\ CSCMatrix.values csc' = CSRMatrix.values csr.
Proof.
  do 2 eexists. split; [reflexivity|]. split; [reflexivity|].
  destruct (proj2 (@transposition coord_unsigned_int value_int demo_sort
              "%%MatrixMarket matrix coordinate integer general" "integer" "general" []
              "2 3 2" "3 2 2" "2" "3" "2" ["2 3 7"; "1 2 5"] ["3 2 7"; "2 1 5"] "" ""
              eq_refl eq_refl (or_intror (or_introl eq_refl)) (or_introl eq_refl)
              (Forall_nil _) eq_refl eq_refl eq_refl eq_refl eq_refl eq_refl eq_refl
              ltac:(repeat constructor) ltac:(repeat constructor)
              ltac:(repeat constructor; do 3 eexists; split; reflexivity))
            _ _ eq_refl eq_refl) as [_ [_ [_ [H4 [H5 [_ H7]]]]]].
  split; [exact H4|]. split; [exact H5|]. apply H7.
  vm_compute. repeat constructor; cbn; intuition discriminate.
Defined.

(** X16, at work: the summary of the general 3 x 3 file. *)
Lemma summary_program_witness :
  @Summary.main value_int demo_sort 0 (fun _ => Some general_3x3) ["demo"; "m.mtx"]
  = ([printf ("CSR:" ++ LF)%string [];
      @printf value_int ("%u x %u, %u nnz" ++ LF)%string [Int 3; Int 3; Int 2]],
     Return 0).
Proof.
  apply (proj1 (@summary_program value_int demo_sort 0 (fun _ => Some general_3x3)
                  ["demo"; "m.mtx"])
           "demo" "m.mtx" (Header.mk GENERAL REAL 3 3 2)
           [Nonzero.mk 0 0 5; Nonzero.mk 1 2 7] (open "")).
  - reflexivity.
  - reflexivity.
Defined.

(** X17, at work on the general 3 x 3 file with Windows line endings. *)
Lemma crlf_rejected_witness :
  is_format_error
    (@read_csr coord_unsigned_int value_int demo_sort
       (Some (text (map (fun line => (line ++ String carriage_return EmptyString)%string)
                      ["%%MatrixMarket matrix coordinate real general"; "3 3 2";
                       "1 1 5.0"; "2 3 7.0"])))).
Proof.
  apply (@crlf_rejected coord_unsigned_int value_int demo_sort). reflexivity.
Defined.

(** X18, at work with [CoordType = short] on the row number 40000. *)
Lemma out_of_range_clamped_witness :
  @parse_int coord_short "40000" = 32767
  /\ exists mirrored,
       @read_data_line coord_short value_int (Header.mk GENERAL INTEGER 32767 32767 1)
         "40000 1 5" []
       = Ok ([] ++ Nonzero.mk 32766 0 5 :: mirrored).
Proof.
  destruct (@out_of_range_clamped coord_short value_int) as [H1 H2].
  split.
  - apply (H1 "40000" 40000); [reflexivity|vm_compute; reflexivity].
  - apply (H2 (Header.mk GENERAL INTEGER 32767 32767 1) "40000 1 5" "40000" "1" "5" 40000 []).
    + discriminate.
    + reflexivity.
    + reflexivity.
    + vm_compute. reflexivity.
    + reflexivity.
    + vm_compute. discriminate.
    + vm_compute. split; discriminate.
Defined.

(** X20, at work on the symmetric 2 x 5 file: five row offsets for two
    rows, and the entry of row 0 between the first two. *)
Lemma rows_readable_witness :
  exists csr,
    @read_csr coord_unsigned_int value_int demo_sort (Some symmetric_2x5) = Ok csr
    /\ CSRMatrix.num_rows csr + 1 <= Z.of_nat (List.length (CSRMatrix.row_offsets csr))
    /\ slice (combine (CSRMatrix.col_indices csr) (CSRMatrix.values csr))
         (offset_at (CSRMatrix.row_offsets csr) 0) (offset_at (CSRMatrix.row_offsets csr) 1)
       = [(4, 7)].
Proof.
  eexists. split; [reflexivity|].
  destruct (proj1 (@rows_readable coord_unsigned_int value_int demo_sort (Some symmetric_2x5)
                     (Header.mk SYMMETRIC INTEGER 2 5 1)
                     [Nonzero.mk 0 4 7; Nonzero.mk 4 0 7] (open "") eq_refl
                     ltac:(vm_compute; discriminate))
             ltac:(vm_compute; discriminate) _ eq_refl) as [H1 H2].
  split; [exact H1|]. apply (H2 0). vm_compute. split; [discriminate|reflexivity].
Defined.
